(** * Housing project: administrative resolver, typology inferrer,
      paginated aggregation and admin dataset fetcher

    Shallow embedding of
    - [web-app/src/lib/api.ts] (the resolver [resolveAdminHierarchy], the
      index builder [buildPortugalAdminIndex], [inferTypologyLabel], the
      aggregation loop of [getImportDashboardMetrics] and the drill-down
      scans [getDashboardListingsByRegion] / [getDashboardListingsByTypology]);
    - [web-app/src/app/api/pt-admin/route.ts] ([fetchAllPages],
      [upsertAreaOption] and the cached [GET] handler).

    Conventions of the embedding.
    - A JavaScript string is the sequence of its UTF-16 code units.  The
      model covers the strings all of whose code units lie in
      U+0000..U+00FF: one [ascii] per code unit, so the Rocq literal
      ["Porto"] is the JavaScript literal ["Porto"].  Every Portuguese
      letter is in that range.
    - [null] / [undefined] are [None].
    - Counters are [Z].  Coordinates are IEEE 754 binary64 numbers, as in
      JavaScript: the primitive [float], whose arithmetic rounds to nearest,
      ties to even.  Prices and numbers of bedrooms, which the code only
      compares, rounds to an integer and passes on, are rationals ([Qc]).
    - A JavaScript [Map] whose iteration order is observed is an
      association list in insertion order ([JsMap]); a [Map] that is only
      read with [get] is a [gmap].
    - [while (true)] loops take a fuel argument; running out of fuel is the
      outcome [OutOfFuel], kept apart from returning and from throwing. *)

From Stdlib Require Import ZArith QArith Qcanon Qround Ascii String List Permutation Sorted Lia.
From Stdlib Require Import DecimalString.
From Stdlib Require Import Floats Uint63.
From stdpp Require Import base decidable option list strings gmap fin_maps.

Open Scope Z_scope.

(** ** Code units and character classes *)

Module Chars.

Definition code (c : ascii) : N := N_of_ascii c.

Definition inRange (lo hi : N) (c : ascii) : bool :=
  ((lo <=? code c) && (code c <=? hi))%N.

(** [[0-9]] *)
Definition isDigit (c : ascii) : bool := inRange 48 57 c.

(** [\w] without the [u] and [i] flags: [[A-Za-z0-9_]] *)
Definition isWordChar (c : ascii) : bool :=
  inRange 65 90 c || inRange 97 122 c || isDigit c || (code c =? 95)%N.

(** [\s], and the characters removed by [String.prototype.trim]:
    WhiteSpace and LineTerminator.  Below U+0100 these are TAB, LF, VT,
    FF, CR, SPACE and NO-BREAK SPACE. *)
Definition isSpace (c : ascii) : bool :=
  inRange 9 13 c || (code c =? 32)%N || (code c =? 160)%N.

(** The character class of [/[,\-|/;()]+/]. *)
Definition isDelimiter (c : ascii) : bool :=
  (code c =? 44)%N || (code c =? 45)%N || (code c =? 124)%N ||
  (code c =? 47)%N || (code c =? 59)%N || (code c =? 40)%N || (code c =? 41)%N.

(** [[tT]] *)
Definition isTee (c : ascii) : bool := (code c =? 116)%N || (code c =? 84)%N.

(** Upper-case letters below U+0100: A-Z, U+00C0..U+00D6, U+00D8..U+00DE. *)
Definition isUpper (c : ascii) : bool :=
  inRange 65 90 c || inRange 192 214 c || inRange 216 222 c.

(** Lower-case letters below U+0100 whose capital is below U+0100 too:
    a-z, U+00E0..U+00F6, U+00F8..U+00FE. *)
Definition isLowerWithCapital (c : ascii) : bool :=
  inRange 97 122 c || inRange 224 246 c || inRange 248 254 c.

End Chars.

(** ** String primitives of the platform *)

Module JsString.
Import Chars.

Definition units (s : string) : list ascii := list_ascii_of_string s.
Definition ofUnits (l : list ascii) : string := string_of_list_ascii l.

(** Truthiness of a string: [Boolean(s)], [!s], [if (s)]. *)
Definition nonEmpty (s : string) : bool :=
  match s with EmptyString => false | String _ _ => true end.

(** Truthiness of [string | null | undefined]. *)
Definition truthy (o : option string) : bool :=
  match o with Some s => nonEmpty s | None => false end.

Fixpoint dropSpaces (l : list ascii) : list ascii :=
  match l with
  | c :: r => if isSpace c then dropSpaces r else l
  | [] => []
  end.

Definition trimUnits (l : list ascii) : list ascii :=
  rev (dropSpaces (rev (dropSpaces l))).

(** [s.trim()] *)
Definition trim (s : string) : string := ofUnits (trimUnits (units s)).

Definition lowerUnit (c : ascii) : ascii :=
  if isUpper c then ascii_of_N (code c + 32) else c.

(** [s.toLowerCase()] *)
Definition toLowerCase (s : string) : string := ofUnits (map lowerUnit (units s)).

(** [s.toUpperCase()].  U+00DF becomes ["SS"].  The capitals of U+00FF and
    U+00B5 are U+0178 and U+039C, outside the modelled range; the two
    letters stand for their own capitals here.  No other character has
    these capitals and no upper-cased string contains U+00FF or U+00B5, so
    equality of two upper-cased strings is the same as in JavaScript. *)
Definition upperUnit (c : ascii) : list ascii :=
  if (code c =? 223)%N then ["S"%char; "S"%char]
  else if isLowerWithCapital c then [ascii_of_N (code c - 32)]
  else [c].

Definition toUpperCase (s : string) : string :=
  ofUnits (concat (map upperUnit (units s))).

(** Canonical decomposition of the capitals below U+0100:
    (code unit, base letter, combining mark). *)
Definition nfdCapitals : list (N * (N * N)) :=
  [ (192, (65, 768)); (193, (65, 769)); (194, (65, 770)); (195, (65, 771));
    (196, (65, 776)); (197, (65, 778)); (199, (67, 807));
    (200, (69, 768)); (201, (69, 769)); (202, (69, 770)); (203, (69, 776));
    (204, (73, 768)); (205, (73, 769)); (206, (73, 770)); (207, (73, 776));
    (209, (78, 771));
    (210, (79, 768)); (211, (79, 769)); (212, (79, 770)); (213, (79, 771));
    (214, (79, 776));
    (217, (85, 768)); (218, (85, 769)); (219, (85, 770)); (220, (85, 776));
    (221, (89, 769)) ]%N.

Fixpoint assocN (n : N) (t : list (N * (N * N))) : option (N * N) :=
  match t with
  | [] => None
  | (k, v) :: r => if (k =? n)%N then Some v else assocN n r
  end.

(** [normalize("NFD")] of one code unit below U+0100.  The small letters
    decompose like their capitals, 32 code units higher; U+00FF is
    y + U+0308. *)
Definition nfdUnit (c : ascii) : list N :=
  let n := code c in
  match assocN n nfdCapitals with
  | Some (base, mark) => [base; mark]
  | None =>
      match assocN (n - 32) nfdCapitals with
      | Some (base, mark) => if (224 <=? n)%N then [(base + 32)%N; mark] else [n]
      | None => if (n =? 255)%N then [121; 776]%N else [n]
      end
  end.

(** [s.normalize("NFD")], as code units (the marks are above U+00FF). *)
Definition normalizeNFD (l : list ascii) : list N := concat (map nfdUnit l).

(** [.replace(/[\u0300-\u036f]/g, empty)] *)
Definition stripCombining (l : list N) : list N :=
  List.filter (fun u => negb ((768 <=? u) && (u <=? 879))%N) l.

(** [.replace(/\s+/g, " ")] *)
Fixpoint collapseSpaces (inRun : bool) (l : list ascii) : list ascii :=
  match l with
  | [] => []
  | c :: r =>
      if isSpace c
      then (if inRun then collapseSpaces true r else " "%char :: collapseSpaces true r)
      else c :: collapseSpaces false r
  end.

(** [s.split(re)] for a regular expression [re] that matches the non-empty
    runs of [isDelim]: the pieces between the runs, empty pieces at either
    end included. *)
Fixpoint splitRuns (isDelim : ascii -> bool) (inRun : bool)
    (cur : list ascii) (l : list ascii) : list (list ascii) :=
  match l with
  | [] => [rev cur]
  | c :: r =>
      if isDelim c
      then (if inRun then splitRuns isDelim true [] r
            else rev cur :: splitRuns isDelim true [] r)
      else splitRuns isDelim false (c :: cur) r
  end.

End JsString.

Import JsString.

(** ** api.ts: normalised keys *)

(** [normalizeLocationPart]:
    NFD, strip U+0300..U+036F, lower-case, collapse white space, trim. *)
Definition normalizeLocationPart (value : string) : string :=
  let decomposed := stripCombining (normalizeNFD (units value)) in
  let lowered := map lowerUnit (map ascii_of_N decomposed) in
  ofUnits (trimUnits (collapseSpaces false lowered)).

(** ** api.ts: the administrative index *)

Record MunicipalityRecord := {
  mun_municipality : string;
  mun_district : string
}.

Record AdminNameRecord := {
  rec_district : string;
  rec_municipality : string;
  rec_parish : string
}.

Record PortugalAdminIndex := {
  districtByKey : gmap string string;
  municipalityByKey : gmap string MunicipalityRecord;
  parishByKey : gmap string AdminNameRecord
}.

Record ResolvedHierarchy := {
  district : option string;
  municipality : option string;
  parish : option string
}.

(** [extractLocationCandidates] *)
Definition extractLocationCandidates (locationText : option string) : list string :=
  let raw := trim (default "" locationText) in
  if negb (nonEmpty raw) then []
  else
    let split :=
      List.filter nonEmpty
        (map (fun part => ofUnits (trimUnits part))
             (splitRuns Chars.isDelimiter false [] (units raw))) in
    split.

(** A [for (const part of candidates)] loop that looks [part]'s key up and
    breaks at the first hit accepted by [accept] (the truthiness test of the
    loop body). *)
Fixpoint firstHit {V} (get : string -> option V) (accept : V -> bool)
    (candidates : list string) : option V :=
  match candidates with
  | [] => None
  | part :: rest =>
      match get (normalizeLocationPart part) with
      | Some hit => if accept hit then Some hit else firstHit get accept rest
      | None => firstHit get accept rest
      end
  end.

(** [resolveAdminHierarchy] *)
Definition resolveAdminHierarchy (locationText : option string)
    (index : PortugalAdminIndex) : ResolvedHierarchy :=
  let candidates := extractLocationCandidates locationText in
  (* parish pass: an object is always truthy *)
  let afterParish :=
    match firstHit (fun key => parishByKey index !! key) (fun _ => true) candidates with
    | Some parishHit =>
        {| district := Some (rec_district parishHit);
           municipality := Some (rec_municipality parishHit);
           parish := Some (rec_parish parishHit) |}
    | None => {| district := None; municipality := None; parish := None |}
    end in
  (* municipality pass *)
  let afterMunicipality :=
    if negb (truthy (municipality afterParish)) || negb (truthy (district afterParish))
    then
      match firstHit (fun key => municipalityByKey index !! key) (fun _ => true) candidates with
      | Some municipalityHit =>
          {| district := Some (mun_district municipalityHit);
             municipality := Some (mun_municipality municipalityHit);
             parish := parish afterParish |}
      | None => afterParish
      end
    else afterParish in
  (* district pass: the hit is a string, the empty string is falsy *)
  if negb (truthy (district afterMunicipality))
  then
    match firstHit (fun key => districtByKey index !! key) nonEmpty candidates with
    | Some districtHit =>
        {| district := Some districtHit;
           municipality := municipality afterMunicipality;
           parish := parish afterMunicipality |}
    | None => afterMunicipality
    end
  else afterMunicipality.

(** ** api.ts: typology inference *)

(** A JavaScript number.  [Finite q] is the number of value [q]. *)
Inductive JsNumber :=
| NaN
| PosInfinity
| NegInfinity
| Finite (q : Qc).

(** [Number.isFinite(x) && x >= 0] *)
Definition finiteNonNegative (x : JsNumber) : bool :=
  match x with
  | Finite q => Qle_bool 0 q
  | _ => false
  end.

(** [Math.round(x)] for a finite [x]: the nearest integer, ties upwards. *)
Definition mathRound (q : Qc) : Z := Qfloor (q + (1 # 2))%Q.

(** The binary64 number nearest to a natural number [m] below 2^1024, ties
    to even: [m] itself when it has at most 53 bits. *)
Definition roundToDouble (m : Z) : Z :=
  let bits := Z.log2 m + 1 in
  if (bits <=? 53)%Z then m
  else
    let shift := bits - 53 in
    let q := Z.shiftr m shift in
    let r := m - Z.shiftl q shift in
    let half := Z.shiftl 1 (shift - 1) in
    let q' := if (half <? r)%Z || ((r =? half)%Z && Z.odd q) then q + 1 else q in
    Z.shiftl q' shift.

(** The number of decimal digits of a natural number. *)
Definition decimalDigits (n : Z) : Z :=
  Z.of_nat (String.length (NilZero.string_of_int (Z.to_int n))).

(** The decimals [s * 10^e] with [k] digits [s] around [x] that denote the
    number [x], each with its distance to [x] and [s]. *)
Definition decimalsOf (x : Z) (k : Z) : list (Z * Z * Z) :=
  let digits := decimalDigits x in
  flat_map
    (fun e =>
       if (e <? 0)%Z then []
       else
         let p := 10 ^ e in
         List.filter
           (fun c => let s := snd c in
                     (10 ^ (k - 1) <=? s)%Z && (s <? 10 ^ k)%Z &&
                     (roundToDouble (s * p) =? x)%Z)
           (map (fun s => (s * p, Z.abs (s * p - x), s)) [x / p; x / p + 1]))
    [digits - k; digits - k + 1].

(** The decimal closest to [x]; of two at the same distance, the one with
    even digits. *)
Definition closerDecimal (x : Z) (a b : Z * Z * Z) : Z * Z * Z :=
  let '(_, da, sa) := a in
  let '(_, db, _) := b in
  if (da <? db)%Z then a
  else if (db <? da)%Z then b
  else if Z.even sa then a else b.

Definition closestDecimal (x : Z) (candidates : list (Z * Z * Z)) : option Z :=
  match candidates with
  | [] => None
  | c :: rest => Some (fst (fst (fold_left (closerDecimal x) rest c)))
  end.

(** Number::toString on the digits: the decimal with the fewest digits
    that denotes the number [x], the closest to [x] when there are several. *)
Fixpoint shortestDecimal (x : Z) (lengths : list Z) : Z :=
  match lengths with
  | [] => x
  | k :: rest =>
      match closestDecimal x (decimalsOf x k) with
      | Some v => v
      | None => shortestDecimal x rest
      end
  end.

(** [String(n)] for a natural number [n] below 10^21, where JavaScript
    switches to exponent notation: the digits of the shortest decimal that
    denotes the number [n], followed by zeros.  Below 2^53 this is the
    decimal numeral of [n].  A negative [n] prints its sign first. *)
Definition integerToString (n : Z) : string :=
  let x := roundToDouble (Z.abs n) in
  let printed :=
    if (x <? 2 ^ 53)%Z then x
    else shortestDecimal x (map Z.of_nat (seq 1 21)) in
  NilZero.string_of_int (Z.to_int (Z.sgn n * printed)).

Module TypologyRegex.
Import Chars.

(** The captures of a match: group 1 and, when it took part, group 2. *)
Definition Captures : Type := list ascii * option (list ascii).

Definition isWordAt (o : option ascii) : bool :=
  match o with Some c => isWordChar c | None => false end.

(** [\b] between [prev] and [next] *)
Definition wordBoundary (prev next : option ascii) : bool :=
  xorb (isWordAt prev) (isWordAt next).

(** [\b] after a match whose last character is [prev] *)
Definition boundaryAfter (prev : list ascii) (rest : list ascii) : bool :=
  wordBoundary (last prev) (head rest).

(** [[0-9]{1,2}] followed by [k]: two digits first, one digit on
    backtracking. *)
Definition digits12 {A} (l : list ascii)
    (k : list ascii -> list ascii -> option A) : option A :=
  match l with
  | d1 :: r1 =>
      if isDigit d1 then
        match
          match r1 with
          | d2 :: r2 => if isDigit d2 then k [d1; d2] r2 else None
          | [] => None
          end
        with
        | Some m => Some m
        | None => k [d1] r1
        end
      else None
  | [] => None
  end.

(** [(?:\s*\+\s*([0-9]{1,2}))?\b] after group 1: the group first,
    skipping it on backtracking.  A greedy [\s*] is followed by a
    character that is not white space, so giving spaces back never helps. *)
Definition matchTail (base rest : list ascii) : option Captures :=
  let withExtra :=
    match dropSpaces rest with
    | c :: r =>
        if (code c =? 43)%N
        then digits12 (dropSpaces r)
               (fun extra r' =>
                  if boundaryAfter extra r' then Some (base, Some extra) else None)
        else None
    | [] => None
    end in
  match withExtra with
  | Some m => Some m
  | None => if boundaryAfter base rest then Some (base, None) else None
  end.

(** The whole pattern at one start position: [prev] is the character
    before it. *)
Definition matchHere (prev : option ascii) (l : list ascii) : option Captures :=
  match l with
  | c :: r =>
      if wordBoundary prev (Some c) && isTee c
      then digits12 (dropSpaces r) matchTail
      else None
  | [] => None
  end.

(** [String.prototype.match] without the [g] flag: the first start
    position, left to right, at which the pattern matches. *)
Fixpoint search (prev : option ascii) (l : list ascii) : option Captures :=
  match matchHere prev l with
  | Some m => Some m
  | None =>
      match l with
      | c :: r => search (Some c) r
      | [] => None
      end
  end.

(** [rawTitle.match(/\b[tT]\s*([0-9]{1,2})(?:\s*\+\s*([0-9]{1,2}))?\b/)] *)
Definition exec (rawTitle : string) : option Captures := search None (units rawTitle).

End TypologyRegex.

(** The template literals [`T${base}+${extra}`] and [`T${base}`]; a captured
    group is never empty, so [extra] is truthy exactly when group 2 took
    part in the match. *)
Definition typologyOfCaptures (m : TypologyRegex.Captures) : string :=
  match m with
  | (base, Some extra) => "T" +:+ ofUnits base +:+ "+" +:+ ofUnits extra
  | (base, None) => "T" +:+ ofUnits base
  end.

(** [inferTypologyLabel] *)
Definition inferTypologyLabel (bedrooms : option JsNumber) (title : option string) : string :=
  let rawTitle := default "" title in
  match TypologyRegex.exec rawTitle with
  | Some titleMatch => typologyOfCaptures titleMatch
  | None =>
      match bedrooms with
      | Some (Finite q) =>
          if finiteNonNegative (Finite q)
          then "T" +:+ integerToString (mathRound q)
          else "Unknown"
      | _ => "Unknown"
      end
  end.

(** ** types.ts: the admin dataset *)

Inductive AdminLevel := Country | District | Municipality | Parish.

Record AdminAreaOption := {
  opt_id : string;
  opt_label : string;
  opt_level : AdminLevel;
  opt_country : string;
  opt_district : option string;
  opt_municipality : option string;
  opt_parish : option string;
  opt_lat : option float;
  opt_lng : option float;
  opt_sample_count : Z
}.

Record PortugalAdminDataset := {
  districts : list AdminAreaOption;
  municipalities : list AdminAreaOption;
  parishes : list AdminAreaOption
}.

(** ** api.ts: the index builder *)

(** [x?.trim()] followed by the test [!x]: the trimmed value when it is a
    non-empty string. *)
Definition trimmedNonEmpty (x : option string) : option string :=
  match x with
  | Some s => if nonEmpty (trim s) then Some (trim s) else None
  | None => None
  end.

Definition indexDistrict (acc : gmap string string) (item : AdminAreaOption) :
    gmap string string :=
  match trimmedNonEmpty (Some (opt_label item)) with
  | Some label => <[normalizeLocationPart label := label]> acc
  | None => acc
  end.

Definition indexMunicipality (acc : gmap string MunicipalityRecord)
    (item : AdminAreaOption) : gmap string MunicipalityRecord :=
  match trimmedNonEmpty (Some (opt_label item)), trimmedNonEmpty (opt_district item) with
  | Some municipalityName, Some districtName =>
      <[normalizeLocationPart municipalityName :=
          {| mun_municipality := municipalityName; mun_district := districtName |}]> acc
  | _, _ => acc
  end.

Definition indexParish (acc : gmap string AdminNameRecord)
    (item : AdminAreaOption) : gmap string AdminNameRecord :=
  match trimmedNonEmpty (Some (opt_label item)),
        trimmedNonEmpty (opt_municipality item),
        trimmedNonEmpty (opt_district item) with
  | Some parishName, Some municipalityName, Some districtName =>
      <[normalizeLocationPart parishName :=
          {| rec_district := districtName;
             rec_municipality := municipalityName;
             rec_parish := parishName |}]> acc
  | _, _, _ => acc
  end.

(** [buildPortugalAdminIndex] *)
Definition buildPortugalAdminIndex (dataset : PortugalAdminDataset) : PortugalAdminIndex :=
  {| districtByKey := fold_left indexDistrict (districts dataset) ∅;
     municipalityByKey := fold_left indexMunicipality (municipalities dataset) ∅;
     parishByKey := fold_left indexParish (parishes dataset) ∅ |}.

(** ** A [Map] in insertion order *)

Module JsMap.

Definition t (V : Type) : Type := list (string * V).

Definition empty {V} : t V := [].

Fixpoint get {V} (k : string) (m : t V) : option V :=
  match m with
  | [] => None
  | (k', v) :: r => if String.eqb k' k then Some v else get k r
  end.

(** [map.set(k, v)]: an existing key keeps its place. *)
Fixpoint set {V} (k : string) (v : V) (m : t V) : t V :=
  match m with
  | [] => [(k, v)]
  | (k', v') :: r => if String.eqb k' k then (k, v) :: r else (k', v') :: set k v r
  end.

Definition keys {V} (m : t V) : list string := map fst m.

(** [Array.from(map.values())] *)
Definition values {V} (m : t V) : list V := map snd m.

End JsMap.

(** [Array.prototype.sort(comparefn)]: stable; [x] goes before the first
    element that [comparefn] places after it. *)
Fixpoint sortInsert {A} (comparefn : A -> A -> Z) (x : A) (sorted : list A) : list A :=
  match sorted with
  | [] => [x]
  | y :: rest =>
      if (0 <? comparefn y x)%Z then x :: y :: rest
      else y :: sortInsert comparefn x rest
  end.

Definition arraySort {A} (comparefn : A -> A -> Z) (l : list A) : list A :=
  fold_left (fun sorted x => sortInsert comparefn x sorted) l [].

(** ** The listing store *)

Inductive ListingType := Buy | Rent.

(** A row of [listings_normalized], with the columns the queries select. *)
Record ListingRow := {
  row_id : string;
  row_source : string;
  row_title : option string;
  row_listing_type : option string;
  row_price_eur : option Qc;
  row_url : option string;
  row_location_text : option string;
  row_bedrooms : option JsNumber;
  row_last_seen_at : option string
}.

(** The [{ data, error }] answer of a range query. *)
Record QueryResult := {
  q_data : option (list ListingRow);
  q_error : option string
}.

(** The active rows of [listings_normalized] behind [.range(from, to)], in
    the two orders the code asks for. *)
Record ListingStore := {
  rangeById : Z -> Z -> QueryResult;
  rangeByLastSeen : Z -> Z -> QueryResult
}.

(** Rows [from..to], both ends included. *)
Definition slice (rows : list ListingRow) (from to : Z) : list ListingRow :=
  if (to <? from)%Z then []
  else take (Z.to_nat (to - from + 1)) (drop (Z.to_nat from) rows).

(** A store that holds a fixed set of active rows and answers every query:
    [byId] lists them by ascending id, [byLastSeen] by descending
    [last_seen_at]. *)
Definition stableStore (byId byLastSeen : list ListingRow) : ListingStore :=
  {| rangeById := fun from to => {| q_data := Some (slice byId from to); q_error := None |};
     rangeByLastSeen :=
       fun from to => {| q_data := Some (slice byLastSeen from to); q_error := None |} |}.

Inductive Outcome (A : Type) :=
| Returned (a : A)
| Thrown (message : string)
| OutOfFuel.
Arguments Returned {A} a.
Arguments Thrown {A} message.
Arguments OutOfFuel {A}.

(** ** api.ts: the aggregation pass of [getImportDashboardMetrics] *)

(** [RegionBreakdownRow] and [TypologyBreakdownRow]: [group_key] is the
    field [region], respectively [typology]. *)
Record BreakdownRow := {
  group_key : string;
  buy_count : Z;
  rent_count : Z;
  total_count : Z
}.

Record AggState := {
  districtMap : JsMap.t BreakdownRow;
  municipalityMap : JsMap.t BreakdownRow;
  parishMap : JsMap.t BreakdownRow;
  typologyMap : JsMap.t BreakdownRow;
  totalBuy : Z;
  totalRent : Z
}.

Definition emptyAggState : AggState :=
  {| districtMap := JsMap.empty; municipalityMap := JsMap.empty;
     parishMap := JsMap.empty; typologyMap := JsMap.empty;
     totalBuy := 0; totalRent := 0 |}.

(** [row.listing_type === "rent" ? "rent" : "buy"] *)
Definition classify (row : ListingRow) : ListingType :=
  match row_listing_type row with
  | Some s => if String.eqb s "rent" then Rent else Buy
  | None => Buy
  end.

(** The two conditional increments and the increment of [total_count]. *)
Definition increment (listingType : ListingType) (current : BreakdownRow) : BreakdownRow :=
  {| group_key := group_key current;
     buy_count := match listingType with Buy => buy_count current + 1 | Rent => buy_count current end;
     rent_count := match listingType with Rent => rent_count current + 1 | Buy => rent_count current end;
     total_count := total_count current + 1 |}.

(** [map.get(key) ?? { key, 0, 0, 0 }] *)
Definition currentBucket (key : string) (m : JsMap.t BreakdownRow) : BreakdownRow :=
  default {| group_key := key; buy_count := 0; rent_count := 0; total_count := 0 |}
          (JsMap.get key m).

(** Fetch or create the bucket, increment it, [map.set(key, current)]. *)
Definition bump (listingType : ListingType) (key : string)
    (m : JsMap.t BreakdownRow) : JsMap.t BreakdownRow :=
  JsMap.set key (increment listingType (currentBucket key m)) m.

(** [x ?? "Unknown"] *)
Definition orUnknown (x : option string) : string := default "Unknown" x.

(** The typology of a row, as both the aggregation and the drill-down
    compute it. *)
Definition rowTypology (row : ListingRow) : string :=
  inferTypologyLabel (row_bedrooms row) (row_title row).

(** The body of [for (const row of rowsPage)]. *)
Definition processRow (adminIndex : PortugalAdminIndex) (st : AggState)
    (row : ListingRow) : AggState :=
  let listingType := classify row in
  let resolvedRegion := resolveAdminHierarchy (row_location_text row) adminIndex in
  {| totalBuy := match listingType with Buy => totalBuy st + 1 | Rent => totalBuy st end;
     totalRent := match listingType with Rent => totalRent st + 1 | Buy => totalRent st end;
     districtMap := bump listingType (orUnknown (district resolvedRegion)) (districtMap st);
     municipalityMap :=
       bump listingType (orUnknown (municipality resolvedRegion)) (municipalityMap st);
     parishMap := bump listingType (orUnknown (parish resolvedRegion)) (parishMap st);
     typologyMap := bump listingType (rowTypology row) (typologyMap st) |}.

(** The [while (true)] loop over pages.  The first component is the list of
    the [.range(from, to)] requests issued, oldest first. *)
Fixpoint aggregatePages (fuel : nat) (store : ListingStore)
    (adminIndex : PortugalAdminIndex) (pageSize offset : Z) (st : AggState)
    : list (Z * Z) * Outcome AggState :=
  match fuel with
  | O => ([], OutOfFuel)
  | S fuel' =>
      let request := (offset, offset + pageSize - 1) in
      let answer := rangeById store (fst request) (snd request) in
      match q_error answer with
      | Some message => ([request], Thrown message)
      | None =>
          let rowsPage := default [] (q_data answer) in
          if Z.of_nat (length rowsPage) =? 0 then ([request], Returned st)
          else
            let st' := fold_left (processRow adminIndex) rowsPage st in
            if (Z.of_nat (length rowsPage) <? pageSize)%Z then ([request], Returned st')
            else
              let '(requests, outcome) :=
                aggregatePages fuel' store adminIndex pageSize (offset + pageSize) st' in
              (request :: requests, outcome)
      end
  end.

Record ImportDashboardMetrics := {
  total_buy : Z;
  total_rent : Z;
  regions_district : list BreakdownRow;
  regions_municipality : list BreakdownRow;
  regions_parish : list BreakdownRow;
  typologies : list BreakdownRow
}.

Section Collation.

(** [a.localeCompare(b, "pt")]: the collation of the platform. *)
Variable localeCompare : string -> string -> Z.

(** [b.total_count - a.total_count || a.region.localeCompare(b.region, "pt")] *)
Definition compareRegions (a b : BreakdownRow) : Z :=
  if total_count b - total_count a =? 0
  then localeCompare (group_key a) (group_key b)
  else total_count b - total_count a.

Definition compareTypologies (a b : BreakdownRow) : Z :=
  if String.eqb (group_key a) "Unknown" then 1
  else if String.eqb (group_key b) "Unknown" then -1
  else compareRegions a b.

Definition sortRegions (entries : list BreakdownRow) : list BreakdownRow :=
  arraySort compareRegions entries.

Definition sortTypologies (entries : list BreakdownRow) : list BreakdownRow :=
  arraySort compareTypologies entries.

Definition metricsOfState (st : AggState) : ImportDashboardMetrics :=
  {| total_buy := totalBuy st;
     total_rent := totalRent st;
     regions_district := sortRegions (JsMap.values (districtMap st));
     regions_municipality := sortRegions (JsMap.values (municipalityMap st));
     regions_parish := sortRegions (JsMap.values (parishMap st));
     typologies := sortTypologies (JsMap.values (typologyMap st)) |}.

(** The region and typology part of [getImportDashboardMetrics], for any
    page size.  The per-source counters computed before the loop are
    independent count queries and are left out. *)
Definition importDashboardMetrics (fuel : nat) (store : ListingStore)
    (adminIndex : PortugalAdminIndex) (pageSize : Z)
    : list (Z * Z) * Outcome ImportDashboardMetrics :=
  let '(requests, outcome) :=
    aggregatePages fuel store adminIndex pageSize 0 emptyAggState in
  (requests,
   match outcome with
   | Returned st => Returned (metricsOfState st)
   | Thrown message => Thrown message
   | OutOfFuel => OutOfFuel
   end).

(** [getImportDashboardMetrics], with [const pageSize = 5000]. *)
Definition getImportDashboardMetrics (fuel : nat) (store : ListingStore)
    (adminIndex : PortugalAdminIndex) :=
  importDashboardMetrics fuel store adminIndex 5000.

End Collation.

(** ** api.ts: drill-down scans *)

Inductive DashboardRegionLevel := LevelDistrict | LevelMunicipality | LevelParish.

Record DashboardListingRow := {
  d_id : string;
  d_source : string;
  d_title : option string;
  d_listing_type : option ListingType;
  d_price_eur : Qc;
  d_url : option string;
  d_location_text : option string;
  d_bedrooms : option JsNumber;
  d_last_seen_at : option string
}.

(** [normalizeDashboardRow] *)
Definition normalizeDashboardRow (row : ListingRow) : DashboardListingRow :=
  {| d_id := row_id row;
     d_source := row_source row;
     d_title := row_title row;
     d_listing_type :=
       match row_listing_type row with
       | Some s =>
           if String.eqb s "buy" then Some Buy
           else if String.eqb s "rent" then Some Rent
           else None
       | None => None
       end;
     d_price_eur := default (Q2Qc 0) (row_price_eur row);
     d_url := row_url row;
     d_location_text := row_location_text row;
     d_bedrooms := row_bedrooms row;
     d_last_seen_at := row_last_seen_at row |}.

(** The resolved label of a row at one level, before any normalisation. *)
Definition levelLabel (level : DashboardRegionLevel) (resolved : ResolvedHierarchy) :
    option string :=
  match level with
  | LevelParish => parish resolved
  | LevelMunicipality => municipality resolved
  | LevelDistrict => district resolved
  end.

(** [locationPartByLevel] *)
Definition locationPartByLevel (locationText : option string)
    (level : DashboardRegionLevel) (index : PortugalAdminIndex) : string :=
  let resolved := resolveAdminHierarchy locationText index in
  match level with
  | LevelParish => normalizeLocationPart (orUnknown (parish resolved))
  | LevelMunicipality => normalizeLocationPart (orUnknown (municipality resolved))
  | LevelDistrict => normalizeLocationPart (orUnknown (district resolved))
  end.

(** The [while (true)] loop shared by the drill-down functions: every page
    of [rangeByLastSeen], the rows accepted by [keep] pushed to [out]. *)
Fixpoint scanPages (fuel : nat) (store : ListingStore) (keep : ListingRow -> bool)
    (pageSize offset : Z) (out : list DashboardListingRow)
    : Outcome (list DashboardListingRow) :=
  match fuel with
  | O => OutOfFuel
  | S fuel' =>
      let answer := rangeByLastSeen store offset (offset + pageSize - 1) in
      match q_error answer with
      | Some message => Thrown message
      | None =>
          let rows := default [] (q_data answer) in
          let out' := out ++ map normalizeDashboardRow (List.filter keep rows) in
          if (Z.of_nat (length rows) <? pageSize)%Z then Returned out'
          else scanPages fuel' store keep pageSize (offset + pageSize) out'
      end
  end.

(** The test of [getDashboardListingsByTypology] on one row. *)
Definition matchesTypology (typology : string) (row : ListingRow) : bool :=
  let target := toUpperCase (trim typology) in
  String.eqb (toUpperCase (rowTypology row)) target.

(** The test of [getDashboardListingsByRegion] on one row;
    [regionLabel || "Unknown"] replaces the empty label. *)
Definition matchesRegion (adminIndex : PortugalAdminIndex)
    (level : DashboardRegionLevel) (regionLabel : string) (row : ListingRow) : bool :=
  let target :=
    normalizeLocationPart (if nonEmpty regionLabel then regionLabel else "Unknown") in
  String.eqb (locationPartByLevel (row_location_text row) level adminIndex) target.

Definition dashboardListingsByTypology (fuel : nat) (store : ListingStore)
    (pageSize : Z) (typology : string) : Outcome (list DashboardListingRow) :=
  scanPages fuel store (matchesTypology typology) pageSize 0 [].

Definition dashboardListingsByRegion (fuel : nat) (store : ListingStore)
    (adminIndex : PortugalAdminIndex) (pageSize : Z)
    (level : DashboardRegionLevel) (regionLabel : string)
    : Outcome (list DashboardListingRow) :=
  scanPages fuel store (matchesRegion adminIndex level regionLabel) pageSize 0 [].

(** [getDashboardListingsByTypology], with [const pageSize = 1000]. *)
Definition getDashboardListingsByTypology (fuel : nat) (store : ListingStore)
    (typology : string) :=
  dashboardListingsByTypology fuel store 1000 typology.

(** [getDashboardListingsByRegion], with [const pageSize = 1000]. *)
Definition getDashboardListingsByRegion (fuel : nat) (store : ListingStore)
    (adminIndex : PortugalAdminIndex) (level : DashboardRegionLevel) (regionLabel : string) :=
  dashboardListingsByRegion fuel store adminIndex 1000 level regionLabel.

(** ** pt-admin/route.ts *)

Module Route.

Definition LIMIT : Z := 100.
Definition CACHE_MS : Z := 12 * 60 * 60 * 1000.

(** A record of the public dataset: [DistrictRow], [MunicipalityRow] and
    [ParishRow] select a subset of these fields. *)
Record GeoRow := {
  fre_name : option string;
  con_name : option string;
  dis_name : option string;
  geo_lat : option float;
  geo_lon : option float
}.

Record Payload := {
  payload_total_count : option Z;
  payload_results : option (list GeoRow)
}.

Record Response := {
  resp_ok : bool;
  resp_status : Z;
  resp_json : Payload
}.

(** The public dataset service: the answer to the request for [dataset]
    at [offset] (the select list and the limit are fixed per dataset). *)
Definition Upstream : Type := string -> Z -> Response.

(** [fetchAllPages].  The first component lists the offsets requested. *)
Fixpoint fetchAllPages (fuel : nat) (upstream : Upstream) (dataset : string)
    (offset : Z) (out : list GeoRow) : list Z * Outcome (list GeoRow) :=
  match fuel with
  | O => ([], OutOfFuel)
  | S fuel' =>
      let response := upstream dataset offset in
      if negb (resp_ok response)
      then ([offset],
            Thrown ("Public dataset request failed (" +:+
                    integerToString (resp_status response) +:+ ")"))
      else
        let payload := resp_json response in
        let rows := default [] (payload_results payload) in
        let out' := out ++ rows in
        let offset' := offset + Z.of_nat (length rows) in
        if (Z.of_nat (length rows) <? LIMIT)%Z then ([offset], Returned out')
        else if match payload_total_count payload with
                | Some total => (total <=? offset')%Z
                | None => false
                end
        then ([offset], Returned out')
        else
          let '(requests, outcome) := fetchAllPages fuel' upstream dataset offset' out' in
          (offset :: requests, outcome)
  end.

Definition fetchDistricts fuel upstream := fetchAllPages fuel upstream "georef-portugal-distrito" 0 [].
Definition fetchMunicipalities fuel upstream := fetchAllPages fuel upstream "georef-portugal-concelho" 0 [].
Definition fetchParishes fuel upstream := fetchAllPages fuel upstream "georef-portugal-freguesia" 0 [].

(** A count as a JavaScript number: exact below 2^53. *)
Definition countNumber (n : Z) : float := PrimFloat.of_uint63 (Uint63.of_Z n).

(** One coordinate of [upsertAreaOption]: the running weighted average
    [(existing * count + item) / total] in binary64 arithmetic when both
    values are present, [existing ?? item] otherwise. *)
Definition nextCoordinate (existing : option float) (count : Z) (item : option float) :
    option float :=
  match existing, item with
  | Some e, Some i => Some ((e * countNumber count + i) / countNumber (count + 1))%float
  | Some e, None => Some e
  | None, _ => item
  end.

(** [upsertAreaOption] *)
Definition upsertAreaOption (map : JsMap.t AdminAreaOption) (key : string)
    (item : AdminAreaOption) : JsMap.t AdminAreaOption :=
  match JsMap.get key map with
  | None => JsMap.set key item map
  | Some existing =>
      let total := opt_sample_count existing + 1 in
      let nextLat := nextCoordinate (opt_lat existing) (opt_sample_count existing) (opt_lat item) in
      let nextLng := nextCoordinate (opt_lng existing) (opt_sample_count existing) (opt_lng item) in
      JsMap.set key
        {| opt_id := opt_id existing;
           opt_label := opt_label existing;
           opt_level := opt_level existing;
           opt_country := opt_country existing;
           opt_district := opt_district existing;
           opt_municipality := opt_municipality existing;
           opt_parish := opt_parish existing;
           opt_lat := nextLat;
           opt_lng := nextLng;
           opt_sample_count := total |}
        map
  end.

(** [(row.x || "").trim()] *)
Definition trimmedName (x : option string) : string := trim (default "" x).

(** The key and the item a row is upserted with; [None] when the loop
    body ends in [continue]. *)
Definition Entry : Type := option (string * AdminAreaOption).

Definition upsertEntry (map : JsMap.t AdminAreaOption) (entry : Entry) :
    JsMap.t AdminAreaOption :=
  match entry with
  | Some (key, item) => upsertAreaOption map key item
  | None => map
  end.

(** The body of [for (const row of districtRows)]. *)
Definition districtEntry (row : GeoRow) : Entry :=
  let district := trimmedName (dis_name row) in
  if negb (nonEmpty district) then None
  else
    let districtId := "district:" +:+ toLowerCase district in
    Some (districtId,
      {| opt_id := districtId; opt_label := district; opt_level := District;
         opt_country := "PT"; opt_district := Some district;
         opt_municipality := None; opt_parish := None;
         opt_lat := geo_lat row; opt_lng := geo_lon row; opt_sample_count := 1 |}).

(** The body of [for (const row of municipalitiesRows)]. *)
Definition municipalityEntry (row : GeoRow) : Entry :=
  let district := trimmedName (dis_name row) in
  let municipality := trimmedName (con_name row) in
  if negb (nonEmpty district) || negb (nonEmpty municipality) then None
  else
    let municipalityId :=
      "municipality:" +:+ toLowerCase district +:+ ":" +:+ toLowerCase municipality in
    Some (municipalityId,
      {| opt_id := municipalityId; opt_label := municipality; opt_level := Municipality;
         opt_country := "PT"; opt_district := Some district;
         opt_municipality := Some municipality; opt_parish := None;
         opt_lat := geo_lat row; opt_lng := geo_lon row; opt_sample_count := 1 |}).

(** The body of [for (const row of parishesRows)]. *)
Definition parishEntry (row : GeoRow) : Entry :=
  let district := trimmedName (dis_name row) in
  let municipality := trimmedName (con_name row) in
  let parish := trimmedName (fre_name row) in
  if negb (nonEmpty district) || negb (nonEmpty municipality) || negb (nonEmpty parish)
  then None
  else
    let parishId :=
      "parish:" +:+ toLowerCase district +:+ ":" +:+ toLowerCase municipality +:+ ":" +:+
      toLowerCase parish in
    Some (parishId,
      {| opt_id := parishId; opt_label := parish; opt_level := Parish;
         opt_country := "PT"; opt_district := Some district;
         opt_municipality := Some municipality; opt_parish := Some parish;
         opt_lat := geo_lat row; opt_lng := geo_lon row; opt_sample_count := 1 |}).

(** A [for (const row of rows)] loop over one of the three bodies. *)
Definition upsertRows (entry : GeoRow -> Entry) (rows : list GeoRow) :
    JsMap.t AdminAreaOption :=
  fold_left (fun map row => upsertEntry map (entry row)) rows JsMap.empty.

(** [let cached: { at; data } | null] *)
Record CacheEntry := {
  cache_at : Z;
  cache_data : PortugalAdminDataset
}.

(** [NextResponse.json(body)] and [NextResponse.json({ message }, { status })] *)
Inductive NextResponse :=
| JsonDataset (body : PortugalAdminDataset)
| JsonMessage (message : string) (status : Z).

(** [Promise.all] of the three fetches: rejected as soon as one of them is;
    when several are, the message is taken from the first in array order
    (JavaScript takes the one that rejects first in time). *)
Definition promiseAll3 {A} (a b c : Outcome A) : Outcome (A * A * A) :=
  match a, b, c with
  | Thrown m, _, _ => Thrown m
  | _, Thrown m, _ => Thrown m
  | _, _, Thrown m => Thrown m
  | Returned x, Returned y, Returned z => Returned (x, y, z)
  | _, _, _ => OutOfFuel
  end.

(** [cached && now - cached.at < CACHE_MS] *)
Definition freshEntry (now : Z) (cached : option CacheEntry) : option CacheEntry :=
  match cached with
  | Some entry => if (now - cache_at entry <? CACHE_MS)%Z then Some entry else None
  | None => None
  end.

Section Handler.

Variable localeCompare : string -> string -> Z.

Definition sorter (a b : AdminAreaOption) : Z :=
  localeCompare (opt_label a) (opt_label b).

(** The [try] block of [GET] after the fetches. *)
Definition buildDataset (districtRows municipalitiesRows parishesRows : list GeoRow)
    : PortugalAdminDataset :=
  let districtMap := upsertRows districtEntry districtRows in
  let municipalityMap := upsertRows municipalityEntry municipalitiesRows in
  let parishMap := upsertRows parishEntry parishesRows in
  {| districts := arraySort sorter (JsMap.values districtMap);
     municipalities := arraySort sorter (JsMap.values municipalityMap);
     parishes := arraySort sorter (JsMap.values parishMap) |}.

(** [GET]: the module variable [cached] is threaded through; the result
    is its new value and the response. *)
Definition GET (fuel : nat) (upstream : Upstream) (now : Z)
    (cached : option CacheEntry) : option CacheEntry * Outcome NextResponse :=
  match freshEntry now cached with
  | Some entry => (cached, Returned (JsonDataset (cache_data entry)))
  | None =>
      match promiseAll3 (snd (fetchDistricts fuel upstream))
                        (snd (fetchMunicipalities fuel upstream))
                        (snd (fetchParishes fuel upstream)) with
      | Returned (districtRows, municipalitiesRows, parishesRows) =>
          let response := buildDataset districtRows municipalitiesRows parishesRows in
          (Some {| cache_at := now; cache_data := response |},
           Returned (JsonDataset response))
      | Thrown message => (cached, Returned (JsonMessage message 502))
      | OutOfFuel => (cached, OutOfFuel)
      end
  end.

End Handler.

End Route.

(** ** api.ts: the client-side index cache *)

(** [listPortugalAdminDataset], given the answer of [GET /api/pt-admin].
    The handler sends a message only with status 502, for which
    [response.ok] is false. *)
Definition listPortugalAdminDataset (response : Route.NextResponse) :
    Outcome PortugalAdminDataset :=
  match response with
  | Route.JsonDataset body => Returned body
  | Route.JsonMessage _ _ => Thrown "Failed to load Portugal administrative database."
  end.

(** [getPortugalAdminIndex], with the request served by [Route.GET].  The
    state is the handler's [cached] and the module variable
    [cachedPortugalAdminIndex]. *)
Definition getPortugalAdminIndex (localeCompare : string -> string -> Z) (fuel : nat)
    (upstream : Route.Upstream) (now : Z)
    (cached : option Route.CacheEntry) (cachedPortugalAdminIndex : option PortugalAdminIndex)
    : (option Route.CacheEntry * option PortugalAdminIndex) * Outcome PortugalAdminIndex :=
  match cachedPortugalAdminIndex with
  | Some index => ((cached, cachedPortugalAdminIndex), Returned index)
  | None =>
      let '(cached', answer) := Route.GET localeCompare fuel upstream now cached in
      match answer with
      | Returned response =>
          match listPortugalAdminDataset response with
          | Returned dataset =>
              let index := buildPortugalAdminIndex dataset in
              ((cached', Some index), Returned index)
          | Thrown message => ((cached', None), Thrown message)
          | OutOfFuel => ((cached', None), OutOfFuel)
          end
      | Thrown message => ((cached', None), Thrown message)
      | OutOfFuel => ((cached', None), OutOfFuel)
      end
  end.

(** ** api.ts: admin selections *)

(** [AdminSelection]: [country], and the optional names. *)
Record AdminSelection := {
  sel_country : string;
  sel_district : option string;
  sel_municipality : option string;
  sel_parish : option string
}.

(** [x || fallback] for a string [x] *)
Definition orElse (x fallback : string) : string := if nonEmpty x then x else fallback.

(** [x || ""] for [string | undefined] *)
Definition orEmpty (x : option string) : string :=
  match x with Some s => s | None => EmptyString end.

(** [...(x ? { field: x } : {})]: the field is set when [x] is truthy. *)
Definition whenTruthy (x : option string) : option string :=
  match x with
  | Some s => if nonEmpty s then Some s else None
  | None => None
  end.

(** [parts.join(separator)] *)
Fixpoint join (separator : string) (parts : list string) : string :=
  match parts with
  | [] => EmptyString
  | part :: rest =>
      match rest with
      | [] => part
      | _ :: _ => part +:+ separator +:+ join separator rest
      end
  end.

(** The key of [dedupeAdminSelections]. *)
Definition selectionKey (item : AdminSelection) : string :=
  join "|"
    [ toUpperCase (orElse (sel_country item) "PT");
      toLowerCase (orEmpty (sel_district item));
      toLowerCase (orEmpty (sel_municipality item));
      toLowerCase (orEmpty (sel_parish item)) ].

(** The value that [dedupeAdminSelections] stores for [item]. *)
Definition storedSelection (item : AdminSelection) : AdminSelection :=
  {| sel_country := toUpperCase (orElse (sel_country item) "PT");
     sel_district := whenTruthy (sel_district item);
     sel_municipality := whenTruthy (sel_municipality item);
     sel_parish := whenTruthy (sel_parish item) |}.

(** [dedupeAdminSelections] *)
Definition dedupeAdminSelections (selections : list AdminSelection) : list AdminSelection :=
  let byKey :=
    fold_left
      (fun byKey item => JsMap.set (selectionKey item) (storedSelection item) byKey)
      selections JsMap.empty in
  JsMap.values byKey.

(** A value of type [unknown] that came out of JSON, or is undefined.
    The properties of an object are listed once each. *)
#[warnings="-register-all"] Inductive JsValue :=
| JsUndefined
| JsNull
| JsBoolean (b : bool)
| JsNumberValue (n : JsNumber)
| JsStringValue (s : string)
| JsArray (items : list JsValue)
| JsObject (properties : list (string * JsValue)).

(** [!value] *)
Definition isFalsy (value : JsValue) : bool :=
  match value with
  | JsUndefined | JsNull => true
  | JsBoolean b => negb b
  | JsNumberValue NaN => true
  | JsNumberValue (Finite q) => Qeq_bool q 0
  | JsNumberValue _ => false
  | JsStringValue s => negb (nonEmpty s)
  | JsArray _ | JsObject _ => false
  end.

(** [typeof value === "object"] *)
Definition isObject (value : JsValue) : bool :=
  match value with
  | JsNull | JsArray _ | JsObject _ => true
  | _ => false
  end.

(** [row[name]]; an array has none of the properties read here. *)
Definition property (row : JsValue) (name : string) : JsValue :=
  match row with
  | JsObject properties => default JsUndefined (JsMap.get name properties)
  | _ => JsUndefined
  end.

(** [typeof row[name] === "string" ? row[name] : undefined] *)
Definition stringProperty (row : JsValue) (name : string) : option string :=
  match property row name with
  | JsStringValue s => Some s
  | _ => None
  end.

(** The body of the loop of [normalizeAdminSelections]: the selection
    pushed for [item], or [None] at [continue]. *)
Definition selectionOfItem (item : JsValue) : option AdminSelection :=
  if isFalsy item || negb (isObject item) then None
  else
    let country :=
      match stringProperty item "country" with
      | Some s => toUpperCase (trim s)
      | None => "PT"
      end in
    let district :=
      match stringProperty item "district" with Some s => trim s | None => EmptyString end in
    let municipality :=
      match stringProperty item "municipality" with Some s => trim s | None => EmptyString end in
    let parish :=
      match stringProperty item "parish" with
      | Some s => trim s
      | None =>
          match stringProperty item "freguesia" with
          | Some s => trim s
          | None => EmptyString
          end
      end in
    if negb (nonEmpty district) && negb (nonEmpty municipality) && negb (nonEmpty parish) &&
       negb (String.eqb country "PT")
    then None
    else
      Some {| sel_country := orElse country "PT";
              sel_district := if nonEmpty district then Some district else None;
              sel_municipality := if nonEmpty municipality then Some municipality else None;
              sel_parish := if nonEmpty parish then Some parish else None |}.

(** [normalizeAdminSelections] *)
Definition normalizeAdminSelections (value : JsValue) : list AdminSelection :=
  match value with
  | JsArray items =>
      let out :=
        fold_left
          (fun out item =>
             match selectionOfItem item with
             | Some selection => out ++ [selection]
             | None => out
             end)
          items [] in
      dedupeAdminSelections out
  | _ => []
  end.

(** The level that [getPortugalAdminGeometry] asks for; at [Country] it
    returns a null geometry without a request. *)
Definition selectionLevel (selection : AdminSelection) : AdminLevel :=
  if truthy (sel_parish selection) then Parish
  else if truthy (sel_municipality selection) then Municipality
  else if truthy (sel_district selection) then District
  else Country.

(** The query of the request that [getPortugalAdminGeometry] sends to the
    geometry route: the level and the three names, [??] giving the empty
    string for a missing one; [None] when it returns without a request. *)
Definition geometryRequest (selection : AdminSelection) :
    option (AdminLevel * string * string * string) :=
  match selectionLevel selection with
  | Country => None
  | level =>
      Some (level, orEmpty (sel_district selection), orEmpty (sel_municipality selection),
            orEmpty (sel_parish selection))
  end.

(** ** api.ts: parishes and sources *)

(** [new Set()] in insertion order: [set.add(x)]. *)
Definition setAdd (x : string) (set : list string) : list string :=
  if existsb (String.eqb x) set then set else set ++ [x].

(** [location.split(",")[0]] *)
Fixpoint beforeComma (l : list ascii) : list ascii :=
  match l with
  | [] => []
  | c :: r => if (Chars.code c =? 44)%N then [] else c :: beforeComma r
  end.

(** The body of the loop of [listPortugalParishes]: the parish added for
    [row], or [None]. *)
Definition parishOfRow (row : ListingRow) : option string :=
  let location := orEmpty (row_location_text row) in
  if negb (nonEmpty (trim location)) then None
  else
    let parish := ofUnits (trimUnits (beforeComma (units location))) in
    if nonEmpty parish then Some parish else None.

(** [listPortugalParishes], given the answer to its query. *)
Definition listPortugalParishes (localeCompare : string -> string -> Z)
    (answer : QueryResult) : Outcome (list string) :=
  match q_error answer with
  | Some message => Thrown message
  | None =>
      let unique :=
        fold_left
          (fun unique row =>
             match parishOfRow row with
             | Some parish => setAdd parish unique
             | None => unique
             end)
          (default [] (q_data answer)) [] in
      Returned (arraySort localeCompare unique)
  end.

(** [Array.from(new Set(sources.map((x) => x.trim().toLowerCase()).filter(Boolean)))]
    of [getRawListingsForSources]. *)
Definition normalizedSources (sources : list string) : list string :=
  fold_left (fun set x => setAdd x set)
    (List.filter nonEmpty (map (fun x => toLowerCase (trim x)) sources)) [].

(** [getDashboardListingsBySource]: [sourceStore source] answers the range
    queries with the filter [.eq("source", source)]; every row of a page
    is pushed. *)
Definition getDashboardListingsBySource (fuel : nat)
    (sourceStore : string -> ListingStore) (source : string)
    : Outcome (list DashboardListingRow) :=
  scanPages fuel (sourceStore source) (fun _ => true) 1000 0 [].

(** ** pt-admin/geometry/route.ts *)

Module GeometryRoute.

Definition quote : ascii := ascii_of_N 34.
Definition backslash : ascii := ascii_of_N 92.

(** [s.replaceAll(pattern, replacement)] for a pattern of one code unit and
    a replacement without [$]. *)
Definition replaceAll (pattern : ascii) (replacement : list ascii) (l : list ascii) :
    list ascii :=
  concat (map (fun c => if Ascii.eqb c pattern then replacement else [c]) l).

(** [value.replaceAll(backslash, two backslashes).replaceAll(quote, backslash quote)] *)
Definition escaped (value : string) : list ascii :=
  replaceAll quote [backslash; quote]
    (replaceAll backslash [backslash; backslash] (units value)).

(** [buildWhereEquals]: the field, [=], and the escaped value in quotes. *)
Definition buildWhereEquals (field value : string) : string :=
  ofUnits (units field ++ ["="%char; quote] ++ escaped value ++ [quote]).

(** The [whereParts] of [fetchGeometry] for a valid level. *)
Definition whereParts (level : AdminLevel) (district municipality parish : string) :
    list string :=
  let part field value := if nonEmpty value then [buildWhereEquals field value] else [] in
  match level with
  | District => part "dis_name" district
  | Municipality => part "dis_name" district ++ part "con_name" municipality
  | Parish =>
      part "dis_name" district ++ part "con_name" municipality ++ part "fre_name" parish
  | Country => []
  end.

End GeometryRoute.

(** ** Vocabulary of the statements *)

Definition unresolved : ResolvedHierarchy :=
  {| district := None; municipality := None; parish := None |}.

(** The index of the Matosinhos scenario. *)
Definition porto_index : PortugalAdminIndex :=
  {| districtByKey := {[ "porto" := "Porto" ]};
     municipalityByKey :=
       {[ "matosinhos" := {| mun_municipality := "Matosinhos"; mun_district := "Porto" |} ]};
     parishByKey := ∅ |}.

(** The index of the Matosinhos scenario with a second municipality. *)
Definition porto_sintra_index : PortugalAdminIndex :=
  {| districtByKey := {[ "porto" := "Porto" ]};
     municipalityByKey :=
       <[ "sintra" := {| mun_municipality := "Sintra"; mun_district := "Lisboa" |} ]>
       {[ "matosinhos" := {| mun_municipality := "Matosinhos"; mun_district := "Porto" |} ]};
     parishByKey := ∅ |}.

(** [hit] is the first hit in token order: the entry of [m] under the key
    of a candidate before which no candidate has an accepted entry of [m]. *)
Definition firstInTokenOrder {V} (m : gmap string V) (accept : V -> bool)
    (candidates : list string) (hit : V) : Prop :=
  exists before part after,
    candidates = before ++ part :: after /\
    List.Forall (fun earlier =>
                   match m !! normalizeLocationPart earlier with
                   | Some v => accept v = false
                   | None => True
                   end) before /\
    m !! normalizeLocationPart part = Some hit /\
    accept hit = true.

(** An item of the admin dataset. *)
Definition area (level : AdminLevel) (label : string)
    (d m p : option string) : AdminAreaOption :=
  {| opt_id := label; opt_label := label; opt_level := level; opt_country := "PT";
     opt_district := d; opt_municipality := m; opt_parish := p;
     opt_lat := None; opt_lng := None; opt_sample_count := 1 |}.

(** The index of a dataset that has a district called like the street. *)
Definition street_index : PortugalAdminIndex :=
  buildPortugalAdminIndex
    {| districts := [area District "Rua das Flores 12" (Some "Rua das Flores 12") None None];
       municipalities := [];
       parishes := [] |}.

(** No candidate token of [text] is a key of [m]. *)
Definition noKeyMatch {V} (m : gmap string V) (text : option string) : Prop :=
  Forall (fun part => m !! normalizeLocationPart part = None)
         (extractLocationCandidates text).

(** A level is set to a non-empty string, or not at all. *)
Definition nonBlank (level : option string) : Prop :=
  match level with
  | Some s => nonEmpty s = true
  | None => True
  end.

(** Every record of the index has non-empty names at its own level and at
    the levels above. *)
Definition wellFormedIndex (index : PortugalAdminIndex) : Prop :=
  map_Forall (fun _ d => nonEmpty d = true) (districtByKey index) /\
  map_Forall (fun _ r => nonEmpty (mun_municipality r) = true /\
                         nonEmpty (mun_district r) = true)
             (municipalityByKey index) /\
  map_Forall (fun _ r => nonEmpty (rec_parish r) = true /\
                         nonEmpty (rec_municipality r) = true /\
                         nonEmpty (rec_district r) = true)
             (parishByKey index).

(** The levels of a resolved hierarchy are set from the top down, and never
    to the empty string. *)
Definition consistentHierarchy (r : ResolvedHierarchy) : Prop :=
  (is_Some (parish r) -> is_Some (municipality r) /\ is_Some (district r)) /\
  (is_Some (municipality r) -> is_Some (district r)) /\
  nonBlank (district r) /\ nonBlank (municipality r) /\ nonBlank (parish r).

(** A dataset with a parish whose labels carry stray white space, a
    municipality without a district, and a blank district. *)
Definition sample_dataset : PortugalAdminDataset :=
  {| districts := [area District "Lisboa" (Some "Lisboa") None None;
                   area District "  " None None None];
     municipalities := [area Municipality "Sintra" (Some "Lisboa") (Some "Sintra") None;
                        area Municipality "Cascais" None (Some "Cascais") None];
     parishes := [area Parish " Alvalade " (Some "Lisboa") (Some "Lisboa") (Some "Alvalade")] |}.

(** The sum of the [total_count]s of a list of buckets. *)
Definition sumTotals (buckets : list BreakdownRow) : Z :=
  fold_right (fun b acc => total_count b + acc) 0 buckets.

(** [buy_count + rent_count = total_count] *)
Definition balanced (b : BreakdownRow) : Prop :=
  buy_count b + rent_count b = total_count b.

(** The sum of the [total_count]s of the buckets whose group key
    satisfies [p]. *)
Definition groupTotal (p : string -> bool) (buckets : list BreakdownRow) : Z :=
  sumTotals (List.filter (fun b => p (group_key b)) buckets).

(** The [total_count] recorded under [label]: the sum over the buckets of
    that group key (there is at most one). *)
Definition bucketTotal (label : string) (buckets : list BreakdownRow) : Z :=
  groupTotal (fun k => String.eqb k label) buckets.

(** The group key of a row at a region level: the resolved name, or
    ["Unknown"] when the level did not resolve. *)
Definition regionKey (adminIndex : PortugalAdminIndex) (level : DashboardRegionLevel)
    (row : ListingRow) : string :=
  orUnknown (levelLabel level (resolveAdminHierarchy (row_location_text row) adminIndex)).

(** The number of rows whose [key] satisfies [p]. *)
Definition countWhere (key : ListingRow -> string) (p : string -> bool)
    (rows : list ListingRow) : Z :=
  Z.of_nat (length (List.filter (fun row => p (key row)) rows)).

(** The number of rows that [key] maps to [label]. *)
Definition countKey (key : ListingRow -> string) (label : string)
    (rows : list ListingRow) : Z :=
  countWhere key (fun k => String.eqb k label) rows.

(** The region buckets of a result at one level. *)
Definition regionsAt (level : DashboardRegionLevel) (m : ImportDashboardMetrics) :
    list BreakdownRow :=
  match level with
  | LevelDistrict => regions_district m
  | LevelMunicipality => regions_municipality m
  | LevelParish => regions_parish m
  end.

(** The requests for the pages [first], [first + 1], ... ([count] of them)
    of size [pageSize]. *)
Definition pageRequests (pageSize : Z) (first : Z) (count : nat) : list (Z * Z) :=
  map (fun i => ((first + Z.of_nat i) * pageSize,
                 (first + Z.of_nat i) * pageSize + pageSize - 1))
      (seq 0 count).

(** [ceil(n / p)] for positive [p] *)
Definition ceilDiv (n p : Z) : Z := (n + p - 1) / p.

(** Code-unit order, a collation to run the examples with. *)
Definition codeUnitCompare (a b : string) : Z :=
  match String.compare a b with
  | Lt => -1
  | Eq => 0
  | Gt => 1
  end.

Definition listing (id : string) (type : string) (title : string) (location : string)
    (bedrooms : option JsNumber) : ListingRow :=
  {| row_id := id; row_source := "src"; row_title := Some title;
     row_listing_type := Some type; row_price_eur := None; row_url := None;
     row_location_text := Some location; row_bedrooms := bedrooms;
     row_last_seen_at := None |}.

(** Three listings: one in Matosinhos, one in Porto, one that resolves to
    nothing. *)
Definition sample_rows : list ListingRow :=
  [ listing "1" "buy" "T2 com vista" "Matosinhos, Porto" None;
    listing "2" "rent" "Nice flat" "Porto" (Some (Finite (Q2Qc 2)));
    listing "3" "buy" "Moradia" "Rua das Flores 12" None ].

(** Every bucket is stored under its own group key. *)
Definition keyed (m : JsMap.t BreakdownRow) : Prop :=
  Forall (fun entry => group_key (snd entry) = fst entry) m.

(** The buckets of [m] account for [rows] under the grouping [key]: one
    unit of [total_count] per row, recorded under the row's key. *)
Definition mapAccounts (key : ListingRow -> string) (rows : list ListingRow)
    (m : JsMap.t BreakdownRow) : Prop :=
  keyed m /\
  Forall balanced (JsMap.values m) /\
  sumTotals (JsMap.values m) = Z.of_nat (length rows) /\
  forall p, groupTotal p (JsMap.values m) = countWhere key p rows.

(** The accumulators of the aggregation account for [rows]. *)
Definition accounted (adminIndex : PortugalAdminIndex) (rows : list ListingRow)
    (st : AggState) : Prop :=
  totalBuy st + totalRent st = Z.of_nat (length rows) /\
  mapAccounts (regionKey adminIndex LevelDistrict) rows (districtMap st) /\
  mapAccounts (regionKey adminIndex LevelMunicipality) rows (municipalityMap st) /\
  mapAccounts (regionKey adminIndex LevelParish) rows (parishMap st) /\
  mapAccounts rowTypology rows (typologyMap st).

(** The number of rows whose region did not resolve at [level]. *)
Definition countUnresolved (adminIndex : PortugalAdminIndex) (level : DashboardRegionLevel)
    (rows : list ListingRow) : Z :=
  Z.of_nat (length (List.filter
    (fun row =>
       match levelLabel level (resolveAdminHierarchy (row_location_text row) adminIndex) with
       | None => true
       | Some _ => false
       end) rows)).

Section Orders.

Variable localeCompare : string -> string -> Z.

(** [a] may stand before [b] among region buckets: a larger count, or the
    same count and a name that does not collate after [b]'s. *)
Definition regionOrder (a b : BreakdownRow) : Prop :=
  total_count b < total_count a \/
  (total_count a = total_count b /\ localeCompare (group_key a) (group_key b) <= 0).

(** [a] may stand before [b] among typology buckets: ["Unknown"] goes
    after everything, the others are ordered like region buckets. *)
Definition typologyOrder (a b : BreakdownRow) : Prop :=
  group_key b = "Unknown" \/
  (group_key a <> "Unknown" /\ group_key b <> "Unknown" /\ regionOrder a b).

End Orders.

(** No bucket stands after an ["Unknown"] bucket. *)
Definition unknownLast (buckets : list BreakdownRow) : Prop :=
  forall before b after,
    buckets = before ++ b :: after -> group_key b = "Unknown" -> after = [].

(** The invariant of a typology or region map: buckets stored under their
    own key, each key once. *)
Definition wellKeyed (m : JsMap.t BreakdownRow) : Prop :=
  keyed m /\ List.NoDup (JsMap.keys m).

(** Two T1 listings, one T2 and three without typology, the T1 ones
    arriving last. *)
Definition typology_rows : list ListingRow :=
  [ listing "1" "buy" "Moradia" "Porto" None;
    listing "2" "buy" "Terreno" "Porto" None;
    listing "3" "rent" "T2 renovado" "Porto" None;
    listing "4" "buy" "Loja" "Matosinhos" None;
    listing "5" "rent" "T1 centro" "Matosinhos" None;
    listing "6" "buy" "T1 novo" "Matosinhos" None ].

(** Some page requested at one of [offsets] was answered with a
    non-success status. *)
Definition pageFailed (upstream : Route.Upstream) (dataset : string) (offsets : list Z) : Prop :=
  Exists (fun offset => Route.resp_ok (upstream dataset offset) = false) offsets.

Definition geoRow (dis : string) (lat lon : option float) : Route.GeoRow :=
  {| Route.fre_name := None; Route.con_name := None; Route.dis_name := Some dis;
     Route.geo_lat := lat; Route.geo_lon := lon |}.

(** An upstream whose district dataset answers the first page in full and
    the second with status 503; the other datasets are empty. *)
Definition flaky_upstream : Route.Upstream :=
  fun dataset offset =>
    if String.eqb dataset "georef-portugal-distrito" then
      if offset =? 0
      then {| Route.resp_ok := true; Route.resp_status := 200;
              Route.resp_json :=
                {| Route.payload_total_count := Some 150;
                   Route.payload_results := Some (repeat (geoRow "Porto" None None) 100) |} |}
      else {| Route.resp_ok := false; Route.resp_status := 503;
              Route.resp_json := {| Route.payload_total_count := None;
                                    Route.payload_results := None |} |}
    else {| Route.resp_ok := true; Route.resp_status := 200;
            Route.resp_json := {| Route.payload_total_count := Some 0;
                                  Route.payload_results := Some [] |} |}.

(** A cache entry written at time 0. *)
Definition old_entry : Route.CacheEntry :=
  {| Route.cache_at := 0;
     Route.cache_data := {| districts := []; municipalities := []; parishes := [] |} |}.







(** The rows that [entry] upserts under [key], in arrival order. *)
Definition rowsAt (entry : Route.GeoRow -> Route.Entry) (key : string)
    (rows : list Route.GeoRow) : list Route.GeoRow :=
  List.filter
    (fun row => match entry row with
                | Some (k, _) => String.eqb k key
                | None => false
                end) rows.










(** An entry takes its coordinates from the row and starts with one sample. *)
Definition entryFromRow (entry : Route.GeoRow -> Route.Entry) : Prop :=
  forall row key item,
    entry row = Some (key, item) ->
    opt_lat item = Route.geo_lat row /\
    opt_lng item = Route.geo_lon row /\
    opt_sample_count item = 1.

(** ** The typology pattern, declaratively *)

Module TypologyPattern.
Import Chars TypologyRegex.

(** [\s*] *)
Definition spaces (l : list ascii) : Prop := Forall (fun c => isSpace c = true) l.

(** [[0-9]{1,2}] *)
Definition digitRun (l : list ascii) : Prop :=
  Forall (fun c => isDigit c = true) l /\ (1 <= length l <= 2)%nat.

(** The pattern [\b[tT]\s*([0-9]{1,2})(?:\s*\+\s*([0-9]{1,2}))?\b] matches a
    prefix of [l], the character before [l] being [prev]; [base] and [extra]
    are the two groups and [after] is what follows the match. *)
Definition MatchHere (prev : option ascii) (l : list ascii)
    (base : list ascii) (extra : option (list ascii)) (after : list ascii) : Prop :=
  exists t ws1,
    isTee t = true /\ spaces ws1 /\ digitRun base /\
    wordBoundary prev (Some t) = true /\
    match extra with
    | None =>
        l = t :: ws1 ++ base ++ after /\ boundaryAfter base after = true
    | Some e =>
        exists ws2 ws3,
          spaces ws2 /\ spaces ws3 /\ digitRun e /\
          l = t :: ws1 ++ base ++ ws2 ++ "+"%char :: ws3 ++ e ++ after /\
          boundaryAfter e after = true
    end.

(** The match the engine reports for [title]: at the leftmost position where
    the pattern matches, with the optional group when it can take part. *)
Definition FirstMatch (title : string) (base : list ascii) (extra : option (list ascii)) : Prop :=
  exists before rest after,
    units title = before ++ rest /\
    MatchHere (last before) rest base extra after /\
    (forall before' rest' base' extra' after',
       units title = before' ++ rest' ->
       MatchHere (last before') rest' base' extra' after' ->
       (length before <= length before')%nat) /\
    (extra = None ->
     forall base' extra' after', ~ MatchHere (last before) rest base' (Some extra') after').

(** The pattern matches nowhere in [title]. *)
Definition NoMatch (title : string) : Prop :=
  forall before rest base extra after,
    units title = before ++ rest -> ~ MatchHere (last before) rest base extra after.

End TypologyPattern.

(** ** The typology token in the words of the specification *)

(** "T" or "t" followed by 1-2 digits, optionally followed by "+" and 1-2
    more digits, anywhere in the title. *)
Definition SpecToken (title : string) (base : list ascii) (extra : option (list ascii)) : Prop :=
  exists before after t,
    Chars.isTee t = true /\
    TypologyPattern.digitRun base /\
    match extra with
    | None => units title = before ++ t :: base ++ after
    | Some e =>
        TypologyPattern.digitRun e /\
        units title = before ++ t :: base ++ "+"%char :: e ++ after
    end.

(** The inference rule as the specification words it. *)
Definition inferAsSpecified (bedrooms : option JsNumber) (title : string) : Prop :=
  ((exists base extra, SpecToken title base extra) ->
   exists base extra,
     SpecToken title base extra /\
     inferTypologyLabel bedrooms (Some title) = typologyOfCaptures (base, extra)) /\
  (~ (exists base extra, SpecToken title base extra) ->
   match bedrooms with
   | Some (Finite q) =>
       if finiteNonNegative (Finite q)
       then inferTypologyLabel bedrooms (Some title) = "T" +:+ integerToString (mathRound q)
       else inferTypologyLabel bedrooms (Some title) = "Unknown"
   | _ => inferTypologyLabel bedrooms (Some title) = "Unknown"
   end).

(** Some [t] or [T] is directly followed by a digit. *)
Fixpoint teeThenDigit (l : list ascii) : bool :=
  match l with
  | c :: r =>
      (Chars.isTee c && match r with d :: _ => Chars.isDigit d | [] => false end)
      || teeThenDigit r
  | [] => false
  end.

(** A code unit that upper-casing and trimming leave alone. *)
Definition plainUnit (c : ascii) : Prop :=
  Chars.isSpace c = false /\ upperUnit c = [c].

(** The shape of a typology label: ["Unknown"], or "T" followed by code
    units that upper-casing and trimming leave alone. *)
Definition typologyShape (label : string) : Prop :=
  label = "Unknown" \/
  exists rest, units label = "T"%char :: rest /\ Forall plainUnit rest.

(** The index of a dataset in which the district of Lisbon is spelled in
    capitals on a parish record and in mixed case on a municipality record. *)
Definition lisboa_index : PortugalAdminIndex :=
  buildPortugalAdminIndex
    {| districts := [];
       municipalities := [area Municipality "Sintra" (Some "Lisboa") (Some "Sintra") None];
       parishes := [area Parish "Alvalade" (Some "LISBOA") (Some "Lisboa") (Some "Alvalade")] |}.

Definition lisboa_rows : list ListingRow :=
  [ listing "1" "buy" "T2" "Alvalade" None;
    listing "2" "rent" "T1" "Sintra" None ].

(** The ids of the rows a drill-down returned. *)
Definition returnedIds (outcome : Outcome (list DashboardListingRow)) : option (list string) :=
  match outcome with
  | Returned out => Some (map d_id out)
  | _ => None
  end.

(** The count of the bucket [label] at [level] in a returned result. *)
Definition returnedBucketTotal (level : DashboardRegionLevel) (label : string)
    (outcome : Outcome ImportDashboardMetrics) : option Z :=
  match outcome with
  | Returned m => Some (bucketTotal label (regionsAt level m))
  | _ => None
  end.

(** The rows of a region drill-down: those whose resolved label at [level],
    null rendered as ["Unknown"], normalises to the normalised query. *)
Definition rowsOfRegion (adminIndex : PortugalAdminIndex) (level : DashboardRegionLevel)
    (regionLabel : string) (rows : list ListingRow) : list DashboardListingRow :=
  map normalizeDashboardRow
    (List.filter
       (fun row =>
          String.eqb (normalizeLocationPart (regionKey adminIndex level row))
                     (normalizeLocationPart
                        (if nonEmpty regionLabel then regionLabel else "Unknown")))
       rows).

(** The rows of one bucket: those whose group key is [label]. *)
Definition rowsOfBucket (key : ListingRow -> string) (label : string)
    (rows : list ListingRow) : list DashboardListingRow :=
  map normalizeDashboardRow (List.filter (fun row => String.eqb (key row) label) rows).

(** ** Vocabulary of the further properties *)

(** A store that answers the queries that start before row [limit] like a
    stable store and every later one with the error [message]. *)
Definition failingFrom (rows : list ListingRow) (limit : Z) (message : string) :
    ListingStore :=
  let answer from to :=
    if (from <? limit)%Z
    then {| q_data := Some (slice rows from to); q_error := None |}
    else {| q_data := None; q_error := Some message |} in
  {| rangeById := answer; rangeByLastSeen := answer |}.

(** The answer of the store to a logged request. *)
Definition answerTo (store : ListingStore) (request : Z * Z) : QueryResult :=
  rangeById store (fst request) (snd request).

(** A public dataset service that holds [rows], serves them [LIMIT] at a
    time from the requested offset and reports [total] as [total_count]. *)
Definition pagedUpstream (rows : list Route.GeoRow) (total : option Z) : Route.Upstream :=
  fun _ offset =>
    {| Route.resp_ok := true; Route.resp_status := 200;
       Route.resp_json :=
         {| Route.payload_total_count := total;
            Route.payload_results :=
              Some (take (Z.to_nat Route.LIMIT) (drop (Z.to_nat offset) rows)) |} |}.

(** The number of pages read from a service that holds [count] rows and
    reports [total]: up to the first short page, or up to the page at which
    the offset reaches the reported total, whichever comes first. *)
Definition pagesRead (count : Z) (total : option Z) : Z :=
  let untilShort := count / Route.LIMIT + 1 in
  match total with
  | Some t => Z.min untilShort (Z.max 1 (ceilDiv t Route.LIMIT))
  | None => untilShort
  end.

(** The first offset, after a page, at which a reported total of [total]
    counts as reached: the next multiple of [LIMIT], and [LIMIT] at least. *)
Definition reachedAt (total : Z) : Z :=
  Route.LIMIT * Z.max 1 (ceilDiv total Route.LIMIT).

(** The offsets of the pages [first], [first + 1], ... ([count] of them). *)
Definition pageOffsets (first : Z) (count : nat) : list Z :=
  map (fun i => Route.LIMIT * (first + Z.of_nat i)) (seq 0 count).

(** What [normalizeLocationPart] makes of one code unit before the white
    space is treated: the base letter of its decomposition, in lower case. *)
Definition foldedUnit (c : ascii) : ascii :=
  hd c (map lowerUnit (map ascii_of_N (stripCombining (nfdUnit c)))).

(** White space that is single blanks only, none next to another. *)
Fixpoint tidy (l : list ascii) : bool :=
  match l with
  | [] => true
  | c :: r =>
      (if Chars.isSpace c
       then (Chars.code c =? 32)%N &&
            match r with d :: _ => negb (Chars.isSpace d) | [] => true end
       else true) && tidy r
  end.

(** The list without the white space at its end. *)
Fixpoint dropTrailingSpaces (l : list ascii) : list ascii :=
  match l with
  | [] => []
  | c :: r =>
      match dropTrailingSpaces r with
      | [] => if Chars.isSpace c then [] else [c]
      | r' => c :: r'
      end
  end.

(** A public dataset service that answers every request with status 503. *)
Definition downUpstream : Route.Upstream :=
  fun _ _ =>
    {| Route.resp_ok := false; Route.resp_status := 503;
       Route.resp_json := {| Route.payload_total_count := None;
                             Route.payload_results := None |} |}.


(** No unit of [s] is one of the delimiters [, - | / ; ( )]. *)
Definition delimiterFree (s : string) : Prop :=
  List.Forall (fun c => Chars.isDelimiter c = false) (units s).




(** [x?.trim()] is a non-empty string. *)
Definition named (x : option string) : Prop := is_Some (trimmedNonEmpty x).

(** The hierarchy that a parish record stands for. *)
Definition hierarchyOfParish (hit : AdminNameRecord) : ResolvedHierarchy :=
  {| district := Some (rec_district hit);
     municipality := Some (rec_municipality hit);
     parish := Some (rec_parish hit) |}.

(** An index in which the key of a parish is also the key of another
    municipality and of a district. *)
Definition santa_maria_index : PortugalAdminIndex :=
  buildPortugalAdminIndex
    {| districts := [area District "Santa Maria" (Some "Santa Maria") None None];
       municipalities := [area Municipality "Santa Maria" (Some "Acores")
                            (Some "Santa Maria") None];
       parishes := [area Parish "Santa Maria" (Some "Faro") (Some "Tavira")
                      (Some "Santa Maria")] |}.

(** [k] when [x?.trim()] is a non-empty string. *)
Definition whenNamed {K} (x : option string) (k : option K) : option K :=
  match trimmedNonEmpty x with Some _ => k | None => None end.

(** The fields of an area that [upsertAreaOption] never rewrites. *)
Definition names (item : AdminAreaOption) :
    string * string * AdminLevel * string * option string * option string * option string :=
  (opt_id item, opt_label item, opt_level item, opt_country item,
   opt_district item, opt_municipality item, opt_parish item).

(** The sum of the [sample_count]s. *)
Definition sumSamples (items : list AdminAreaOption) : Z :=
  fold_right (fun item acc => opt_sample_count item + acc) 0 items.

(** The rows that the loop over [entry] does not skip. *)
Definition kept (entry : Route.GeoRow -> Route.Entry) (rows : list Route.GeoRow) :
    list Route.GeoRow :=
  List.filter (fun row => match entry row with Some _ => true | None => false end) rows.

(** An entry is upserted under the id of its item. *)
Definition entryUnderId (entry : Route.GeoRow -> Route.Entry) : Prop :=
  forall row key item, entry row = Some (key, item) -> opt_id item = key.

(** [a] may stand before [b] in a list sorted by [sorter]. *)
Definition labelOrder (localeCompare : string -> string -> Z) (a b : AdminAreaOption) : Prop :=
  localeCompare (opt_label a) (opt_label b) <= 0.

(** District rows: Porto in two spellings, a blank name, Braga. *)
Definition district_rows : list Route.GeoRow :=
  [ geoRow "PORTO" None None; geoRow " Porto" None None; geoRow "  " None None;
    geoRow "Braga" None None ].

(** Under every key: the first row that arrived there names the area. *)
Definition firstNames (entry : Route.GeoRow -> Route.Entry) (rows : list Route.GeoRow)
    (map : JsMap.t AdminAreaOption) : Prop :=
  forall key,
    match rowsAt entry key rows with
    | [] => JsMap.get key map = None
    | first :: _ =>
        exists item item0,
          JsMap.get key map = Some item /\
          entry first = Some (key, item0) /\
          names item = names item0
    end.

(** Keys once, every area under its id. *)
Definition underIds (map : JsMap.t AdminAreaOption) : Prop :=
  List.NoDup (JsMap.keys map) /\
  List.Forall (fun e => opt_id (snd e) = fst e) map.

(** Two municipalities called Lagoa, of Faro and of the Azores. *)
Definition lagoa_dataset : PortugalAdminDataset :=
  {| districts := [];
     municipalities := [area Municipality "Lagoa" (Some "Faro") (Some "Lagoa") None;
                        area Municipality "Lagoa" (Some "Acores") (Some "Lagoa") None];
     parishes := [] |}.

(** Reading a quoted literal after its opening quote: a backslash takes the
    next unit as it is, a quote ends the literal.  The result is the
    content and the units after the closing quote. *)
Fixpoint readLiteral (l : list ascii) : option (list ascii * list ascii) :=
  match l with
  | [] => None
  | c :: r =>
      if Ascii.eqb c GeometryRoute.quote then Some ([], r)
      else if Ascii.eqb c GeometryRoute.backslash then
        match r with
        | d :: r' =>
            match readLiteral r' with
            | Some (content, rest) => Some (d :: content, rest)
            | None => None
            end
        | [] => None
        end
      else
        match readLiteral r with
        | Some (content, rest) => Some (c :: content, rest)
        | None => None
        end
  end.

(** What [dedupeAdminSelections] keeps in [byKey]: each key once, every
    selection under its own key and in its stored form. *)
Definition storedUnderKeys (byKey : JsMap.t AdminSelection) : Prop :=
  List.NoDup (JsMap.keys byKey) /\
  List.Forall (fun e => selectionKey (snd e) = fst e /\ storedSelection (snd e) = snd e) byKey.

(** [kept] is the stored form of the last of [selections] that has its key. *)
Definition lastOfItsKey (selections : list AdminSelection) (kept : AdminSelection) : Prop :=
  exists before item after,
    selections = before ++ item :: after /\
    kept = storedSelection item /\
    List.Forall (fun later => selectionKey later <> selectionKey item) after.

(** [byKey] after the loop of [dedupeAdminSelections] over [done]. *)
Definition lastWins (done : list AdminSelection) (byKey : JsMap.t AdminSelection) : Prop :=
  forall key,
    match JsMap.get key byKey with
    | None => List.Forall (fun item => selectionKey item <> key) done
    | Some kept => lastOfItsKey done kept /\ selectionKey kept = key
    end.

(** An optional name that, when set, is non-empty and trimmed. *)
Definition tidyName (name : option string) : Prop :=
  match name with
  | Some n => nonEmpty n = true /\ trim n = n
  | None => True
  end.

(** A selection as [normalizeAdminSelections] returns it: an upper-case,
    trimmed, non-empty country; names that are trimmed and non-empty when
    set; and a name at some level unless the country is Portugal. *)
Definition normalSelection (selection : AdminSelection) : Prop :=
  nonEmpty (sel_country selection) = true /\
  toUpperCase (sel_country selection) = sel_country selection /\
  trim (sel_country selection) = sel_country selection /\
  tidyName (sel_district selection) /\
  tidyName (sel_municipality selection) /\
  tidyName (sel_parish selection) /\
  (sel_district selection = None -> sel_municipality selection = None ->
   sel_parish selection = None -> sel_country selection = "PT").

(** The JSON form of a selection: the fields that are set. *)
Definition encodeSelection (selection : AdminSelection) : JsValue :=
  let field name value :=
    match value with
    | Some s => [(name, JsStringValue s)]
    | None => []
    end in
  JsObject
    ([("country", JsStringValue (sel_country selection))] ++
     field "district" (sel_district selection) ++
     field "municipality" (sel_municipality selection) ++
     field "parish" (sel_parish selection)).

(** The loop of [normalizeAdminSelections] before the deduplication. *)
Definition pushedSelections (items : list JsValue) : list AdminSelection :=
  fold_left
    (fun out item =>
       match selectionOfItem item with
       | Some selection => out ++ [selection]
       | None => out
       end)
    items [].

(** No unit of [s] is a comma. *)
Definition commaFree (s : string) : Prop :=
  List.Forall (fun c => (Chars.code c =? 44)%N = false) (units s).

(** The test of the filter [.eq("source", source)]. *)
Definition ofSource (source : string) (row : ListingRow) : bool :=
  String.eqb (row_source row) source.

(** The stores behind [.eq("source", source)] over a fixed set of rows. *)
Definition stableSourceStore (byId byLastSeen : list ListingRow) : string -> ListingStore :=
  fun source =>
    stableStore (List.filter (ofSource source) byId) (List.filter (ofSource source) byLastSeen).

(** The condition on the name of the level itself. *)
Definition ownCondition (level : AdminLevel) (district municipality parish : string) : string :=
  match level with
  | Parish => GeometryRoute.buildWhereEquals "fre_name" parish
  | Municipality => GeometryRoute.buildWhereEquals "con_name" municipality
  | _ => GeometryRoute.buildWhereEquals "dis_name" district
  end.

(** [row.listing_type === "rent"] *)
Definition rentRow (row : ListingRow) : bool :=
  match row_listing_type row with
  | Some s => String.eqb s "rent"
  | None => false
  end.

(** The number of rows that satisfy [p]. *)
Definition countRows (p : ListingRow -> bool) (rows : list ListingRow) : Z :=
  Z.of_nat (length (List.filter p rows)).

(** The bucket [b] counts, among the rows that [key] maps to its group
    key, those of type rent as rent and all the others as buy. *)
Definition splitsRows (key : ListingRow -> string) (rows : list ListingRow)
    (b : BreakdownRow) : Prop :=
  rent_count b =
    countRows (fun row => String.eqb (key row) (group_key b) && rentRow row) rows /\
  buy_count b =
    countRows (fun row => String.eqb (key row) (group_key b) && negb (rentRow row)) rows.

(** The invariant of a bucket map for the split by listing type. *)
Definition splitMap (key : ListingRow -> string) (rows : list ListingRow)
    (m : JsMap.t BreakdownRow) : Prop :=
  List.NoDup (JsMap.keys m) /\
  List.Forall (fun e => group_key (snd e) = fst e /\ splitsRows key rows (snd e)) m /\
  forall p, JsMap.get p m = None -> List.Forall (fun row => key row <> p) rows.

(** The invariant of the aggregation state for the split by listing type. *)
Definition splitState (adminIndex : PortugalAdminIndex) (rows : list ListingRow)
    (st : AggState) : Prop :=
  totalRent st = countRows rentRow rows /\
  totalBuy st = countRows (fun row => negb (rentRow row)) rows /\
  splitMap (regionKey adminIndex LevelDistrict) rows (districtMap st) /\
  splitMap (regionKey adminIndex LevelMunicipality) rows (municipalityMap st) /\
  splitMap (regionKey adminIndex LevelParish) rows (parishMap st) /\
  splitMap rowTypology rows (typologyMap st).

(** Every unit of [s] is an ASCII character, below U+0080. *)
Definition asciiOnly (s : string) : Prop :=
  List.Forall (fun c => (Chars.code c <? 128)%N = true) (units s).

(** Listings of type rent, buy, sale and of no type. *)
Definition typed_rows : list ListingRow :=
  [ listing "1" "rent" "T1" "Porto" None;
    listing "2" "buy" "T1" "Porto" None;
    listing "3" "sale" "T1" "Porto" None;
    {| row_id := "4"; row_source := "src"; row_title := Some "T1";
       row_listing_type := None; row_price_eur := None; row_url := None;
       row_location_text := Some "Porto"; row_bedrooms := None;
       row_last_seen_at := None |} ].

(** * Verification *)

(** ** The embedding on the examples of the specification *)

Example normalize_case_and_space :
  normalizeLocationPart "Lisboa " = "lisboa" /\
  normalizeLocationPart "lisboa" = "lisboa" /\
  normalizeLocationPart "Lisboa" = "lisboa" /\
  normalizeLocationPart "  Vila   Nova de  Gaia" = "vila nova de gaia".
Proof. vm_compute. auto. Qed.

(** U+00C9 is the capital E with acute accent, U+00E3 the a with tilde. *)
Example normalize_diacritics :
  normalizeLocationPart (String (ascii_of_N 201) "vora") = normalizeLocationPart "evora" /\
  normalizeLocationPart ("S" +:+ String (ascii_of_N 227) "o Jo" +:+ String (ascii_of_N 227) "o")
    = "sao joao".
Proof. vm_compute. auto. Qed.

Example candidates_split :
  extractLocationCandidates (Some " (Matosinhos) - Porto; ") = ["Matosinhos"; "Porto"] /\
  extractLocationCandidates (Some "Rua A, 3/4 | Lisboa") = ["Rua A"; "3"; "4"; "Lisboa"] /\
  extractLocationCandidates None = [].
Proof. vm_compute. auto. Qed.

Example resolve_parish_first :
  resolveAdminHierarchy (Some "Alvalade, Lisboa") lisboa_index =
  {| district := Some "LISBOA"; municipality := Some "Lisboa"; parish := Some "Alvalade" |}.
Proof. vm_compute. reflexivity. Qed.

Example infer_examples :
  inferTypologyLabel None (Some "Apartamento t2+1 no centro") = "T2+1" /\
  inferTypologyLabel None (Some "T123, T3+123 e T2a") = "T3" /\
  inferTypologyLabel None (Some "apartment3") = "Unknown" /\
  inferTypologyLabel (Some (Finite (Q2Qc (5 # 2)))) None = "T3" /\
  inferTypologyLabel (Some (Finite (Q2Qc (-1)))) (Some "Loja") = "Unknown" /\
  inferTypologyLabel (Some NaN) None = "Unknown".
Proof. vm_compute. repeat split; reflexivity. Qed.

(** ** The resolver *)

Section FirstHit.
Context {V : Type} (get : string -> option V) (accept : V -> bool).

Lemma firstHit_Some candidates hit :
  firstHit get accept candidates = Some hit ->
  exists part, In part candidates /\
               get (normalizeLocationPart part) = Some hit /\ accept hit = true.
Proof.
  induction candidates as [|part rest IH]; simpl; [discriminate|].
  destruct (get (normalizeLocationPart part)) as [v|] eqn:Hget.
  - destruct (accept v) eqn:Hacc.
    + intros [= <-]. exists part. auto.
    + intros H. destruct (IH H) as (p & Hin & Hp). exists p. auto.
  - intros H. destruct (IH H) as (p & Hin & Hp). exists p. auto.
Qed.

Lemma firstHit_no_key candidates :
  Forall (fun part => get (normalizeLocationPart part) = None) candidates ->
  firstHit get accept candidates = None.
Proof.
  induction 1 as [|part rest Hpart _ IH]; simpl; [reflexivity|].
  rewrite Hpart. exact IH.
Qed.
End FirstHit.

Lemma candidates_of_street :
  extractLocationCandidates (Some "Rua das Flores 12") = ["Rua das Flores 12"].
Proof. vm_compute. reflexivity. Qed.

Lemma key_of_street : normalizeLocationPart "Rua das Flores 12" = "rua das flores 12".
Proof. vm_compute. reflexivity. Qed.

Lemma resolve_no_candidates text index :
  extractLocationCandidates text = [] ->
  resolveAdminHierarchy text index = unresolved.
Proof. intros H. unfold resolveAdminHierarchy. rewrite H. reflexivity. Qed.

Lemma resolve_parish_null text index :
  noKeyMatch (parishByKey index) text ->
  parish (resolveAdminHierarchy text index) = None.
Proof.
  intros Hp. unfold resolveAdminHierarchy.
  rewrite (firstHit_no_key (fun key => parishByKey index !! key) _ _ Hp). simpl.
  destruct (firstHit (λ key, municipalityByKey index !! key) _ _); simpl;
    destruct (firstHit (λ key, districtByKey index !! key) _ _); simpl;
    repeat (match goal with |- context [if ?b then _ else _] => destruct b end; simpl);
    reflexivity.
Qed.

Lemma resolve_municipality_null text index :
  noKeyMatch (parishByKey index) text ->
  noKeyMatch (municipalityByKey index) text ->
  municipality (resolveAdminHierarchy text index) = None.
Proof.
  intros Hp Hm. unfold resolveAdminHierarchy.
  rewrite (firstHit_no_key (fun key => parishByKey index !! key) _ _ Hp).
  rewrite (firstHit_no_key (fun key => municipalityByKey index !! key) _ _ Hm). simpl.
  destruct (firstHit (λ key, districtByKey index !! key) _ _); reflexivity.
Qed.

Lemma resolve_all_null text index :
  noKeyMatch (parishByKey index) text ->
  noKeyMatch (municipalityByKey index) text ->
  noKeyMatch (districtByKey index) text ->
  resolveAdminHierarchy text index = unresolved.
Proof.
  intros Hp Hm Hd. unfold resolveAdminHierarchy.
  rewrite (firstHit_no_key (fun key => parishByKey index !! key) _ _ Hp).
  rewrite (firstHit_no_key (fun key => municipalityByKey index !! key) _ _ Hm). simpl.
  rewrite (firstHit_no_key (fun key => districtByKey index !! key) _ _ Hd).
  reflexivity.
Qed.

(** C6, as stated, fails: an index that has the key ["rua das flores 12"]
    resolves the street to a district. *)
Lemma C6_street_resolves_in_some_index :
  ~ (forall index : PortugalAdminIndex,
       resolveAdminHierarchy (Some "Rua das Flores 12") index = unresolved).
Proof.
  intros H. specialize (H street_index). vm_compute in H. discriminate H.
Qed.

(** C6 (amended): against an index none of whose three maps has the key
    ["rua das flores 12"], the text ["Rua das Flores 12"] resolves to all
    null.  For any text and index: the parish is null when no candidate is a
    parish key; the municipality is null when moreover no candidate is a
    municipality key; all three levels are null when moreover no candidate is
    a district key; a text without candidate tokens resolves to all null. *)
Theorem C6_resolver_degrades_gracefully :
  (forall index,
     parishByKey index !! "rua das flores 12" = None ->
     municipalityByKey index !! "rua das flores 12" = None ->
     districtByKey index !! "rua das flores 12" = None ->
     resolveAdminHierarchy (Some "Rua das Flores 12") index = unresolved) /\
  (forall text index,
     noKeyMatch (parishByKey index) text ->
     parish (resolveAdminHierarchy text index) = None) /\
  (forall text index,
     noKeyMatch (parishByKey index) text ->
     noKeyMatch (municipalityByKey index) text ->
     municipality (resolveAdminHierarchy text index) = None) /\
  (forall text index,
     noKeyMatch (parishByKey index) text ->
     noKeyMatch (municipalityByKey index) text ->
     noKeyMatch (districtByKey index) text ->
     resolveAdminHierarchy text index = unresolved) /\
  (forall text index,
     extractLocationCandidates text = [] ->
     resolveAdminHierarchy text index = unresolved).
Proof.
  split; [|split; [|split; [|split]]].
  - intros index Hp Hm Hd.
    apply resolve_all_null; unfold noKeyMatch;
      rewrite candidates_of_street; repeat constructor; rewrite key_of_street; assumption.
  - exact resolve_parish_null.
  - exact resolve_municipality_null.
  - exact resolve_all_null.
  - exact resolve_no_candidates.
Qed.

(** The street against the Matosinhos index, and a text of delimiters only. *)
Lemma C6_resolver_degrades_gracefully_witness :
  resolveAdminHierarchy (Some "Rua das Flores 12") porto_index = unresolved /\
  resolveAdminHierarchy (Some " ; ") porto_index = unresolved.
Proof.
  split.
  - apply (proj1 C6_resolver_degrades_gracefully porto_index); reflexivity.
  - apply (proj2 (proj2 (proj2 (proj2 C6_resolver_degrades_gracefully))) (Some " ; ") porto_index).
    vm_compute. reflexivity.
Defined.

Lemma firstHit_in_token_order {V} (m : gmap string V) accept candidates hit :
  firstInTokenOrder m accept candidates hit ->
  firstHit (fun key => m !! key) accept candidates = Some hit.
Proof.
  intros (before & part & after & -> & Hbefore & Hpart & Hacc).
  induction Hbefore as [|earlier before Hearlier _ IH]; simpl.
  - rewrite Hpart, Hacc. reflexivity.
  - destruct (m !! normalizeLocationPart earlier) as [v|]; [rewrite Hearlier|]; exact IH.
Qed.

(** C7: against the index with district map [{"porto" -> "Porto"}],
    municipality map [{"matosinhos" -> {Matosinhos, Porto}}] and no parish,
    ["Matosinhos, Porto"] resolves to district Porto, municipality
    Matosinhos, parish null.  In general, when no candidate is a parish
    key, the first candidate in token order that is a municipality key
    sets the municipality and the district to the names of its record,
    whatever the later candidates are.  (A record with an empty district
    name leaves the district to the district pass, which takes the first
    candidate in token order that is the key of a non-empty district.) *)
Theorem C7_matosinhos_porto :
  resolveAdminHierarchy (Some "Matosinhos, Porto") porto_index =
    {| district := Some "Porto"; municipality := Some "Matosinhos"; parish := None |} /\
  (forall text index hit,
     noKeyMatch (parishByKey index) text ->
     firstInTokenOrder (municipalityByKey index) (fun _ => true)
       (extractLocationCandidates text) hit ->
     let resolved := resolveAdminHierarchy text index in
     parish resolved = None /\
     municipality resolved = Some (mun_municipality hit) /\
     (nonEmpty (mun_district hit) = true ->
      district resolved = Some (mun_district hit)) /\
     (nonEmpty (mun_district hit) = false ->
      forall name,
        firstInTokenOrder (districtByKey index) nonEmpty
          (extractLocationCandidates text) name ->
        district resolved = Some name)).
Proof.
  split; [vm_compute; reflexivity|].
  intros text index hit Hp Hm. cbv zeta.
  apply firstHit_in_token_order in Hm.
  unfold resolveAdminHierarchy.
  rewrite (firstHit_no_key (fun key => parishByKey index !! key) _ _ Hp), Hm.
  cbn [district municipality parish truthy negb orb].
  destruct (nonEmpty (mun_district hit)) eqn:Ed; cbn [negb district municipality parish].
  - split; [reflexivity|]. split; [reflexivity|]. split; [reflexivity|discriminate].
  - split; [|split; [|split; [discriminate|]]].
    + destruct (firstHit (λ key, districtByKey index !! key) _ _); reflexivity.
    + destruct (firstHit (λ key, districtByKey index !! key) _ _); reflexivity.
    + intros _ name Hname. apply firstHit_in_token_order in Hname.
      rewrite Hname. reflexivity.
Qed.

(** Two municipality keys in one text: the first one in token order wins,
    and the district comes from its record. *)
Lemma C7_matosinhos_porto_witness :
  let resolved := resolveAdminHierarchy (Some "Matosinhos, Sintra") porto_sintra_index in
  parish resolved = None /\
  municipality resolved = Some "Matosinhos" /\
  district resolved = Some "Porto".
Proof.
  destruct (proj2 C7_matosinhos_porto (Some "Matosinhos, Sintra") porto_sintra_index
              {| mun_municipality := "Matosinhos"; mun_district := "Porto" |})
    as (Hp & Hm & Hd & _).
  - unfold noKeyMatch. apply List.Forall_forall. intros part _. reflexivity.
  - exists [], "Matosinhos", ["Sintra"].
    split; [vm_compute; reflexivity|]. split; [constructor|].
    split; vm_compute; reflexivity.
  - cbv zeta. split; [exact Hp|]. split; [exact Hm|]. apply Hd. reflexivity.
Defined.

(** ** The index builder *)

Lemma fold_left_invariant {A B} (P : A -> Prop) (f : A -> B -> A) l init :
  P init -> (forall acc x, P acc -> P (f acc x)) -> P (fold_left f l init).
Proof.
  intros Hinit Hstep. revert init Hinit.
  induction l as [|x l IH]; simpl; intros init Hinit; [exact Hinit|].
  apply IH, Hstep, Hinit.
Qed.

Lemma trimmedNonEmpty_nonEmpty x s : trimmedNonEmpty x = Some s -> nonEmpty s = true.
Proof.
  destruct x as [y|]; simpl; [|discriminate].
  destruct (nonEmpty (trim y)) eqn:E; [|discriminate].
  intros [= <-]. exact E.
Qed.

Lemma build_wellFormed dataset : wellFormedIndex (buildPortugalAdminIndex dataset).
Proof.
  unfold wellFormedIndex, buildPortugalAdminIndex; simpl. split; [|split].
  - apply (fold_left_invariant (map_Forall _)); [apply map_Forall_empty|].
    intros acc item Hacc. unfold indexDistrict.
    destruct (trimmedNonEmpty (Some (opt_label item))) as [label|] eqn:E; [|exact Hacc].
    apply map_Forall_insert_2; [|exact Hacc].
    eapply trimmedNonEmpty_nonEmpty, E.
  - apply (fold_left_invariant (map_Forall _)); [apply map_Forall_empty|].
    intros acc item Hacc. unfold indexMunicipality.
    destruct (trimmedNonEmpty (Some (opt_label item))) as [m|] eqn:Em; [|exact Hacc].
    destruct (trimmedNonEmpty (opt_district item)) as [d|] eqn:Ed; [|exact Hacc].
    apply map_Forall_insert_2; [|exact Hacc]. simpl.
    split; eapply trimmedNonEmpty_nonEmpty; eassumption.
  - apply (fold_left_invariant (map_Forall _)); [apply map_Forall_empty|].
    intros acc item Hacc. unfold indexParish.
    destruct (trimmedNonEmpty (Some (opt_label item))) as [p|] eqn:Ep; [|exact Hacc].
    destruct (trimmedNonEmpty (opt_municipality item)) as [m|] eqn:Em; [|exact Hacc].
    destruct (trimmedNonEmpty (opt_district item)) as [d|] eqn:Ed; [|exact Hacc].
    apply map_Forall_insert_2; [|exact Hacc]. simpl.
    repeat split; eapply trimmedNonEmpty_nonEmpty; eassumption.
Qed.

Lemma resolve_consistent text index :
  wellFormedIndex index -> consistentHierarchy (resolveAdminHierarchy text index).
Proof.
  intros (Hd & Hm & Hp). unfold resolveAdminHierarchy, consistentHierarchy.
  destruct (firstHit (λ key, parishByKey index !! key) _ _) as [ph|] eqn:Ep.
  - apply firstHit_Some in Ep as (part & _ & Hget & _).
    destruct (Hp _ _ Hget) as (Np & Nm & Nd). simpl. rewrite Nm, Nd. simpl.
    rewrite Nd. simpl. repeat split; eauto.
  - simpl.
    destruct (firstHit (λ key, municipalityByKey index !! key) _ _) as [mh|] eqn:Em.
    + apply firstHit_Some in Em as (part & _ & Hget & _).
      destruct (Hm _ _ Hget) as (Nm & Nd). simpl. rewrite Nd. simpl.
      repeat split; eauto; intros [? [=]].
    + simpl.
      destruct (firstHit (λ key, districtByKey index !! key) _ _) as [dh|] eqn:Ed.
      * apply firstHit_Some in Ed as (part & _ & Hget & Hacc). simpl.
        repeat split; eauto; intros [? [=]].
      * simpl. repeat split; auto; intros [? [=]].
Qed.

(** C10: against an index produced by the index builder, every resolved
    hierarchy is consistent: a non-null parish comes with a non-null
    municipality and district, a non-null municipality with a non-null
    district, and no level is the empty string. *)
Theorem C10_resolved_hierarchy_consistent :
  forall (text : option string) (dataset : PortugalAdminDataset),
    let r := resolveAdminHierarchy text (buildPortugalAdminIndex dataset) in
    (is_Some (parish r) -> is_Some (municipality r) /\ is_Some (district r)) /\
    (is_Some (municipality r) -> is_Some (district r)) /\
    nonBlank (district r) /\ nonBlank (municipality r) /\ nonBlank (parish r).
Proof.
  intros text dataset. apply resolve_consistent, build_wellFormed.
Qed.

(** A parish hit in the index built from the sample dataset. *)
Lemma C10_resolved_hierarchy_consistent_witness :
  resolveAdminHierarchy (Some "Rua X - alvalade") (buildPortugalAdminIndex sample_dataset) =
    {| district := Some "Lisboa"; municipality := Some "Lisboa"; parish := Some "Alvalade" |} /\
  is_Some (municipality
             (resolveAdminHierarchy (Some "Rua X - alvalade")
                (buildPortugalAdminIndex sample_dataset))) /\
  is_Some (district
             (resolveAdminHierarchy (Some "Rua X - alvalade")
                (buildPortugalAdminIndex sample_dataset))).
Proof.
  split; [vm_compute; reflexivity|].
  apply (proj1 (C10_resolved_hierarchy_consistent (Some "Rua X - alvalade") sample_dataset)).
  vm_compute. eauto.
Defined.

(** ** Maps in insertion order, sorting *)

Lemma sortInsert_Permutation {A} (cmp : A -> A -> Z) x l :
  Permutation (sortInsert cmp x l) (x :: l).
Proof.
  induction l as [|y l IH]; simpl; [reflexivity|].
  destruct (0 <? cmp y x)%Z; [reflexivity|].
  rewrite IH. apply perm_swap.
Qed.

Lemma arraySort_Permutation {A} (cmp : A -> A -> Z) l :
  Permutation (arraySort cmp l) l.
Proof.
  unfold arraySort.
  assert (G : forall acc, Permutation (fold_left (fun s x => sortInsert cmp x s) l acc) (acc ++ l)).
  { induction l as [|x l IH]; intros acc; simpl.
    - rewrite app_nil_r. reflexivity.
    - rewrite IH, sortInsert_Permutation.
      change (x :: acc ++ l) with ((x :: acc) ++ l).
      rewrite (Permutation_middle acc l x). reflexivity. }
  apply (G []).
Qed.

Lemma sumTotals_Permutation l1 l2 : Permutation l1 l2 -> sumTotals l1 = sumTotals l2.
Proof. induction 1; simpl; lia. Qed.

Lemma groupTotal_Permutation p l1 l2 :
  Permutation l1 l2 -> groupTotal p l1 = groupTotal p l2.
Proof.
  unfold groupTotal. induction 1 as [|x l1 l2 _ IH|x y l|l1 l2 l3 _ IH1 _ IH2]; simpl.
  - reflexivity.
  - destruct (p (group_key x)); simpl; lia.
  - destruct (p (group_key x)), (p (group_key y)); simpl; lia.
  - lia.
Qed.

Lemma get_set {V} k k' (v : V) m :
  JsMap.get k' (JsMap.set k v m) = if String.eqb k k' then Some v else JsMap.get k' m.
Proof.
  induction m as [|[k0 v0] m IH]; simpl.
  - reflexivity.
  - destruct (String.eqb k0 k) eqn:E0; simpl.
    + apply String.eqb_eq in E0. subst k0. destruct (String.eqb k k'); reflexivity.
    + destruct (String.eqb k0 k') eqn:E1; [|exact IH].
      apply String.eqb_eq in E1. subst k0. rewrite String.eqb_sym, E0. reflexivity.
Qed.

Lemma keyed_get k m b : keyed m -> JsMap.get k m = Some b -> group_key b = k.
Proof.
  induction 1 as [|[k0 v0] m Hk _ IH]; simpl; [discriminate|].
  destruct (String.eqb k0 k) eqn:E; [|exact IH].
  apply String.eqb_eq in E. intros [= <-]. simpl in Hk. congruence.
Qed.

Lemma keyed_set k b m : keyed m -> group_key b = k -> keyed (JsMap.set k b m).
Proof.
  intros Hm Hb. induction Hm as [|[k0 v0] m Hk Hm IH]; simpl.
  - repeat constructor. exact Hb.
  - destruct (String.eqb k0 k); constructor; auto.
Qed.

Lemma currentBucket_key k m : keyed m -> group_key (currentBucket k m) = k.
Proof.
  intros Hm. unfold currentBucket.
  destruct (JsMap.get k m) as [b|] eqn:E; simpl; [|reflexivity].
  eapply keyed_get; eassumption.
Qed.

Lemma bump_keyed lt k m : keyed m -> keyed (bump lt k m).
Proof.
  intros Hm. unfold bump. apply keyed_set; [exact Hm|].
  simpl. apply currentBucket_key, Hm.
Qed.

(** Writing [v] under [k] changes the sum by the difference to the old
    value. *)
Lemma sumTotals_set k v m :
  sumTotals (JsMap.values (JsMap.set k v m)) =
  sumTotals (JsMap.values m) - total_count (currentBucket k m) + total_count v.
Proof.
  unfold currentBucket.
  induction m as [|[k0 v0] m IH]; simpl; [lia|].
  destruct (String.eqb k0 k); simpl; [lia|].
  rewrite IH. lia.
Qed.

Lemma bump_sumTotals lt k m :
  sumTotals (JsMap.values (bump lt k m)) = sumTotals (JsMap.values m) + 1.
Proof. unfold bump. rewrite sumTotals_set. simpl. lia. Qed.

Lemma groupTotal_set k v p m :
  keyed m -> group_key v = k ->
  groupTotal p (JsMap.values (JsMap.set k v m)) =
  groupTotal p (JsMap.values m)
  + (if p k then total_count v - total_count (currentBucket k m) else 0).
Proof.
  intros Hm Hv. unfold groupTotal, currentBucket.
  induction Hm as [|[k0 v0] m Hk Hm IH]; simpl.
  - rewrite Hv. destruct (p k); simpl; lia.
  - simpl in Hk. destruct (String.eqb k0 k) eqn:E0; simpl.
    + apply String.eqb_eq in E0. rewrite E0 in Hk. rewrite Hv, Hk.
      destruct (p k); simpl; lia.
    + rewrite Hk. destruct (p k0) eqn:E1; simpl; rewrite IH; lia.
Qed.

Lemma bump_groupTotal lt k p m :
  keyed m ->
  groupTotal p (JsMap.values (bump lt k m)) =
  groupTotal p (JsMap.values m) + (if p k then 1 else 0).
Proof.
  intros Hm. unfold bump.
  rewrite groupTotal_set; [|exact Hm|simpl; apply currentBucket_key, Hm].
  simpl. destruct (p k); lia.
Qed.

Lemma Forall_values_set {V} (P : V -> Prop) k v (m : JsMap.t V) :
  Forall P (JsMap.values m) -> P v -> Forall P (JsMap.values (JsMap.set k v m)).
Proof.
  intros Hm Hv. induction m as [|[k0 v0] m IH]; simpl.
  - repeat constructor. exact Hv.
  - inversion Hm; subst. destruct (String.eqb k0 k); simpl; constructor; auto.
Qed.

Lemma get_In_values {V} k (m : JsMap.t V) v : JsMap.get k m = Some v -> In v (JsMap.values m).
Proof.
  induction m as [|[k0 v0] m IH]; simpl; [discriminate|].
  destruct (String.eqb k0 k); [intros [= <-]; auto | auto].
Qed.

Lemma bump_balanced lt k m :
  Forall balanced (JsMap.values m) -> Forall balanced (JsMap.values (bump lt k m)).
Proof.
  intros Hm. unfold bump. apply Forall_values_set; [exact Hm|].
  assert (Hc : balanced (currentBucket k m)).
  { unfold currentBucket. destruct (JsMap.get k m) as [b|] eqn:E; simpl.
    - apply (proj1 (List.Forall_forall _ _) Hm). eapply get_In_values, E.
    - reflexivity. }
  unfold balanced in *. simpl. destruct lt; lia.
Qed.

(** ** The aggregation pass *)

Lemma countWhere_snoc key p rows row :
  countWhere key p (rows ++ [row]) =
  countWhere key p rows + (if p (key row) then 1 else 0).
Proof.
  unfold countWhere. rewrite List.filter_app, length_app. simpl.
  destruct (p (key row)); simpl; lia.
Qed.

Lemma bump_accounts lt key rows row m :
  mapAccounts key rows m -> mapAccounts key (rows ++ [row]) (bump lt (key row) m).
Proof.
  intros (Hk & Hb & Hs & Hc). repeat split.
  - apply bump_keyed, Hk.
  - apply bump_balanced, Hb.
  - rewrite bump_sumTotals, Hs, length_app. simpl. lia.
  - intros p. rewrite bump_groupTotal, Hc, countWhere_snoc; auto.
Qed.

Lemma processRow_accounted adminIndex rows row st :
  accounted adminIndex rows st ->
  accounted adminIndex (rows ++ [row]) (processRow adminIndex st row).
Proof.
  intros (Ht & Hd & Hm & Hp & Hy). unfold accounted, processRow. simpl.
  split; [|split; [|split; [|split]]].
  - rewrite length_app. simpl. destruct (classify row); lia.
  - apply (bump_accounts _ (regionKey adminIndex LevelDistrict)), Hd.
  - apply (bump_accounts _ (regionKey adminIndex LevelMunicipality)), Hm.
  - apply (bump_accounts _ (regionKey adminIndex LevelParish)), Hp.
  - apply (bump_accounts _ rowTypology), Hy.
Qed.

Lemma fold_accounted adminIndex more : forall done st,
  accounted adminIndex done st ->
  accounted adminIndex (done ++ more) (fold_left (processRow adminIndex) more st).
Proof.
  induction more as [|row more IH]; intros done st H; simpl.
  - rewrite app_nil_r. exact H.
  - replace (done ++ row :: more) with ((done ++ [row]) ++ more)
      by (rewrite <- app_assoc; reflexivity).
    apply IH, processRow_accounted, H.
Qed.

Lemma empty_accounted adminIndex : accounted adminIndex [] emptyAggState.
Proof.
  unfold accounted, mapAccounts, keyed; simpl.
  repeat split; try constructor.
Qed.

Lemma pageRequests_cons pageSize first count :
  pageRequests pageSize first (S count) =
  (first * pageSize, first * pageSize + pageSize - 1) ::
  pageRequests pageSize (first + 1) count.
Proof.
  unfold pageRequests. simpl. rewrite Z.add_0_r. f_equal.
  rewrite <- seq_shift, List.map_map.
  apply List.map_ext. intros i.
  replace (first + Z.of_nat (S i)) with (first + 1 + Z.of_nat i) by lia.
  reflexivity.
Qed.

Lemma length_pageRequests pageSize first count :
  length (pageRequests pageSize first count) = count.
Proof. unfold pageRequests. rewrite length_map, length_seq. reflexivity. Qed.

(** The loop over a stable store, started at page [k]: it asks for the
    pages [k .. N / pageSize] and folds the rows from page [k] on. *)
Lemma aggregatePages_stable rows rows' adminIndex pageSize :
  0 < pageSize ->
  forall fuel k st,
    0 <= k ->
    k * pageSize <= Z.of_nat (length rows) ->
    Z.of_nat (length rows) / pageSize - k < Z.of_nat fuel ->
    aggregatePages fuel (stableStore rows rows') adminIndex pageSize (k * pageSize) st =
    (pageRequests pageSize k (Z.to_nat (Z.of_nat (length rows) / pageSize - k + 1)),
     Returned (fold_left (processRow adminIndex) (drop (Z.to_nat (k * pageSize)) rows) st)).
Proof.
  intros HP. set (N := Z.of_nat (length rows)).
  induction fuel as [|fuel IH]; intros k st Hk HkN Hfuel.
  - assert (k <= N / pageSize) by (apply Z.div_le_lower_bound; lia). lia.
  - assert (Hkq : k <= N / pageSize) by (apply Z.div_le_lower_bound; lia).
    cbn [aggregatePages stableStore rangeById q_error q_data fst snd default from_option id].
    unfold slice.
    replace (k * pageSize + pageSize - 1 <? k * pageSize)%Z with false
      by (symmetry; apply Z.ltb_ge; lia).
    replace (k * pageSize + pageSize - 1 - k * pageSize + 1) with pageSize by lia.
    set (o := Z.to_nat (k * pageSize)). set (p := Z.to_nat pageSize).
    assert (Hlen : length (take p (drop o rows)) = Nat.min p (length rows - o))
      by (rewrite length_take, length_drop; reflexivity).
    destruct (Z.of_nat (length (take p (drop o rows))) =? 0) eqn:E0.
    + apply Z.eqb_eq in E0.
      assert (HN : N = k * pageSize) by (unfold N; lia).
      assert (Hq : N / pageSize = k) by (rewrite HN; apply Z.div_mul; lia).
      rewrite Hq. replace (k - k + 1) with 1 by lia.
      change (Z.to_nat 1) with 1%nat. rewrite pageRequests_cons. simpl.
      rewrite (drop_ge rows o) by (unfold N in HN; lia). reflexivity.
    + apply Z.eqb_neq in E0.
      destruct (Z.of_nat (length (take p (drop o rows))) <? pageSize)%Z eqn:E1.
      * apply Z.ltb_lt in E1.
        assert (Hq : N / pageSize = k).
        { symmetry. apply (Z.div_unique_pos N pageSize k (N - k * pageSize)); unfold N; lia. }
        rewrite Hq. replace (k - k + 1) with 1 by lia.
        change (Z.to_nat 1) with 1%nat. rewrite pageRequests_cons. simpl.
        rewrite (take_ge (drop o rows) p) by (rewrite length_drop; lia). reflexivity.
      * apply Z.ltb_ge in E1.
        assert (HkN' : (k + 1) * pageSize <= N) by (unfold N; lia).
        replace (k * pageSize + pageSize) with ((k + 1) * pageSize) by lia.
        rewrite (IH (k + 1)) by lia.
        replace (Z.to_nat (N / pageSize - k + 1))
          with (S (Z.to_nat (N / pageSize - (k + 1) + 1))) by lia.
        rewrite pageRequests_cons. f_equal; [f_equal; f_equal; lia|f_equal].
        rewrite <- fold_left_app. f_equal.
        replace (Z.to_nat ((k + 1) * pageSize)) with (o + p)%nat by lia.
        rewrite <- drop_drop. apply take_drop.
Qed.

Lemma aggregate_stable_from_start rows rows' adminIndex pageSize fuel :
  0 < pageSize ->
  Z.of_nat (length rows) / pageSize < Z.of_nat fuel ->
  aggregatePages fuel (stableStore rows rows') adminIndex pageSize 0 emptyAggState =
  (pageRequests pageSize 0 (Z.to_nat (Z.of_nat (length rows) / pageSize + 1)),
   Returned (fold_left (processRow adminIndex) rows emptyAggState)).
Proof.
  intros HP Hfuel.
  pose proof (aggregatePages_stable rows rows' adminIndex pageSize HP fuel 0 emptyAggState) as H.
  change (0 * pageSize) with 0 in H. rewrite Z.sub_0_r in H.
  change (Z.to_nat 0) with 0%nat in H. rewrite drop_0 in H.
  apply H; lia.
Qed.

Lemma countUnresolved_le_unknown adminIndex level rows :
  countUnresolved adminIndex level rows <=
  countKey (regionKey adminIndex level) "Unknown" rows.
Proof.
  unfold countUnresolved, countKey, countWhere, regionKey.
  induction rows as [|row rows IH]; simpl; [lia|].
  destruct (levelLabel level (resolveAdminHierarchy (row_location_text row) adminIndex));
    simpl.
  - destruct (String.eqb _ _); simpl; lia.
  - lia.
Qed.

Lemma Forall_Permutation_balanced l1 l2 :
  Permutation l1 l2 -> Forall balanced l1 -> Forall balanced l2.
Proof.
  intros HP H. apply List.Forall_forall. intros x Hx.
  apply (proj1 (List.Forall_forall _ _) H).
  eapply Permutation_in; [symmetry; exact HP|exact Hx].
Qed.

Lemma sorted_accounts (cmp : BreakdownRow -> BreakdownRow -> Z) key rows m :
  mapAccounts key rows m ->
  sumTotals (arraySort cmp (JsMap.values m)) = Z.of_nat (length rows) /\
  (forall p, groupTotal p (arraySort cmp (JsMap.values m)) = countWhere key p rows) /\
  Forall balanced (arraySort cmp (JsMap.values m)).
Proof.
  intros (_ & Hb & Hs & Hc). pose proof (arraySort_Permutation cmp (JsMap.values m)) as HP.
  repeat split.
  - rewrite (sumTotals_Permutation _ _ HP). exact Hs.
  - intros p. rewrite (groupTotal_Permutation p _ _ HP). apply Hc.
  - eapply Forall_Permutation_balanced; [symmetry; exact HP|exact Hb].
Qed.

(** C1: after a full aggregation pass over a stable listing set, with any
    positive page size: at each region level the bucket totals add up to the
    number of rows, as do the typology bucket totals and
    [total_buy + total_rent]; the count of each bucket is the number of rows
    with that group key, a row whose level did not resolve having the key
    ["Unknown"]; and every bucket has [buy_count + rent_count = total_count]. *)
Theorem C1_aggregation_totals :
  forall (localeCompare : string -> string -> Z) (rows rows' : list ListingRow)
         (adminIndex : PortugalAdminIndex) (pageSize : Z) (fuel : nat),
    0 < pageSize ->
    Z.of_nat (length rows) / pageSize < Z.of_nat fuel ->
    exists m,
      snd (importDashboardMetrics localeCompare fuel (stableStore rows rows')
             adminIndex pageSize) = Returned m /\
      (forall level, sumTotals (regionsAt level m) = Z.of_nat (length rows)) /\
      sumTotals (typologies m) = Z.of_nat (length rows) /\
      total_buy m + total_rent m = Z.of_nat (length rows) /\
      (forall level label,
         bucketTotal label (regionsAt level m) =
         countKey (regionKey adminIndex level) label rows) /\
      (forall level,
         countUnresolved adminIndex level rows <= bucketTotal "Unknown" (regionsAt level m)) /\
      (forall label, bucketTotal label (typologies m) = countKey rowTypology label rows) /\
      (forall level, Forall balanced (regionsAt level m)) /\
      Forall balanced (typologies m).
Proof.
  intros lc rows rows' adminIndex pageSize fuel HP Hfuel.
  unfold importDashboardMetrics.
  rewrite aggregate_stable_from_start by assumption.
  eexists. split; [reflexivity|].
  destruct (fold_accounted adminIndex rows [] emptyAggState (empty_accounted adminIndex))
    as (Ht & Hd & Hm & Hp & Hy).
  simpl in Ht, Hd, Hm, Hp, Hy.
  destruct (sorted_accounts (compareRegions lc) _ _ _ Hd) as (Sd & Cd & Bd).
  destruct (sorted_accounts (compareRegions lc) _ _ _ Hm) as (Sm & Cm & Bm).
  destruct (sorted_accounts (compareRegions lc) _ _ _ Hp) as (Sp & Cp & Bp).
  destruct (sorted_accounts (compareTypologies lc) _ _ _ Hy) as (Sy & Cy & By).
  assert (HC : forall level label,
      bucketTotal label
        (regionsAt level (metricsOfState lc (fold_left (processRow adminIndex) rows emptyAggState))) =
      countKey (regionKey adminIndex level) label rows).
  { intros [] label; simpl; unfold sortRegions, bucketTotal, countKey; auto. }
  repeat split.
  - intros []; simpl; unfold sortRegions; assumption.
  - simpl; unfold sortTypologies; assumption.
  - simpl; assumption.
  - exact HC.
  - intros level. rewrite HC. apply countUnresolved_le_unknown.
  - intros label. simpl; unfold sortTypologies, bucketTotal, countKey; auto.
  - intros []; simpl; unfold sortRegions; assumption.
  - simpl; unfold sortTypologies; assumption.
Qed.

(** Three listings read in pages of two. *)
Lemma C1_aggregation_totals_witness :
  exists m,
    snd (importDashboardMetrics codeUnitCompare 2 (stableStore sample_rows sample_rows)
           porto_index 2) = Returned m /\
    sumTotals (regionsAt LevelParish m) = 3 /\
    sumTotals (typologies m) = 3 /\
    total_buy m + total_rent m = 3 /\
    bucketTotal "Unknown" (regionsAt LevelDistrict m) = 1.
Proof.
  destruct (C1_aggregation_totals codeUnitCompare sample_rows sample_rows porto_index 2 2)
    as (m & Hm & Hr & Hy & Ht & Hc & _); [lia | vm_compute; reflexivity |].
  exists m. split; [exact Hm|]. split; [apply Hr|]. split; [exact Hy|].
  split; [exact Ht|]. rewrite Hc. vm_compute. reflexivity.
Defined.

Lemma length_slice rows from pageSize :
  0 <= from -> 0 < pageSize ->
  Z.of_nat (length (slice rows from (from + pageSize - 1))) =
  Z.min pageSize (Z.max 0 (Z.of_nat (length rows) - from)).
Proof.
  intros Hf HP. unfold slice.
  replace (from + pageSize - 1 <? from)%Z with false by (symmetry; apply Z.ltb_ge; lia).
  rewrite length_take, length_drop. lia.
Qed.

Lemma ceilDiv_not_multiple n p :
  0 < p -> 0 <= n -> n mod p <> 0 -> ceilDiv n p = n / p + 1.
Proof.
  intros Hp Hn Hr. unfold ceilDiv.
  pose proof (Z.mod_pos_bound n p Hp) as Hb.
  pose proof (Z.div_mod n p ltac:(lia)) as Hdm.
  symmetry. apply (Z.div_unique_pos (n + p - 1) p (n / p + 1) (n mod p - 1)); lia.
Qed.

Lemma ceilDiv_multiple n p :
  0 < p -> 0 <= n -> n mod p = 0 -> ceilDiv n p = n / p.
Proof.
  intros Hp Hn Hr. unfold ceilDiv.
  pose proof (Z.div_mod n p ltac:(lia)) as Hdm.
  symmetry. apply (Z.div_unique_pos (n + p - 1) p (n / p) (p - 1)); lia.
Qed.

(** C4, as stated, fails: on the empty listing set the pass with the page
    size of the code issues one request, not [ceil(0 / 5000) = 0]; on two rows
    with page size two it issues two requests, not [ceil(2 / 2) = 1]. *)
Lemma C4_one_request_more_than_ceiling :
  (let run := getImportDashboardMetrics codeUnitCompare 1 (stableStore [] []) porto_index in
   fst run = [(0, 4999)] /\ ceilDiv 0 5000 = 0) /\
  (let run := importDashboardMetrics codeUnitCompare 2
                (stableStore (take 2 sample_rows) (take 2 sample_rows)) porto_index 2 in
   fst run = [(0, 1); (2, 3)] /\ ceilDiv 2 2 = 1).
Proof. vm_compute. repeat split; reflexivity. Qed.

(** C4 (amended): over a stable listing set of [N] rows and with a positive
    page size [P], the pass returns after exactly [floor(N / P) + 1] page
    requests, for the pages [0 .. floor(N / P)] in order; that is
    [ceil(N / P)] requests when [P] does not divide [N] and one more when it
    does.  Every page before the last is full and the last one has
    [N mod P < P] rows: the loop stops at the first short page, which is
    empty when [P] divides [N].  No count field is read. *)
Theorem C4_page_requests :
  forall (localeCompare : string -> string -> Z) (rows rows' : list ListingRow)
         (adminIndex : PortugalAdminIndex) (pageSize : Z) (fuel : nat),
    0 < pageSize ->
    Z.of_nat (length rows) / pageSize < Z.of_nat fuel ->
    let N := Z.of_nat (length rows) in
    let run := importDashboardMetrics localeCompare fuel (stableStore rows rows')
                 adminIndex pageSize in
    (exists m, snd run = Returned m) /\
    fst run = pageRequests pageSize 0 (Z.to_nat (N / pageSize + 1)) /\
    Z.of_nat (length (fst run)) = N / pageSize + 1 /\
    (N mod pageSize <> 0 -> Z.of_nat (length (fst run)) = ceilDiv N pageSize) /\
    (N mod pageSize = 0 -> Z.of_nat (length (fst run)) = ceilDiv N pageSize + 1) /\
    (forall i, 0 <= i < N / pageSize ->
       Z.of_nat (length (slice rows (i * pageSize) (i * pageSize + pageSize - 1))) = pageSize) /\
    Z.of_nat (length (slice rows (N / pageSize * pageSize)
                        (N / pageSize * pageSize + pageSize - 1))) = N mod pageSize /\
    N mod pageSize < pageSize.
Proof.
  intros lc rows rows' adminIndex pageSize fuel HP Hfuel N run.
  assert (HN : 0 <= N) by (unfold N; lia).
  pose proof (Z.div_pos N pageSize HN HP) as Hq.
  pose proof (Z.mod_pos_bound N pageSize HP) as Hr.
  pose proof (Z.div_mod N pageSize ltac:(lia)) as Hdm.
  assert (Hrun : run = (pageRequests pageSize 0 (Z.to_nat (N / pageSize + 1)),
                        Returned (metricsOfState lc
                          (fold_left (processRow adminIndex) rows emptyAggState)))).
  { unfold run, importDashboardMetrics.
    rewrite aggregate_stable_from_start by assumption. reflexivity. }
  rewrite Hrun. cbn [fst snd]. rewrite length_pageRequests.
  split; [eexists; reflexivity|].
  split; [reflexivity|].
  split; [lia|].
  split; [intros Hne; rewrite ceilDiv_not_multiple by assumption; lia|].
  split; [intros He; rewrite ceilDiv_multiple by assumption; lia|].
  split; [|split; [|lia]].
  - intros i Hi. rewrite length_slice by nia. fold N. nia.
  - rewrite length_slice by nia. fold N. nia.
Qed.

(** Three listings in pages of two: two requests. *)
Lemma C4_page_requests_witness :
  let run := importDashboardMetrics codeUnitCompare 2
               (stableStore sample_rows sample_rows) porto_index 2 in
  fst run = [(0, 1); (2, 3)] /\ Z.of_nat (length (fst run)) = 3 / 2 + 1.
Proof.
  pose proof (C4_page_requests codeUnitCompare sample_rows sample_rows porto_index 2 2
                ltac:(lia) ltac:(vm_compute; reflexivity)) as (_ & Hreq & Hlen & _).
  split; [exact Hreq | exact Hlen].
Defined.

(** ** The order of the buckets *)

Section SortSorted.
Context {A : Type} (cmp : A -> A -> Z) (R : A -> A -> Prop).
Hypothesis before_ok : forall x y, 0 < cmp y x -> R x y.
Hypothesis after_ok : forall x y, cmp y x <= 0 -> R y x.
Hypothesis R_trans : forall x y z, R x y -> R y z -> R x z.

Lemma sortInsert_sorted x l :
  StronglySorted R l -> StronglySorted R (sortInsert cmp x l).
Proof.
  induction 1 as [|y l Hl IH Hy]; simpl.
  - constructor; constructor.
  - destruct (0 <? cmp y x)%Z eqn:E.
    + apply Z.ltb_lt in E. constructor; [constructor; assumption|].
      constructor; [apply before_ok, E|].
      eapply List.Forall_impl; [|exact Hy].
      intros z Hz. eapply R_trans; [apply before_ok, E|exact Hz].
    + apply Z.ltb_ge in E. constructor; [exact IH|].
      apply List.Forall_forall. intros z Hz.
      apply (Permutation_in _ (sortInsert_Permutation cmp x l)) in Hz.
      destruct Hz as [<-|Hz]; [apply after_ok, E|].
      apply (proj1 (List.Forall_forall _ _) Hy), Hz.
Qed.

Lemma arraySort_sorted l : StronglySorted R (arraySort cmp l).
Proof.
  unfold arraySort.
  assert (G : forall acc, StronglySorted R acc ->
              StronglySorted R (fold_left (fun s x => sortInsert cmp x s) l acc)).
  { induction l as [|x l IH]; intros acc Hacc; simpl; [exact Hacc|].
    apply IH, sortInsert_sorted, Hacc. }
  apply G. constructor.
Qed.
End SortSorted.

Section CollatedOrder.
Variable localeCompare : string -> string -> Z.
Hypothesis collate_antisym : forall a b, 0 < localeCompare a b -> localeCompare b a <= 0.
Hypothesis collate_trans :
  forall a b c, localeCompare a b <= 0 -> localeCompare b c <= 0 -> localeCompare a c <= 0.

Lemma regionOrder_trans x y z :
  regionOrder localeCompare x y -> regionOrder localeCompare y z ->
  regionOrder localeCompare x z.
Proof.
  unfold regionOrder. intros [H1|[H1 L1]] [H2|[H2 L2]]; try (left; lia).
  right. split; [lia|]. eapply collate_trans; eassumption.
Qed.

Lemma compareRegions_before x y :
  0 < compareRegions localeCompare y x -> regionOrder localeCompare x y.
Proof.
  unfold compareRegions, regionOrder.
  destruct (total_count x - total_count y =? 0) eqn:E.
  - apply Z.eqb_eq in E. intros H. right. split; [lia|]. apply collate_antisym, H.
  - apply Z.eqb_neq in E. intros H. left. lia.
Qed.

Lemma compareRegions_after x y :
  compareRegions localeCompare y x <= 0 -> regionOrder localeCompare y x.
Proof.
  unfold compareRegions, regionOrder.
  destruct (total_count x - total_count y =? 0) eqn:E.
  - apply Z.eqb_eq in E. intros H. right. split; [lia|exact H].
  - apply Z.eqb_neq in E. intros H. left. lia.
Qed.

Lemma sortRegions_sorted l :
  StronglySorted (regionOrder localeCompare) (sortRegions localeCompare l).
Proof.
  apply arraySort_sorted.
  - exact compareRegions_before.
  - exact compareRegions_after.
  - exact regionOrder_trans.
Qed.

Lemma sortTypologies_sorted l :
  StronglySorted (typologyOrder localeCompare) (sortTypologies localeCompare l).
Proof.
  apply arraySort_sorted.
  - intros x y. unfold compareTypologies, typologyOrder.
    destruct (String.eqb_spec (group_key y) "Unknown") as [Ey|Ey]; [auto|].
    destruct (String.eqb_spec (group_key x) "Unknown") as [Ex|Ex]; [lia|].
    intros H. right. auto using compareRegions_before.
  - intros x y. unfold compareTypologies, typologyOrder.
    destruct (String.eqb_spec (group_key y) "Unknown") as [Ey|Ey]; [lia|].
    destruct (String.eqb_spec (group_key x) "Unknown") as [Ex|Ex]; [auto|].
    intros H. right. auto using compareRegions_after.
  - intros x y z. unfold typologyOrder.
    intros [H1|(Nx & Ny & H1)] [H2|(Ny' & Nz & H2)]; auto; try contradiction.
    right. eauto using regionOrder_trans.
Qed.
End CollatedOrder.

Lemma set_keys_NoDup {V} k (v : V) m :
  List.NoDup (JsMap.keys m) -> List.NoDup (JsMap.keys (JsMap.set k v m)).
Proof.
  assert (Hin : forall m x, In x (JsMap.keys (JsMap.set k v m)) -> x = k \/ In x (JsMap.keys m)).
  { clear m. induction m as [|[k0 v0] m IH]; simpl; intros x Hx.
    - destruct Hx as [<-|[]]. auto.
    - destruct (String.eqb_spec k0 k) as [->|Hne]; simpl in Hx.
      + destruct Hx as [<-|Hx]; auto.
      + destruct Hx as [<-|Hx]; auto. destruct (IH x Hx); auto. }
  induction m as [|[k0 v0] m IH]; simpl; intros Hnd.
  - repeat constructor. intros [].
  - apply List.NoDup_cons_iff in Hnd as [Hnotin Hnd].
    destruct (String.eqb_spec k0 k) as [->|Hne]; simpl.
    + apply List.NoDup_cons_iff. auto.
    + apply List.NoDup_cons_iff. split; [|apply IH, Hnd].
      intros Hx. destruct (Hin m k0 Hx) as [->|Hx']; auto.
Qed.

Lemma bump_wellKeyed lt k m : wellKeyed m -> wellKeyed (bump lt k m).
Proof.
  intros [Hk Hn]. split; [apply bump_keyed, Hk|].
  unfold bump. apply set_keys_NoDup, Hn.
Qed.

Lemma keyed_values_keys m : keyed m -> map group_key (JsMap.values m) = JsMap.keys m.
Proof.
  induction 1 as [|[k v] m Hk _ IH]; simpl; [reflexivity|].
  simpl in Hk. rewrite Hk. f_equal. exact IH.
Qed.

(** Whatever the store answers, a state returned by the loop satisfies every
    invariant of [processRow] that held at the start. *)
Lemma aggregatePages_invariant (P : AggState -> Prop) adminIndex :
  (forall st row, P st -> P (processRow adminIndex st row)) ->
  forall fuel store pageSize offset st requests st',
    P st ->
    aggregatePages fuel store adminIndex pageSize offset st = (requests, Returned st') ->
    P st'.
Proof.
  intros Hstep. induction fuel as [|fuel IH]; intros store pageSize offset st requests st' Hst;
    simpl; [discriminate|].
  destruct (q_error _) as [message|]; [discriminate|].
  destruct (Z.of_nat (length _) =? 0); [intros [= _ <-]; exact Hst|].
  assert (Hst' : P (fold_left (processRow adminIndex)
                      (default [] (q_data (rangeById store offset (offset + pageSize - 1)))) st)).
  { apply fold_left_invariant; [exact Hst|]. intros acc row. apply Hstep. }
  destruct (Z.of_nat (length _) <? pageSize)%Z; [intros [= _ <-]; exact Hst'|].
  destruct (aggregatePages fuel store adminIndex pageSize (offset + pageSize) _)
    as [requests' outcome] eqn:E.
  intros [= _ ->]. eapply IH; [exact Hst'|exact E].
Qed.

Lemma StronglySorted_suffix {A} (R : A -> A -> Prop) l1 l2 :
  StronglySorted R (l1 ++ l2) -> StronglySorted R l2.
Proof.
  induction l1 as [|x l1 IH]; simpl; [auto|].
  intros H. apply StronglySorted_inv in H as [H _]. auto.
Qed.

Lemma sorted_unknownLast localeCompare l :
  StronglySorted (typologyOrder localeCompare) l ->
  List.NoDup (map group_key l) ->
  unknownLast l.
Proof.
  intros Hs Hn before b after -> Hb.
  destruct after as [|c after]; [reflexivity|exfalso].
  apply StronglySorted_suffix in Hs.
  apply StronglySorted_inv in Hs as [_ Hall].
  apply List.Forall_inv in Hall.
  rewrite List.map_app in Hn. apply List.NoDup_app_remove_l in Hn.
  simpl in Hn. apply List.NoDup_cons_iff in Hn as [Hnotin _].
  apply Hnotin. left.
  destruct Hall as [Hc|(Nb & _)]; [congruence|contradiction].
Qed.

Lemma processRow_wellKeyed adminIndex st row :
  wellKeyed (typologyMap st) -> wellKeyed (typologyMap (processRow adminIndex st row)).
Proof. intros H. unfold processRow. simpl. apply bump_wellKeyed, H. Qed.

Lemma compare_not_Gt_trans a : forall b c,
  String.compare a b <> Gt -> String.compare b c <> Gt -> String.compare a c <> Gt.
Proof.
  induction a as [|x a IH]; intros [|y b] [|z c]; simpl; try congruence.
  unfold Ascii.compare.
  destruct (N.compare_spec (N_of_ascii x) (N_of_ascii y)) as [Exy|Lxy|Gxy];
    destruct (N.compare_spec (N_of_ascii y) (N_of_ascii z)) as [Eyz|Lyz|Gyz];
    destruct (N.compare_spec (N_of_ascii x) (N_of_ascii z)) as [Exz|Lxz|Gxz];
    try congruence; try lia.
  apply IH.
Qed.

Lemma codeUnitCompare_antisym a b : 0 < codeUnitCompare a b -> codeUnitCompare b a <= 0.
Proof.
  unfold codeUnitCompare. rewrite (String.compare_antisym a b).
  destruct (String.compare b a); simpl; lia.
Qed.

Lemma codeUnitCompare_trans a b c :
  codeUnitCompare a b <= 0 -> codeUnitCompare b c <= 0 -> codeUnitCompare a c <= 0.
Proof.
  unfold codeUnitCompare. intros Hab Hbc.
  pose proof (compare_not_Gt_trans a b c) as H.
  destruct (String.compare a b), (String.compare b c), (String.compare a c);
    try lia; exfalso; apply H; congruence.
Qed.

(** C8: for a collation that is a total preorder, in every aggregation
    result the region buckets of each level are ordered by non-increasing
    [total_count], buckets of equal count by non-descending name; the
    typology buckets are ordered the same way, except that the ["Unknown"]
    bucket stands last whatever its count. *)
Theorem C8_bucket_order :
  forall (localeCompare : string -> string -> Z),
    (forall a b, 0 < localeCompare a b -> localeCompare b a <= 0) ->
    (forall a b c, localeCompare a b <= 0 -> localeCompare b c <= 0 ->
                   localeCompare a c <= 0) ->
    forall (fuel : nat) (store : ListingStore) (adminIndex : PortugalAdminIndex)
           (pageSize : Z) (m : ImportDashboardMetrics),
      snd (importDashboardMetrics localeCompare fuel store adminIndex pageSize) = Returned m ->
      (forall level, StronglySorted (regionOrder localeCompare) (regionsAt level m)) /\
      StronglySorted (typologyOrder localeCompare) (typologies m) /\
      unknownLast (typologies m).
Proof.
  intros lc Hanti Htrans fuel store adminIndex pageSize m.
  unfold importDashboardMetrics.
  destruct (aggregatePages fuel store adminIndex pageSize 0 emptyAggState)
    as [requests [st|message|]] eqn:E; simpl; try discriminate.
  intros [= <-].
  assert (Hkeys : wellKeyed (typologyMap st)).
  { refine (aggregatePages_invariant (fun s => wellKeyed (typologyMap s)) adminIndex
              (processRow_wellKeyed adminIndex) _ _ _ _ _ _ _ _ E).
    split; constructor. }
  assert (Hsorted : StronglySorted (typologyOrder lc)
                      (sortTypologies lc (JsMap.values (typologyMap st))))
    by (apply sortTypologies_sorted; assumption).
  split; [|split].
  - intros []; simpl; apply sortRegions_sorted; assumption.
  - exact Hsorted.
  - simpl. apply (sorted_unknownLast lc); [exact Hsorted|].
    destruct Hkeys as [Hk Hn].
    eapply Permutation_NoDup; [|rewrite <- (keyed_values_keys _ Hk) in Hn; exact Hn].
    apply Permutation_map. symmetry. apply arraySort_Permutation.
Qed.

(** Six listings under code-unit order: ["Unknown"] has the largest count
    and stands last. *)
Lemma C8_bucket_order_witness :
  exists m,
    snd (importDashboardMetrics codeUnitCompare 2 (stableStore typology_rows typology_rows)
           porto_index 4) = Returned m /\
    map group_key (typologies m) = ["T1"; "T2"; "Unknown"] /\
    map total_count (typologies m) = [2; 1; 3] /\
    map group_key (regionsAt LevelMunicipality m) = ["Matosinhos"; "Unknown"] /\
    StronglySorted (typologyOrder codeUnitCompare) (typologies m) /\
    unknownLast (typologies m).
Proof.
  eexists. split; [vm_compute; reflexivity|].
  split; [vm_compute; reflexivity|].
  split; [vm_compute; reflexivity|].
  split; [vm_compute; reflexivity|].
  apply (C8_bucket_order codeUnitCompare codeUnitCompare_antisym codeUnitCompare_trans
           2 (stableStore typology_rows typology_rows) porto_index 4).
  vm_compute. reflexivity.
Defined.

(** ** The admin dataset fetch *)

Lemma fetchAllPages_failed upstream dataset : forall fuel offset out requests outcome,
  Route.fetchAllPages fuel upstream dataset offset out = (requests, outcome) ->
  pageFailed upstream dataset requests ->
  exists status,
    outcome = Thrown ("Public dataset request failed (" +:+ integerToString status +:+ ")").
Proof.
  unfold pageFailed.
  induction fuel as [|fuel IH]; intros offset out requests outcome; simpl.
  - intros [= <- _] H. inversion H.
  - destruct (Route.resp_ok (upstream dataset offset)) eqn:Eok; simpl.
    + destruct (Z.of_nat (length _) <? Route.LIMIT)%Z.
      { intros [= <- _] H. apply List.Exists_cons in H as [H|H]; [congruence|inversion H]. }
      destruct (match Route.payload_total_count _ with Some _ => _ | None => _ end).
      { intros [= <- _] H. apply List.Exists_cons in H as [H|H]; [congruence|inversion H]. }
      destruct (Route.fetchAllPages fuel upstream dataset _ _) as [requests' outcome'] eqn:E.
      intros [= <- <-] H. apply List.Exists_cons in H as [H|H]; [congruence|].
      eapply IH; eassumption.
    + intros [= _ <-] _. eexists. reflexivity.
Qed.

Lemma promiseAll3_rejected {A} (a b c : Outcome A) :
  (exists m, a = Thrown m) \/ (exists m, b = Thrown m) \/ (exists m, c = Thrown m) ->
  exists m, Route.promiseAll3 a b c = Thrown m.
Proof.
  intros H. unfold Route.promiseAll3.
  destruct a, b, c; try (eexists; reflexivity); exfalso;
    destruct H as [[m H]|[[m H]|[m H]]]; discriminate.
Qed.

(** C9: when a page request of one of the three dataset fetches is answered
    with a non-success status, that fetch throws the upstream error and
    returns no rows, [GET] answers with status 502 and a message instead of a
    dataset, the cached entry is the one from before the call, and a client
    that asked for the index gets an error and keeps no index. *)
Theorem C9_failed_page_fails_fetch :
  (forall fuel upstream dataset offset out,
     pageFailed upstream dataset (fst (Route.fetchAllPages fuel upstream dataset offset out)) ->
     exists status,
       snd (Route.fetchAllPages fuel upstream dataset offset out) =
       Thrown ("Public dataset request failed (" +:+ integerToString status +:+ ")")) /\
  (forall (localeCompare : string -> string -> Z) fuel upstream now cached,
     Route.freshEntry now cached = None ->
     pageFailed upstream "georef-portugal-distrito" (fst (Route.fetchDistricts fuel upstream)) \/
     pageFailed upstream "georef-portugal-concelho" (fst (Route.fetchMunicipalities fuel upstream)) \/
     pageFailed upstream "georef-portugal-freguesia" (fst (Route.fetchParishes fuel upstream)) ->
     (exists message,
        Route.GET localeCompare fuel upstream now cached =
        (cached, Returned (Route.JsonMessage message 502))) /\
     getPortugalAdminIndex localeCompare fuel upstream now cached None =
     ((cached, None), Thrown "Failed to load Portugal administrative database.")).
Proof.
  split.
  - intros fuel upstream dataset offset out H.
    destruct (Route.fetchAllPages fuel upstream dataset offset out) as [requests outcome] eqn:E.
    eapply fetchAllPages_failed; eassumption.
  - intros lc fuel upstream now cached Hstale Hfail.
    unfold getPortugalAdminIndex, Route.GET. rewrite Hstale.
    assert (Hrej : exists m,
      Route.promiseAll3 (snd (Route.fetchDistricts fuel upstream))
                        (snd (Route.fetchMunicipalities fuel upstream))
                        (snd (Route.fetchParishes fuel upstream)) = Thrown m).
    { apply promiseAll3_rejected.
      unfold Route.fetchDistricts, Route.fetchMunicipalities, Route.fetchParishes in *.
      destruct Hfail as [H|[H|H]]; [left|right; left|right; right];
        match type of H with
        | pageFailed _ ?d (fst (Route.fetchAllPages ?f ?u ?d ?o ?out)) =>
            destruct (Route.fetchAllPages f u d o out) as [requests outcome] eqn:E;
            destruct (fetchAllPages_failed _ _ _ _ _ _ _ E H) as [status ->]
        end; eexists; reflexivity. }
    destruct Hrej as [m ->]. split; [exists m|]; reflexivity.
Qed.

(** The second district page fails while a stale entry is cached. *)
Lemma C9_failed_page_fails_fetch_witness :
  Route.fetchDistricts 5%nat flaky_upstream =
    ([0; 100], Thrown "Public dataset request failed (503)") /\
  exists message,
    Route.GET codeUnitCompare 5%nat flaky_upstream (Route.CACHE_MS + 1) (Some old_entry) =
    (Some old_entry, Returned (Route.JsonMessage message 502)).
Proof.
  split; [vm_compute; reflexivity|].
  apply (proj2 C9_failed_page_fails_fetch codeUnitCompare 5%nat flaky_upstream
           (Route.CACHE_MS + 1) (Some old_entry)).
  - vm_compute. reflexivity.
  - left. unfold pageFailed.
    replace (fst (Route.fetchDistricts 5%nat flaky_upstream)) with [0; 100]
      by (vm_compute; reflexivity).
    apply List.Exists_cons_tl, List.Exists_cons_hd. vm_compute. reflexivity.
Defined.

(** ** The centroid merge *)

Section Merge.
Variable entry : Route.GeoRow -> Route.Entry.
Hypothesis entry_ok : entryFromRow entry.

Lemma rowsAt_snoc key rows row :
  rowsAt entry key (rows ++ [row]) =
  rowsAt entry key rows ++
  match entry row with
  | Some (k, _) => if String.eqb k key then [row] else []
  | None => []
  end.
Proof.
  unfold rowsAt. rewrite List.filter_app. simpl.
  destruct (entry row) as [[k item]|]; [|reflexivity].
  destruct (String.eqb k key); reflexivity.
Qed.












End Merge.

Lemma districtEntry_ok : entryFromRow Route.districtEntry.
Proof.
  intros row key item. unfold Route.districtEntry.
  destruct (negb _); [discriminate|]. intros [= _ <-]. auto.
Qed.

Lemma municipalityEntry_ok : entryFromRow Route.municipalityEntry.
Proof.
  intros row key item. unfold Route.municipalityEntry.
  destruct (_ || _); [discriminate|]. intros [= _ <-]. auto.
Qed.

Lemma parishEntry_ok : entryFromRow Route.parishEntry.
Proof.
  intros row key item. unfold Route.parishEntry.
  destruct (_ || _); [discriminate|]. intros [= _ <-]. auto.
Qed.




(** ** The typology pattern *)

Section PatternProofs.
Import Chars TypologyRegex TypologyPattern.

Lemma digit_not_space c : isDigit c = true -> isSpace c = false.
Proof. destruct c as [[|] [|] [|] [|] [|] [|] [|] [|]]; vm_compute; congruence. Qed.

Lemma digit_is_word c : isDigit c = true -> isWordChar c = true.
Proof. destruct c as [[|] [|] [|] [|] [|] [|] [|] [|]]; vm_compute; congruence. Qed.

Lemma code_plus c : (code c =? 43)%N = true -> c = "+"%char.
Proof. destruct c as [[|] [|] [|] [|] [|] [|] [|] [|]]; vm_compute; congruence. Qed.

Lemma dropSpaces_split l : exists ws, l = ws ++ dropSpaces l /\ spaces ws.
Proof.
  induction l as [|c l (ws & Hl & Hws)]; simpl.
  - exists []. split; [reflexivity|constructor].
  - destruct (isSpace c) eqn:E.
    + exists (c :: ws). split; [simpl; congruence|constructor; assumption].
    + exists []. split; [reflexivity|constructor].
Qed.

Lemma dropSpaces_app ws l :
  spaces ws ->
  (forall c r, l = c :: r -> isSpace c = false) ->
  dropSpaces (ws ++ l) = l.
Proof.
  intros Hws Hl. induction Hws as [|c ws Hc _ IH]; simpl.
  - destruct l as [|c r]; [reflexivity|]. simpl. rewrite (Hl c r eq_refl). reflexivity.
  - rewrite Hc. exact IH.
Qed.

Lemma digits12_sound {A} l (k : list ascii -> list ascii -> option A) m :
  digits12 l k = Some m ->
  exists base rest, l = base ++ rest /\ digitRun base /\ k base rest = Some m.
Proof.
  unfold digits12. destruct l as [|d1 r1]; [discriminate|].
  destruct (isDigit d1) eqn:E1; [|discriminate].
  destruct (match r1 with d2 :: r2 => if isDigit d2 then k [d1; d2] r2 else None | [] => None end)
    as [m'|] eqn:E2.
  - intros [= ->]. destruct r1 as [|d2 r2]; [discriminate|].
    destruct (isDigit d2) eqn:Ed2; [|discriminate].
    exists [d1; d2], r2. repeat split; simpl; auto; lia.
  - intros Hk. exists [d1], r1. repeat split; simpl; auto; lia.
Qed.

Lemma digits12_complete {A} base rest (k : list ascii -> list ascii -> option A) m :
  digitRun base ->
  (forall c r, rest = c :: r -> isDigit c = false) ->
  k base rest = Some m ->
  digits12 (base ++ rest) k = Some m.
Proof.
  intros [Hd Hlen] Hrest Hk.
  destruct base as [|d1 [|d2 [|d3 base]]]; simpl in Hlen; try lia.
  - apply List.Forall_inv in Hd. simpl. rewrite Hd.
    destruct rest as [|c r]; [exact Hk|].
    rewrite (Hrest c r eq_refl). exact Hk.
  - pose proof (List.Forall_inv Hd) as H1.
    pose proof (List.Forall_inv (List.Forall_inv_tail Hd)) as H2.
    simpl. rewrite H1, H2, Hk. reflexivity.
Qed.

Lemma last_digitRun x : digitRun x -> exists d, last x = Some d /\ isDigit d = true.
Proof.
  intros [Hd Hlen].
  destruct x as [|d1 [|d2 [|d3 x]]]; simpl in Hlen; try lia.
  - exists d1. split; [reflexivity|]. exact (List.Forall_inv Hd).
  - exists d2. split; [reflexivity|]. exact (List.Forall_inv (List.Forall_inv_tail Hd)).
Qed.

Lemma head_digitRun x : digitRun x -> exists d r, x = d :: r /\ isDigit d = true.
Proof.
  intros [Hd Hlen]. destruct x as [|d r]; simpl in Hlen; [lia|].
  exists d, r. split; [reflexivity|]. exact (List.Forall_inv Hd).
Qed.

(** After a digit, [\b] says that no word character follows. *)
Lemma boundaryAfter_digits x after :
  digitRun x -> boundaryAfter x after = true ->
  forall c r, after = c :: r -> isWordChar c = false.
Proof.
  intros Hx Hb c r ->. destruct (last_digitRun x Hx) as (d & Hl & Hd).
  unfold boundaryAfter, wordBoundary in Hb. rewrite Hl in Hb. simpl in Hb.
  rewrite (digit_is_word d Hd) in Hb. destruct (isWordChar c); [discriminate|reflexivity].
Qed.

Lemma not_word_not_digit c : isWordChar c = false -> isDigit c = false.
Proof. intros H. destruct (isDigit c) eqn:E; [|reflexivity]. rewrite (digit_is_word c E) in H. discriminate. Qed.

(** What [matchTail] returns, read back as a match of the tail. *)
Lemma matchTail_sound base rest m :
  matchTail base rest = Some m ->
  (m = (base, None) /\ boundaryAfter base rest = true) \/
  (exists ws2 ws3 e after,
     m = (base, Some e) /\ spaces ws2 /\ spaces ws3 /\ digitRun e /\
     rest = ws2 ++ "+"%char :: ws3 ++ e ++ after /\ boundaryAfter e after = true).
Proof.
  unfold matchTail.
  destruct (dropSpaces_split rest) as (ws2 & Hrest & Hws2).
  destruct (dropSpaces rest) as [|c r] eqn:Er.
  - destruct (boundaryAfter base rest) eqn:Eb; [|discriminate].
    intros [= <-]. left. auto.
  - destruct (code c =? 43)%N eqn:Ec.
    + destruct (digits12 (dropSpaces r) _) as [m'|] eqn:Ed.
      * intros [= ->]. right.
        apply digits12_sound in Ed as (e & after & Hsplit & He & Hk).
        destruct (boundaryAfter e after) eqn:Eb; [|discriminate].
        injection Hk as <-.
        destruct (dropSpaces_split r) as (ws3 & Hr & Hws3).
        exists ws2, ws3, e, after.
        split; [reflexivity|]. do 3 (split; [assumption|]). split; [|assumption].
        rewrite Hrest at 1. rewrite (code_plus c Ec). f_equal. f_equal.
        rewrite Hr at 1. rewrite Hsplit. reflexivity.
      * destruct (boundaryAfter base rest) eqn:Eb; [|discriminate].
        intros [= <-]. left. auto.
    + destruct (boundaryAfter base rest) eqn:Eb; [|discriminate].
      intros [= <-]. left. auto.
Qed.

Lemma matchTail_with_extra base ws2 ws3 e after :
  spaces ws2 -> spaces ws3 -> digitRun e -> boundaryAfter e after = true ->
  matchTail base (ws2 ++ "+"%char :: ws3 ++ e ++ after) = Some (base, Some e).
Proof.
  intros Hws2 Hws3 He Hb. unfold matchTail.
  rewrite (dropSpaces_app ws2) by (auto; intros c r [= <- _]; reflexivity).
  change (code "+"%char =? 43)%N with true. cbv iota.
  destruct (head_digitRun e He) as (d & r & -> & Hd).
  rewrite (dropSpaces_app ws3)
    by (auto; intros c r' [= <- _]; apply digit_not_space, Hd).
  rewrite (digits12_complete (d :: r) after _ (base, Some (d :: r))); auto.
  - intros c r' ->. apply not_word_not_digit.
    eapply boundaryAfter_digits; eauto.
  - rewrite Hb. reflexivity.
Qed.

Lemma matchTail_without_extra base after :
  boundaryAfter base after = true ->
  exists x, matchTail base after = Some (base, x).
Proof.
  intros Hb. destruct (matchTail base after) as [m|] eqn:E.
  - apply matchTail_sound in E as [[-> _]|(ws2 & ws3 & e & a & -> & _)]; eauto.
  - unfold matchTail in E. rewrite Hb in E.
    destruct (match dropSpaces after with c :: r => _ | [] => None end); discriminate.
Qed.

Lemma matchHere_sound prev l base extra :
  matchHere prev l = Some (base, extra) -> exists after, MatchHere prev l base extra after.
Proof.
  unfold matchHere. destruct l as [|t r]; [discriminate|].
  destruct (wordBoundary prev (Some t)) eqn:Eb; [|discriminate].
  destruct (isTee t) eqn:Et; [|discriminate]. simpl.
  intros H. apply digits12_sound in H as (b & rest & Hsplit & Hb & Hk).
  destruct (dropSpaces_split r) as (ws1 & Hr & Hws1).
  apply matchTail_sound in Hk
    as [[[= <- ->] Hba]|(ws2 & ws3 & e & after & [= <- ->] & Hws2 & Hws3 & He & Hrest & Hba)].
  - exists rest, t, ws1. do 4 (split; [assumption|]). split; [|assumption].
    rewrite Hr at 1. rewrite Hsplit. reflexivity.
  - exists after, t, ws1. do 4 (split; [assumption|]).
    exists ws2, ws3. do 3 (split; [assumption|]). split; [|assumption].
    rewrite Hr at 1. rewrite Hsplit, Hrest. reflexivity.
Qed.

Lemma matchHere_complete prev l base extra after :
  MatchHere prev l base extra after ->
  match extra with
  | Some e => matchHere prev l = Some (base, Some e)
  | None => exists x, matchHere prev l = Some (base, x)
  end.
Proof.
  intros (t & ws1 & Ht & Hws1 & Hb & Hbound & Hrest).
  destruct (head_digitRun base Hb) as (d & r & Hbase & Hd).
  destruct extra as [e|].
  - destruct Hrest as (ws2 & ws3 & Hws2 & Hws3 & He & -> & Hba).
    unfold matchHere. rewrite Hbound, Ht. simpl.
    rewrite (dropSpaces_app ws1)
      by (auto; rewrite Hbase; intros c r' [= <- _]; apply digit_not_space, Hd).
    apply digits12_complete; auto.
    + intros c r'. destruct ws2 as [|s ws2]; simpl.
      * intros [= <- _]. reflexivity.
      * intros [= <- _]. apply List.Forall_inv in Hws2.
        destruct (isDigit s) eqn:E; [|reflexivity].
        rewrite (digit_not_space s E) in Hws2. discriminate.
    + apply matchTail_with_extra; assumption.
  - destruct Hrest as (-> & Hba).
    destruct (matchTail_without_extra base after Hba) as [x Hx].
    exists x. unfold matchHere. rewrite Hbound, Ht. simpl.
    rewrite (dropSpaces_app ws1)
      by (auto; rewrite Hbase; intros c r' [= <- _]; apply digit_not_space, Hd).
    apply digits12_complete; auto.
    intros c r' ->. apply not_word_not_digit.
    eapply boundaryAfter_digits; eauto.
Qed.

End PatternProofs.

Section SearchProofs.
Import Chars TypologyRegex TypologyPattern.

Lemma search_unfold prev l :
  search prev l =
  match matchHere prev l with
  | Some m => Some m
  | None => match l with c :: r => search (Some c) r | [] => None end
  end.
Proof. destruct l; reflexivity. Qed.

Lemma matchHere_none_complete prev l base extra after :
  matchHere prev l = None -> ~ MatchHere prev l base extra after.
Proof.
  intros Hnone H. apply matchHere_complete in H.
  destruct extra as [e|]; [|destruct H as [x H]]; congruence.
Qed.

Lemma search_first l : forall before base extra,
  search (last before) l = Some (base, extra) ->
  exists skipped rest after,
    l = skipped ++ rest /\
    MatchHere (last (before ++ skipped)) rest base extra after /\
    (forall skipped' rest' base' extra' after',
       l = skipped' ++ rest' ->
       MatchHere (last (before ++ skipped')) rest' base' extra' after' ->
       (length skipped <= length skipped')%nat) /\
    (extra = None ->
     forall base' extra' after',
       ~ MatchHere (last (before ++ skipped)) rest base' (Some extra') after').
Proof.
  induction l as [|c r IH]; intros before base extra; rewrite search_unfold.
  - simpl. discriminate.
  - destruct (matchHere (last before) (c :: r)) as [m|] eqn:E.
    + intros [= ->]. destruct (matchHere_sound _ _ _ _ E) as [after Hafter].
      exists [], (c :: r), after. rewrite app_nil_r.
      split; [reflexivity|]. split; [exact Hafter|]. split.
      * intros. simpl. lia.
      * intros -> base' extra' after' H.
        apply matchHere_complete in H. congruence.
    + intros H. rewrite <- (last_snoc c before) in H.
      destruct (IH _ _ _ H) as (skipped & rest & after & Hr & Hm & Hmin & Hpref).
      rewrite <- app_assoc in Hm, Hpref. simpl in Hm, Hpref.
      exists (c :: skipped), rest, after.
      split; [simpl; congruence|]. split; [exact Hm|]. split; [|exact Hpref].
      intros skipped' rest' base' extra' after' Hsplit Hm'.
      destruct skipped' as [|c' skipped'].
      * exfalso. simpl in Hsplit. subst rest'. rewrite app_nil_r in Hm'.
        eapply matchHere_none_complete; eassumption.
      * simpl in Hsplit. injection Hsplit as <- Hr'. simpl.
        apply le_n_S. eapply (Hmin skipped' rest' base' extra' after'); [exact Hr'|].
        rewrite <- app_assoc. exact Hm'.
Qed.

Lemma search_none l : forall before,
  search (last before) l = None ->
  forall skipped rest base extra after,
    l = skipped ++ rest -> ~ MatchHere (last (before ++ skipped)) rest base extra after.
Proof.
  induction l as [|c r IH]; intros before; rewrite search_unfold;
    destruct (matchHere (last before) _) as [m|] eqn:E; try discriminate.
  - intros _ skipped rest base extra after Hsplit.
    symmetry in Hsplit. apply app_eq_nil in Hsplit as [-> ->]. rewrite app_nil_r.
    eapply matchHere_none_complete, E.
  - intros H skipped rest base extra after Hsplit.
    destruct skipped as [|c' skipped].
    + simpl in Hsplit. subst rest. rewrite app_nil_r.
      eapply matchHere_none_complete, E.
    + simpl in Hsplit. injection Hsplit as <- Hr.
      rewrite <- (last_snoc c before) in H.
      pose proof (IH _ H skipped rest base extra after Hr) as Hno.
      rewrite <- app_assoc in Hno. exact Hno.
Qed.

(** A match that nothing precedes, preferred at its position, is the one
    the search returns. *)
Lemma search_complete skipped : forall before rest base extra after,
  MatchHere (last (before ++ skipped)) rest base extra after ->
  (forall skipped' rest' base' extra' after',
     skipped ++ rest = skipped' ++ rest' ->
     MatchHere (last (before ++ skipped')) rest' base' extra' after' ->
     (length skipped <= length skipped')%nat) ->
  (extra = None ->
   forall base' extra' after',
     ~ MatchHere (last (before ++ skipped)) rest base' (Some extra') after') ->
  search (last before) (skipped ++ rest) = Some (base, extra).
Proof.
  induction skipped as [|c skipped IH]; intros before rest base extra after Hm Hmin Hpref;
    rewrite search_unfold.
  - rewrite app_nil_r in Hm, Hpref. simpl.
    pose proof (matchHere_complete _ _ _ _ _ Hm) as Hc.
    destruct extra as [e|]; [rewrite Hc; reflexivity|].
    destruct Hc as [x Hx]. rewrite Hx. destruct x as [e'|]; [|reflexivity].
    exfalso. destruct (matchHere_sound _ _ _ _ Hx) as [after' Hm'].
    exact (Hpref eq_refl _ _ _ Hm').
  - destruct (matchHere (last before) ((c :: skipped) ++ rest)) as [[base' extra']|] eqn:E.
    + exfalso. destruct (matchHere_sound _ _ _ _ E) as [after' Hm'].
      assert (H : (length (c :: skipped) <= length (@nil ascii))%nat).
      { apply (Hmin [] ((c :: skipped) ++ rest) base' extra' after'); [reflexivity|].
        rewrite app_nil_r. exact Hm'. }
      simpl in H. lia.
    + simpl. rewrite <- (last_snoc c before).
      apply (IH (before ++ [c]) rest base extra after).
      * rewrite <- app_assoc. exact Hm.
      * intros skipped' rest' base' extra' after' Hsplit Hm'.
        rewrite <- app_assoc in Hm'.
        assert (H : (length (c :: skipped) <= length (c :: skipped'))%nat).
        { apply (Hmin (c :: skipped') rest' base' extra' after'); [simpl; congruence|exact Hm']. }
        simpl in H. lia.
      * rewrite <- app_assoc. exact Hpref.
Qed.

Lemma exec_complete title base extra :
  FirstMatch title base extra -> exec title = Some (base, extra).
Proof.
  intros (before & rest & after & Hsplit & Hm & Hmin & Hpref).
  unfold exec. rewrite Hsplit.
  apply (search_complete before [] rest base extra after); simpl; try assumption.
  intros skipped' rest' base' extra' after' Hsplit'. apply Hmin. congruence.
Qed.

Lemma exec_first title base extra :
  exec title = Some (base, extra) -> FirstMatch title base extra.
Proof.
  unfold exec. intros H.
  destruct (search_first (units title) [] base extra H)
    as (skipped & rest & after & Hsplit & Hm & Hmin & Hpref).
  exists skipped, rest, after. simpl in Hm, Hmin, Hpref. auto.
Qed.

Lemma exec_none title : exec title = None -> NoMatch title.
Proof.
  unfold exec. intros H before rest base extra after Hsplit.
  exact (search_none (units title) [] H before rest base extra after Hsplit).
Qed.

Lemma SpecToken_teeThenDigit title base extra :
  SpecToken title base extra -> teeThenDigit (units title) = true.
Proof.
  intros (before & after & t & Ht & Hb & Hsplit).
  destruct (head_digitRun base Hb) as (d & r & -> & Hd).
  assert (H : exists tail, units title = before ++ t :: d :: tail).
  { destruct extra as [e|]; [destruct Hsplit as [_ Hsplit]|]; rewrite Hsplit; eexists; reflexivity. }
  destruct H as [tail ->]. clear Hsplit.
  induction before as [|c before IH]; simpl.
  - rewrite Ht, Hd. reflexivity.
  - rewrite IH. apply orb_true_r.
Qed.

End SearchProofs.

Lemma roundToDouble_small n : 0 <= n < 2 ^ 53 -> roundToDouble n = n.
Proof.
  intros [H0 H]. unfold roundToDouble. cbv zeta.
  destruct (Z.eq_dec n 0) as [->|Hn]; [reflexivity|].
  assert (Hlog : Z.log2 n < 53) by (apply Z.log2_lt_pow2; lia).
  destruct (Z.leb_spec (Z.log2 n + 1) 53); [reflexivity|lia].
Qed.

(** Below 2^53 a natural number is printed as its decimal numeral. *)
Lemma integerToString_small n :
  0 <= n < 2 ^ 53 -> integerToString n = NilZero.string_of_int (Z.to_int n).
Proof.
  intros H. unfold integerToString. cbv zeta.
  rewrite Z.abs_eq by lia. rewrite (roundToDouble_small n H).
  destruct (Z.ltb_spec n (2 ^ 53)); [|lia].
  replace (Z.sgn n * n) with n by (destruct n; simpl; lia). reflexivity.
Qed.

Lemma mathRound_nonneg q : (0 <= q)%Qc -> 0 <= mathRound q.
Proof.
  intros Hq. unfold mathRound. change 0 with (Qfloor 0).
  apply Qfloor_resp_le. unfold Qcle in Hq.
  change (this (Q2Qc 0)) with 0%Q in Hq.
  apply Qle_trans with (this q); [exact Hq|].
  rewrite <- (Qplus_0_r (this q)) at 1. apply Qplus_le_r. discriminate.
Qed.

(** C5, as stated, fails: the title ["t 4 + 1"] has no "t" directly followed
    by a digit, so the rule as worded gives ["Unknown"] for it when there
    are no bedrooms; the code returns ["T4+1"]. *)
Lemma C5_spaced_token_is_recognised :
  inferTypologyLabel None (Some "t 4 + 1") = "T4+1" /\
  ~ inferAsSpecified None "t 4 + 1".
Proof.
  split; [vm_compute; reflexivity|].
  intros [_ H].
  assert (Hno : ~ (exists base extra, SpecToken "t 4 + 1" base extra)).
  { intros (base & extra & Hs). apply SpecToken_teeThenDigit in Hs.
    vm_compute in Hs. discriminate Hs. }
  specialize (H Hno). vm_compute in H. discriminate H.
Qed.

(** C5 (amended): [infer(title, bedrooms)] is [T<base>] or
    [T<base>+<extra>] for the leftmost match in the title of: "T" or "t" at a
    word boundary, optional white space, 1-2 digits, optionally (optional
    white space, "+", optional white space, 1-2 digits), ending at a word
    boundary; the optional part is taken when it can be, and this branch
    does not look at the bedrooms.  When the title has no such match the
    label is [T<round(bedrooms)>] for a finite non-negative number of
    bedrooms, and ["Unknown"] otherwise.  The rounded number is printed as
    JavaScript prints a number: below 2^53 this is its decimal numeral, and
    from there to 10^21 the shortest decimal that denotes the same number,
    followed by zeros ([T1152921504606847000] for 2^60 bedrooms); from
    10^21 on JavaScript prints an exponent and nothing is stated.  The
    first clause says that such a match decides the label, the second that
    one of the three cases always applies; the three examples hold, and
    the one of 2^60 bedrooms. *)
Theorem C5_inferTypologyLabel_spec :
  (forall (bedrooms : option JsNumber) (title : option string) base extra,
     TypologyPattern.FirstMatch (default "" title) base extra ->
     inferTypologyLabel bedrooms title = typologyOfCaptures (base, extra)) /\
  (forall (bedrooms : option JsNumber) (title : option string),
     let raw := default "" title in
     (exists base extra,
        TypologyPattern.FirstMatch raw base extra /\
        inferTypologyLabel bedrooms title = typologyOfCaptures (base, extra)) \/
     (TypologyPattern.NoMatch raw /\
      exists q,
        bedrooms = Some (Finite q) /\ (0 <= q)%Qc /\
        (mathRound q < 10 ^ 21 ->
         inferTypologyLabel bedrooms title = "T" +:+ integerToString (mathRound q)) /\
        (mathRound q < 2 ^ 53 ->
         inferTypologyLabel bedrooms title =
         "T" +:+ NilZero.string_of_int (Z.to_int (mathRound q)))) \/
     (TypologyPattern.NoMatch raw /\
      (forall q, bedrooms = Some (Finite q) -> ~ (0 <= q)%Qc) /\
      inferTypologyLabel bedrooms title = "Unknown")) /\
  inferTypologyLabel None (Some "T3+1 apartment in center") = "T3+1" /\
  inferTypologyLabel (Some (Finite (Q2Qc 2))) (Some "Nice flat") = "T2" /\
  inferTypologyLabel None (Some "Nice flat") = "Unknown" /\
  inferTypologyLabel (Some (Finite (Q2Qc (inject_Z (2 ^ 60))))) (Some "Nice flat") =
    "T1152921504606847000".
Proof.
  split.
  { intros bedrooms title base extra H. unfold inferTypologyLabel.
    rewrite (exec_complete _ _ _ H). reflexivity. }
  split; [|vm_compute; auto].
  intros bedrooms title raw. unfold inferTypologyLabel. fold raw.
  destruct (TypologyRegex.exec raw) as [[base extra]|] eqn:E.
  - left. exists base, extra. split; [apply exec_first, E|reflexivity].
  - right. apply exec_none in E.
    destruct bedrooms as [[| | |q]|];
      try (right; split; [exact E|]; split; [intros q' [=]|reflexivity]).
    simpl. destruct (Qle_bool 0 q) eqn:Eq.
    + left. split; [exact E|]. exists q. split; [reflexivity|].
      assert (Hq : (0 <= q)%Qc) by (unfold Qcle; apply Qle_bool_iff, Eq).
      split; [exact Hq|]. split; [auto|].
      intros Hsmall. rewrite integerToString_small; [reflexivity|].
      split; [apply mathRound_nonneg, Hq|exact Hsmall].
    + right. split; [exact E|]. split; [|reflexivity].
      intros q' [= <-] Hq. unfold Qcle in Hq. apply Qle_bool_iff in Hq.
      change (Qle_bool 0 q = true) in Hq. congruence.
Qed.

(** A spaced token in the middle of a title, bedrooms present. *)
Lemma C5_inferTypologyLabel_spec_witness :
  TypologyPattern.FirstMatch "flat t 4 + 1." ["4"%char] (Some ["1"%char]) /\
  inferTypologyLabel (Some (Finite (Q2Qc (5 # 2)))) (Some "flat t 4 + 1.") = "T4+1".
Proof.
  assert (H : TypologyPattern.FirstMatch "flat t 4 + 1." ["4"%char] (Some ["1"%char])).
  { apply exec_first. vm_compute. reflexivity. }
  split; [exact H|].
  exact (proj1 C5_inferTypologyLabel_spec
           (Some (Finite (Q2Qc (5 # 2)))) (Some "flat t 4 + 1.") _ _ H).
Defined.

(** ** Drill-down *)

(** A drill-down scan over a stable store, started at page [k], returns the
    accepted rows from page [k] on. *)
Lemma scanPages_stable byId bySeen keep pageSize :
  0 < pageSize ->
  forall fuel k out,
    0 <= k ->
    k * pageSize <= Z.of_nat (length bySeen) ->
    Z.of_nat (length bySeen) / pageSize - k < Z.of_nat fuel ->
    scanPages fuel (stableStore byId bySeen) keep pageSize (k * pageSize) out =
    Returned (out ++ map normalizeDashboardRow
                       (List.filter keep (drop (Z.to_nat (k * pageSize)) bySeen))).
Proof.
  intros HP. set (N := Z.of_nat (length bySeen)).
  induction fuel as [|fuel IH]; intros k out Hk HkN Hfuel.
  - assert (k <= N / pageSize) by (apply Z.div_le_lower_bound; lia). lia.
  - assert (Hkq : k <= N / pageSize) by (apply Z.div_le_lower_bound; lia).
    cbn [scanPages stableStore rangeByLastSeen q_error q_data default from_option id].
    unfold slice.
    replace (k * pageSize + pageSize - 1 <? k * pageSize)%Z with false
      by (symmetry; apply Z.ltb_ge; lia).
    replace (k * pageSize + pageSize - 1 - k * pageSize + 1) with pageSize by lia.
    set (o := Z.to_nat (k * pageSize)). set (p := Z.to_nat pageSize).
    assert (Hlen : length (take p (drop o bySeen)) = Nat.min p (length bySeen - o))
      by (rewrite length_take, length_drop; reflexivity).
    destruct (Z.of_nat (length (take p (drop o bySeen))) <? pageSize)%Z eqn:E1.
    + apply Z.ltb_lt in E1.
      rewrite (take_ge (drop o bySeen) p) by (rewrite length_drop; lia). reflexivity.
    + apply Z.ltb_ge in E1.
      assert (HkN' : (k + 1) * pageSize <= N) by (unfold N; lia).
      replace (k * pageSize + pageSize) with ((k + 1) * pageSize) by lia.
      rewrite (IH (k + 1)) by lia. f_equal.
      rewrite <- app_assoc, <- List.map_app, <- List.filter_app. do 3 f_equal.
      replace (Z.to_nat ((k + 1) * pageSize)) with (o + p)%nat by lia.
      rewrite <- drop_drop. apply take_drop.
Qed.

Lemma scan_stable_from_start byId bySeen keep pageSize fuel :
  0 < pageSize ->
  Z.of_nat (length bySeen) / pageSize < Z.of_nat fuel ->
  scanPages fuel (stableStore byId bySeen) keep pageSize 0 [] =
  Returned (map normalizeDashboardRow (List.filter keep bySeen)).
Proof.
  intros HP Hfuel.
  pose proof (scanPages_stable byId bySeen keep pageSize HP fuel 0 []) as H.
  change (0 * pageSize) with 0 in H. rewrite Z.sub_0_r in H.
  change (Z.to_nat 0) with 0%nat in H. rewrite drop_0 in H.
  apply H; lia.
Qed.

Lemma countWhere_Permutation key p rows1 rows2 :
  Permutation rows1 rows2 -> countWhere key p rows1 = countWhere key p rows2.
Proof.
  unfold countWhere. induction 1 as [|x l1 l2 _ IH|x y l|l1 l2 l3 _ IH1 _ IH2]; simpl.
  - reflexivity.
  - destruct (p (key x)); simpl; lia.
  - destruct (p (key x)), (p (key y)); simpl; lia.
  - lia.
Qed.

Lemma groupTotal_positive p buckets :
  0 < groupTotal p buckets -> exists b, In b buckets /\ p (group_key b) = true.
Proof.
  unfold groupTotal. induction buckets as [|b buckets IH]; simpl; [lia|].
  destruct (p (group_key b)) eqn:E; [eauto|].
  intros H. destruct (IH H) as (b' & Hin & Hp). eauto.
Qed.

Lemma countWhere_member key p rows row :
  In row rows -> p (key row) = true -> 0 < countWhere key p rows.
Proof.
  unfold countWhere. induction rows as [|x rows IH]; simpl; [intros []|].
  intros [->|Hin] Hp.
  - rewrite Hp. simpl. lia.
  - destruct (p (key x)); simpl; [lia|]. auto.
Qed.

Lemma filter_ext_members {A} (f g : A -> bool) l :
  (forall x, In x l -> f x = g x) -> List.filter f l = List.filter g l.
Proof.
  induction l as [|x l IH]; simpl; intros H; [reflexivity|].
  rewrite (H x (or_introl eq_refl)), IH; auto.
Qed.

Section LabelShape.
Import Chars TypologyRegex TypologyPattern.

Lemma units_append a b : units (a +:+ b) = units a ++ units b.
Proof. induction a as [|c a IH]; simpl; [reflexivity|]. unfold units in *. simpl. rewrite IH. reflexivity. Qed.

Lemma units_ofUnits l : units (ofUnits l) = l.
Proof. apply list_ascii_of_string_of_list_ascii. Qed.

Lemma ofUnits_units s : ofUnits (units s) = s.
Proof. apply string_of_list_ascii_of_string. Qed.

Lemma digit_plain c : isDigit c = true -> plainUnit c.
Proof.
  destruct c as [[|] [|] [|] [|] [|] [|] [|] [|]]; vm_compute; intros H;
    try discriminate H; split; reflexivity.
Qed.

Lemma uint_plain d : Forall plainUnit (units (NilEmpty.string_of_uint d)).
Proof.
  induction d; simpl; try constructor; try assumption;
    apply digit_plain; reflexivity.
Qed.

Lemma integerToString_plain n : Forall plainUnit (units (integerToString n)).
Proof.
  unfold integerToString. cbv zeta.
  generalize (Z.sgn n *
              (if (roundToDouble (Z.abs n) <? 2 ^ 53)%Z
               then roundToDouble (Z.abs n)
               else shortestDecimal (roundToDouble (Z.abs n)) (map Z.of_nat (seq 1 21)))).
  clear n. intros n. unfold NilZero.string_of_int.
  assert (H : forall d, Forall plainUnit (units (NilZero.string_of_uint d))).
  { intros d. unfold NilZero.string_of_uint.
    destruct d; try apply uint_plain.
    repeat constructor; reflexivity. }
  destruct (Z.to_int n) as [d|d]; [apply H|].
  change (units (String "-" (NilZero.string_of_uint d)))
    with ("-"%char :: units (NilZero.string_of_uint d)).
  constructor; [split; reflexivity|apply H].
Qed.

Lemma plain_upper l : Forall plainUnit l -> concat (map upperUnit l) = l.
Proof.
  induction 1 as [|c l [_ Hc] _ IH]; simpl; [reflexivity|].
  rewrite Hc, IH. reflexivity.
Qed.

Lemma plain_dropSpaces l : Forall plainUnit l -> dropSpaces l = l.
Proof. destruct 1 as [|c l [Hc _] _]; simpl; [reflexivity|]. rewrite Hc. reflexivity. Qed.

Lemma plain_trim l : Forall plainUnit l -> trimUnits l = l.
Proof.
  intros H. unfold trimUnits. rewrite (plain_dropSpaces l H).
  rewrite plain_dropSpaces by (apply List.Forall_rev, H).
  apply rev_involutive.
Qed.

Lemma tee_plain : plainUnit "T"%char.
Proof. split; reflexivity. Qed.

Lemma shape_upper_trim label :
  typologyShape label -> toUpperCase (trim label) = toUpperCase label.
Proof.
  intros [->|(rest & Hu & Hrest)]; [vm_compute; reflexivity|].
  unfold trim. rewrite Hu, plain_trim by (constructor; [apply tee_plain|exact Hrest]).
  rewrite <- Hu, ofUnits_units. reflexivity.
Qed.

Lemma shape_upper label :
  typologyShape label -> label = "Unknown" \/ toUpperCase label = label.
Proof.
  intros [->|(rest & Hu & Hrest)]; [left; reflexivity|right].
  unfold toUpperCase. rewrite Hu, plain_upper by (constructor; [apply tee_plain|exact Hrest]).
  rewrite <- Hu. apply ofUnits_units.
Qed.

Lemma shape_upper_injective a b :
  typologyShape a -> typologyShape b -> toUpperCase a = toUpperCase b -> a = b.
Proof.
  intros Ha Hb Heq.
  destruct (shape_upper a Ha) as [->|Ua], (shape_upper b Hb) as [->|Ub]; try congruence.
  - rewrite Ub in Heq. destruct Hb as [->|(rest & Hu & _)]; [reflexivity|].
    rewrite <- Heq in Hu. vm_compute in Hu. discriminate Hu.
  - rewrite Ua in Heq. destruct Ha as [->|(rest & Hu & _)]; [reflexivity|].
    rewrite Heq in Hu. vm_compute in Hu. discriminate Hu.
Qed.

Lemma captures_shape title base extra :
  FirstMatch title base extra -> typologyShape (typologyOfCaptures (base, extra)).
Proof.
  intros (before & rest & after & _ & (t & ws1 & _ & _ & [Hb _] & _ & Hm) & _).
  right. unfold typologyOfCaptures. destruct extra as [e|].
  - destruct Hm as (ws2 & ws3 & _ & _ & [He _] & _).
    exists (base ++ "+"%char :: e). split.
    + rewrite !units_append, !units_ofUnits. reflexivity.
    + apply List.Forall_app. split.
      * eapply List.Forall_impl; [|exact Hb]. apply digit_plain.
      * constructor; [split; reflexivity|].
        eapply List.Forall_impl; [|exact He]. apply digit_plain.
  - exists base. split.
    + rewrite units_append, units_ofUnits. reflexivity.
    + eapply List.Forall_impl; [|exact Hb]. apply digit_plain.
Qed.

Lemma infer_shape bedrooms title : typologyShape (inferTypologyLabel bedrooms title).
Proof.
  unfold inferTypologyLabel.
  destruct (exec (default "" title)) as [[base extra]|] eqn:E.
  - eapply captures_shape, exec_first, E.
  - destruct bedrooms as [[| | |q]|]; try (left; reflexivity).
    destruct (finiteNonNegative (Finite q)); [|left; reflexivity].
    right. exists (units (integerToString (mathRound q))). split.
    + rewrite units_append. reflexivity.
    + apply integerToString_plain.
Qed.

Lemma matchesTypology_exact bedrooms title row :
  matchesTypology (inferTypologyLabel bedrooms title) row =
  String.eqb (rowTypology row) (inferTypologyLabel bedrooms title).
Proof.
  unfold matchesTypology. rewrite shape_upper_trim by apply infer_shape.
  destruct (String.eqb_spec (toUpperCase (rowTypology row))
                            (toUpperCase (inferTypologyLabel bedrooms title))) as [H|H];
    destruct (String.eqb_spec (rowTypology row) (inferTypologyLabel bedrooms title)) as [H'|H'];
    try reflexivity.
  - exfalso. apply H'. apply shape_upper_injective; auto using infer_shape.
    unfold rowTypology. apply infer_shape.
  - exfalso. apply H. rewrite H'. reflexivity.
Qed.

End LabelShape.

Lemma locationPartByLevel_regionKey adminIndex level row :
  locationPartByLevel (row_location_text row) level adminIndex =
  normalizeLocationPart (regionKey adminIndex level row).
Proof. destruct level; reflexivity. Qed.

(** C2, as stated, fails: with the district of Lisbon spelled ["LISBOA"] on
    a parish record and ["Lisboa"] on a municipality record, the aggregation
    has a bucket ["Lisboa"] of count 1, and the drill-down for that label
    returns two rows. *)
Lemma C2_drilldown_merges_colliding_labels :
  returnedBucketTotal LevelDistrict "Lisboa"
    (snd (getImportDashboardMetrics codeUnitCompare 1
            (stableStore lisboa_rows lisboa_rows) lisboa_index)) = Some 1 /\
  returnedBucketTotal LevelDistrict "LISBOA"
    (snd (getImportDashboardMetrics codeUnitCompare 1
            (stableStore lisboa_rows lisboa_rows) lisboa_index)) = Some 1 /\
  returnedIds (getDashboardListingsByRegion 1 (stableStore lisboa_rows lisboa_rows)
                 lisboa_index LevelDistrict "Lisboa") = Some ["1"; "2"].
Proof. vm_compute. repeat split; reflexivity. Qed.

(** C2 (amended): over a stable listing set, for every level and label the
    region drill-down returns exactly the rows whose resolved label at that
    level, null rendered as ["Unknown"], normalises to the normalised query
    (the empty query standing for ["Unknown"]); their number is the sum of
    the [total_count]s of all buckets of that level whose labels normalise to
    it, and it is the queried bucket's own rows and [total_count] when no
    other bucket label of the level normalises like the query.  The typology
    drill-down returns exactly the rows whose inferred typology equals the
    trimmed query up to case; for a label the inferrer produces these are
    the rows of that bucket, as many as its [total_count]. *)
Theorem C2_drilldown_matches_buckets :
  forall (localeCompare : string -> string -> Z) (adminIndex : PortugalAdminIndex)
         (byId byLastSeen : list ListingRow) (pageSize drillPageSize : Z)
         (fuel drillFuel : nat),
    Permutation byId byLastSeen ->
    0 < pageSize -> 0 < drillPageSize ->
    Z.of_nat (length byId) / pageSize < Z.of_nat fuel ->
    Z.of_nat (length byId) / drillPageSize < Z.of_nat drillFuel ->
    let store := stableStore byId byLastSeen in
    exists m,
      snd (importDashboardMetrics localeCompare fuel store adminIndex pageSize) = Returned m /\
      (forall level label,
         dashboardListingsByRegion drillFuel store adminIndex drillPageSize level label =
           Returned (rowsOfRegion adminIndex level label byLastSeen) /\
         Z.of_nat (length (rowsOfRegion adminIndex level label byLastSeen)) =
           groupTotal
             (fun k => String.eqb (normalizeLocationPart k)
                         (normalizeLocationPart (if nonEmpty label then label else "Unknown")))
             (regionsAt level m) /\
         (nonEmpty label = true ->
          (forall b, In b (regionsAt level m) ->
                     normalizeLocationPart (group_key b) = normalizeLocationPart label ->
                     group_key b = label) ->
          rowsOfRegion adminIndex level label byLastSeen =
            rowsOfBucket (regionKey adminIndex level) label byLastSeen /\
          Z.of_nat (length (rowsOfRegion adminIndex level label byLastSeen)) =
            bucketTotal label (regionsAt level m))) /\
      (forall label,
         dashboardListingsByTypology drillFuel store drillPageSize label =
           Returned (map normalizeDashboardRow
                       (List.filter
                          (fun row => String.eqb (toUpperCase (rowTypology row))
                                                 (toUpperCase (trim label)))
                          byLastSeen)) /\
         ((exists bedrooms title, label = inferTypologyLabel bedrooms title) ->
          dashboardListingsByTypology drillFuel store drillPageSize label =
            Returned (rowsOfBucket rowTypology label byLastSeen) /\
          Z.of_nat (length (rowsOfBucket rowTypology label byLastSeen)) =
            bucketTotal label (typologies m))).
Proof.
  intros lc adminIndex byId bySeen pageSize drillPageSize fuel drillFuel
         HP Hps Hdps Hfuel Hdfuel store.
  assert (Hdfuel' : Z.of_nat (length bySeen) / drillPageSize < Z.of_nat drillFuel)
    by (rewrite <- (Permutation_length HP); exact Hdfuel).
  unfold importDashboardMetrics, store.
  rewrite aggregate_stable_from_start by assumption.
  eexists. split; [reflexivity|].
  destruct (fold_accounted adminIndex byId [] emptyAggState (empty_accounted adminIndex))
    as (_ & Hd & Hm & Hp & Hy).
  simpl in Hd, Hm, Hp, Hy.
  destruct (sorted_accounts (compareRegions lc) _ _ _ Hd) as (_ & Cd & _).
  destruct (sorted_accounts (compareRegions lc) _ _ _ Hm) as (_ & Cm & _).
  destruct (sorted_accounts (compareRegions lc) _ _ _ Hp) as (_ & Cp & _).
  destruct (sorted_accounts (compareTypologies lc) _ _ _ Hy) as (_ & Cy & _).
  set (M := metricsOfState lc (fold_left (processRow adminIndex) byId emptyAggState)).
  assert (HC : forall level p,
      groupTotal p (regionsAt level M) = countWhere (regionKey adminIndex level) p bySeen).
  { intros level p. rewrite <- (countWhere_Permutation _ p _ _ HP).
    destruct level; simpl; unfold sortRegions; auto. }
  assert (HT : forall p, groupTotal p (typologies M) = countWhere rowTypology p bySeen).
  { intros p. rewrite <- (countWhere_Permutation _ p _ _ HP).
    simpl; unfold sortTypologies; auto. }
  split.
  - intros level label.
    assert (Hlen : forall q,
        Z.of_nat (length (map normalizeDashboardRow
          (List.filter (fun row => q (regionKey adminIndex level row)) bySeen))) =
        groupTotal q (regionsAt level M))
      by (intros q; rewrite HC, length_map; reflexivity).
    split; [|split].
    + unfold dashboardListingsByRegion.
      rewrite scan_stable_from_start by assumption.
      unfold rowsOfRegion. do 2 f_equal. apply List.filter_ext. intros row.
      unfold matchesRegion. rewrite locationPartByLevel_regionKey. reflexivity.
    + unfold rowsOfRegion.
      apply (Hlen (fun k => String.eqb (normalizeLocationPart k)
                 (normalizeLocationPart (if nonEmpty label then label else "Unknown")))).
    + intros Hne Hcollision.
      assert (Heq : rowsOfRegion adminIndex level label bySeen =
                    rowsOfBucket (regionKey adminIndex level) label bySeen).
      { unfold rowsOfRegion, rowsOfBucket. f_equal. rewrite Hne.
        apply filter_ext_members. intros row Hin.
        destruct (String.eqb_spec (regionKey adminIndex level row) label) as [->|Hdiff].
        - apply String.eqb_refl.
        - apply String.eqb_neq. intros Hnorm. apply Hdiff.
          destruct (groupTotal_positive
                      (fun k => String.eqb k (regionKey adminIndex level row))
                      (regionsAt level M)) as (b & Hb & Hkey).
          { rewrite HC. eapply countWhere_member; [exact Hin|apply String.eqb_refl]. }
          apply String.eqb_eq in Hkey. rewrite <- Hkey.
          apply Hcollision; [exact Hb|congruence]. }
      split; [exact Heq|].
      rewrite Heq. unfold rowsOfBucket, bucketTotal.
      apply (Hlen (fun k => String.eqb k label)).
  - intros label. split.
    + unfold dashboardListingsByTypology.
      rewrite scan_stable_from_start by assumption. reflexivity.
    + intros (bedrooms & title & ->).
      unfold dashboardListingsByTypology.
      rewrite scan_stable_from_start by assumption.
      split.
      * unfold rowsOfBucket. do 2 f_equal. apply List.filter_ext. intros row.
        apply matchesTypology_exact.
      * unfold rowsOfBucket, bucketTotal. rewrite HT, length_map. reflexivity.
Qed.

(** The district bucket ["Porto"] of the three sample listings, scanned
    one row per page in the opposite order. *)
Lemma C2_drilldown_matches_buckets_witness :
  exists m,
    snd (importDashboardMetrics codeUnitCompare 2 (stableStore sample_rows (rev sample_rows))
           porto_index 2) = Returned m /\
    dashboardListingsByRegion 4 (stableStore sample_rows (rev sample_rows)) porto_index 1
      LevelDistrict "Porto" =
      Returned (rowsOfRegion porto_index LevelDistrict "Porto" (rev sample_rows)) /\
    returnedIds (dashboardListingsByRegion 4 (stableStore sample_rows (rev sample_rows))
                   porto_index 1 LevelDistrict "Porto") = Some ["2"; "1"] /\
    Z.of_nat (length (rowsOfRegion porto_index LevelDistrict "Porto" (rev sample_rows))) =
      bucketTotal "Porto" (regionsAt LevelDistrict m).
Proof.
  destruct (C2_drilldown_matches_buckets codeUnitCompare porto_index
              sample_rows (rev sample_rows) 2 1 2 4)
    as (m & Hm & Hregion & _).
  - apply Permutation_rev.
  - lia.
  - lia.
  - vm_compute. reflexivity.
  - vm_compute. reflexivity.
  - exists m. split; [exact Hm|].
    destruct (Hregion LevelDistrict "Porto") as (Hscan & _ & Hexact).
    split; [exact Hscan|]. split; [vm_compute; reflexivity|].
    apply Hexact; [reflexivity|].
    intros b Hb.
    assert (Hkeys : Forall (fun b => normalizeLocationPart (group_key b) = "porto" ->
                                     group_key b = "Porto")
                           (regionsAt LevelDistrict m)).
    { assert (Hm' : m = metricsOfState codeUnitCompare
                          (fold_left (processRow porto_index) sample_rows emptyAggState)).
      { revert Hm. unfold importDashboardMetrics.
        rewrite aggregate_stable_from_start by (try lia; vm_compute; reflexivity).
        simpl. congruence. }
      rewrite Hm'. vm_compute. repeat constructor; intros H; try reflexivity; discriminate H. }
    intros Hnorm. apply (proj1 (List.Forall_forall _ _) Hkeys b Hb).
    rewrite Hnorm. vm_compute. reflexivity.
Defined.

(** * Further properties of the code *)

(** ** The aggregation pass: errors and page size *)

Lemma aggregatePages_error adminIndex : forall fuel store pageSize offset st requests outcome,
  aggregatePages fuel store adminIndex pageSize offset st = (requests, outcome) ->
  forall request message,
    In request requests ->
    q_error (answerTo store request) = Some message ->
    outcome = Thrown message.
Proof.
  unfold answerTo.
  induction fuel as [|fuel IH]; intros store pageSize offset st requests outcome; simpl.
  - intros [= <- _] request message [].
  - destruct (q_error (rangeById store offset (offset + pageSize - 1))) as [m|] eqn:Eerr.
    + intros [= <- <-] request message [<-|[]]. simpl. congruence.
    + destruct (Z.of_nat (length _) =? 0).
      { intros [= <- _] request message [<-|[]]. simpl. congruence. }
      destruct (Z.of_nat (length _) <? pageSize)%Z.
      { intros [= <- _] request message [<-|[]]. simpl. congruence. }
      destruct (aggregatePages fuel store adminIndex pageSize (offset + pageSize) _)
        as [requests' outcome'] eqn:E.
      intros [= <- <-] request message [<-|Hin]; [simpl; congruence|].
      eapply IH; eassumption.
Qed.

(** X1: when the listing store answers one of the pages of the aggregation
    with an error, [getImportDashboardMetrics] throws that error's message:
    no metrics are returned from the pages read before. *)
Theorem X1_aggregation_rethrows_store_error :
  forall (localeCompare : string -> string -> Z) (fuel : nat) (store : ListingStore)
         (adminIndex : PortugalAdminIndex) (pageSize : Z) (request : Z * Z) (message : string),
    In request (fst (importDashboardMetrics localeCompare fuel store adminIndex pageSize)) ->
    q_error (answerTo store request) = Some message ->
    snd (importDashboardMetrics localeCompare fuel store adminIndex pageSize) = Thrown message.
Proof.
  intros lc fuel store adminIndex pageSize request message.
  unfold importDashboardMetrics.
  destruct (aggregatePages fuel store adminIndex pageSize 0 emptyAggState)
    as [requests outcome] eqn:E.
  simpl. intros Hin Herr.
  rewrite (aggregatePages_error _ _ _ _ _ _ _ _ E request message Hin Herr). reflexivity.
Qed.

(** Three listings in pages of two, the store failing from the third row on. *)
Lemma X1_aggregation_rethrows_store_error_witness :
  importDashboardMetrics codeUnitCompare 5 (failingFrom sample_rows 2 "timeout") porto_index 2 =
  ([(0, 1); (2, 3)], Thrown "timeout").
Proof.
  assert (Hreq : fst (importDashboardMetrics codeUnitCompare 5
                        (failingFrom sample_rows 2 "timeout") porto_index 2) = [(0, 1); (2, 3)])
    by (vm_compute; reflexivity).
  pose proof (X1_aggregation_rethrows_store_error codeUnitCompare 5
                (failingFrom sample_rows 2 "timeout") porto_index 2 (2, 3) "timeout") as H.
  rewrite Hreq in H.
  specialize (H (or_intror (or_introl eq_refl)) eq_refl).
  rewrite (surjective_pairing (importDashboardMetrics _ _ _ _ _)), Hreq, H. reflexivity.
Defined.

(** X2: over a stable listing set the result of the aggregation is the same
    for every positive page size (given fuel for the pages), and so is the
    result of each drill-down. *)
Theorem X2_results_do_not_depend_on_page_size :
  forall (localeCompare : string -> string -> Z) (adminIndex : PortugalAdminIndex)
         (byId byLastSeen : list ListingRow) (p1 p2 : Z) (fuel1 fuel2 : nat),
    0 < p1 -> 0 < p2 ->
    Z.of_nat (length byId) / p1 < Z.of_nat fuel1 ->
    Z.of_nat (length byId) / p2 < Z.of_nat fuel2 ->
    Z.of_nat (length byLastSeen) / p1 < Z.of_nat fuel1 ->
    Z.of_nat (length byLastSeen) / p2 < Z.of_nat fuel2 ->
    let store := stableStore byId byLastSeen in
    snd (importDashboardMetrics localeCompare fuel1 store adminIndex p1) =
    snd (importDashboardMetrics localeCompare fuel2 store adminIndex p2) /\
    (forall level label,
       dashboardListingsByRegion fuel1 store adminIndex p1 level label =
       dashboardListingsByRegion fuel2 store adminIndex p2 level label) /\
    (forall label,
       dashboardListingsByTypology fuel1 store p1 label =
       dashboardListingsByTypology fuel2 store p2 label).
Proof.
  intros lc adminIndex byId bySeen p1 p2 fuel1 fuel2 H1 H2 F1 F2 G1 G2 store.
  unfold store, importDashboardMetrics, dashboardListingsByRegion, dashboardListingsByTypology.
  rewrite !aggregate_stable_from_start by assumption.
  split; [reflexivity|].
  split; intros; rewrite !scan_stable_from_start by assumption; reflexivity.
Qed.

(** Three listings read in pages of one and of five thousand. *)
Lemma X2_results_do_not_depend_on_page_size_witness :
  snd (importDashboardMetrics codeUnitCompare 4 (stableStore sample_rows sample_rows)
         porto_index 1) =
  snd (getImportDashboardMetrics codeUnitCompare 1 (stableStore sample_rows sample_rows)
         porto_index).
Proof.
  apply (X2_results_do_not_depend_on_page_size codeUnitCompare porto_index
           sample_rows sample_rows 1 5000 4 1); try lia; vm_compute; reflexivity.
Defined.

(** ** The paged fetch of the public dataset *)

Lemma pageOffsets_cons first count :
  pageOffsets first (S count) = Route.LIMIT * first :: pageOffsets (first + 1) count.
Proof.
  unfold pageOffsets. simpl. rewrite Z.add_0_r. f_equal.
  rewrite <- seq_shift, List.map_map.
  apply List.map_ext. intros i.
  replace (first + Z.of_nat (S i)) with (first + 1 + Z.of_nat i) by lia.
  reflexivity.
Qed.

Lemma pagesRead_bounds count total :
  0 <= count ->
  1 <= pagesRead count total <= count / Route.LIMIT + 1.
Proof.
  intros Hc. unfold pagesRead.
  assert (0 <= count / Route.LIMIT) by (apply Z.div_pos; [lia|reflexivity]).
  destruct total; lia.
Qed.

Lemma fetchAllPages_paged rows total dataset : forall fuel page,
  0 <= page < pagesRead (Z.of_nat (length rows)) total ->
  pagesRead (Z.of_nat (length rows)) total - page <= Z.of_nat fuel ->
  Route.fetchAllPages fuel (pagedUpstream rows total) dataset
    (Route.LIMIT * page) (take (Z.to_nat (Route.LIMIT * page)) rows) =
  (pageOffsets page (Z.to_nat (pagesRead (Z.of_nat (length rows)) total - page)),
   Returned (take (Z.to_nat (Route.LIMIT * pagesRead (Z.of_nat (length rows)) total)) rows)).
Proof.
  set (count := Z.of_nat (length rows)).
  assert (Hcount : 0 <= count) by (unfold count; lia).
  pose proof (Z.div_mod count 100 ltac:(lia)) as Hdm.
  pose proof (Z.mod_pos_bound count 100 ltac:(lia)) as Hmod.
  assert (Htotal : forall t, total = Some t ->
            100 * ceilDiv t 100 <= t + 99 < 100 * ceilDiv t 100 + 100).
  { intros t _. unfold ceilDiv.
    pose proof (Z.div_mod (t + 100 - 1) 100 ltac:(lia)).
    pose proof (Z.mod_pos_bound (t + 100 - 1) 100 ltac:(lia)). lia. }
  assert (Hread : pagesRead count total =
                  match total with
                  | Some t => Z.min (count / 100 + 1) (Z.max 1 (ceilDiv t 100))
                  | None => count / 100 + 1
                  end) by reflexivity.
  induction fuel as [|fuel IH]; intros page Hpage Hfuel; [lia|].
  cbn [Route.fetchAllPages pagedUpstream Route.resp_ok Route.resp_json Route.resp_status
       Route.payload_results Route.payload_total_count negb default from_option id].
  set (rowsHere := take (Z.to_nat Route.LIMIT) (drop (Z.to_nat (Route.LIMIT * page)) rows)).
  assert (Hlen : Z.of_nat (length rowsHere) = Z.min 100 (count - 100 * page)).
  { unfold rowsHere, count, Route.LIMIT. rewrite length_take, length_drop.
    assert (100 * page <= Z.of_nat (length rows)) by (fold count; destruct total; lia).
    lia. }
  assert (Hout : take (Z.to_nat (Route.LIMIT * page)) rows ++ rowsHere =
                 take (Z.to_nat (Route.LIMIT * (page + 1))) rows).
  { unfold rowsHere. rewrite take_take_drop. f_equal. unfold Route.LIMIT. lia. }
  rewrite Hout.
  change Route.LIMIT with 100 in *.
  destruct (Z.of_nat (length rowsHere) <? 100)%Z eqn:Eshort.
  - apply Z.ltb_lt in Eshort.
    assert (Hlast : pagesRead count total = page + 1) by (destruct total; lia).
    rewrite Hlast. replace (page + 1 - page) with 1 by lia.
    change (Z.to_nat 1) with 1%nat. unfold pageOffsets. simpl.
    rewrite Z.add_0_r. reflexivity.
  - apply Z.ltb_ge in Eshort.
    destruct (match total with
              | Some t => (t <=? 100 * page + Z.of_nat (length rowsHere))%Z
              | None => false
              end) eqn:Estop.
    + destruct total as [t|]; [|discriminate].
      apply Z.leb_le in Estop. specialize (Htotal t eq_refl).
      assert (Hlast : pagesRead count (Some t) = page + 1) by lia.
      rewrite Hlast. replace (page + 1 - page) with 1 by lia.
      change (Z.to_nat 1) with 1%nat. unfold pageOffsets. simpl.
      rewrite Z.add_0_r. reflexivity.
    + assert (Hmore : page + 1 < pagesRead count total).
      { destruct total as [t|].
        - apply Z.leb_gt in Estop. specialize (Htotal t eq_refl). lia.
        - lia. }
      replace (100 * page + Z.of_nat (length rowsHere)) with (100 * (page + 1)) by lia.
      change 100 with Route.LIMIT.
      rewrite IH by (change Route.LIMIT with 100 in *; lia).
      replace (Z.to_nat (pagesRead count total - page))
        with (S (Z.to_nat (pagesRead count total - (page + 1)))) by lia.
      rewrite pageOffsets_cons. reflexivity.
Qed.

(** X3: against a service that holds [rows], serves them a hundred at a
    time and reports [total] as [total_count], [fetchAllPages] stops at the
    first short page or as soon as the offset reaches the reported total:
    it requests the offsets 0, 100, ... of [pagesRead] pages and returns
    the rows of these pages, in order.  The reported total counts as
    reached at [reachedAt total], the next multiple of 100.  When there are
    no more rows than that, or when no total is reported, every row is
    returned; when there are more, exactly the first [reachedAt total] rows
    are returned and the others are dropped. *)
Theorem X3_fetchAllPages_trusts_total_count :
  forall (rows : list Route.GeoRow) (total : option Z) (dataset : string) (fuel : nat),
    let pages := pagesRead (Z.of_nat (length rows)) total in
    let returned := take (Z.to_nat (Route.LIMIT * pages)) rows in
    pages <= Z.of_nat fuel ->
    Route.fetchAllPages fuel (pagedUpstream rows total) dataset 0 [] =
    (pageOffsets 0 (Z.to_nat pages), Returned returned) /\
    (match total with
     | Some t => Z.of_nat (length rows) <= reachedAt t
     | None => True
     end -> returned = rows) /\
    (forall t, total = Some t -> reachedAt t < Z.of_nat (length rows) ->
               Z.of_nat (length returned) = reachedAt t).
Proof.
  intros rows total dataset fuel pages returned Hfuel.
  pose proof (pagesRead_bounds (Z.of_nat (length rows)) total ltac:(lia)) as Hb.
  fold pages in Hb.
  set (count := Z.of_nat (length rows)) in *.
  pose proof (Z.div_mod count 100 ltac:(lia)) as Hdm.
  pose proof (Z.mod_pos_bound count 100 ltac:(lia)) as Hmod.
  assert (Hpages : pages = match total with
                           | Some t => Z.min (count / 100 + 1) (Z.max 1 (ceilDiv t 100))
                           | None => count / 100 + 1
                           end) by reflexivity.
  split; [|split].
  - pose proof (fetchAllPages_paged rows total dataset fuel 0) as H.
    fold count pages in H. rewrite Z.mul_0_r, Z.sub_0_r in H. simpl take in H.
    apply H; lia.
  - intros Htotal. apply take_ge.
    assert (count <= Route.LIMIT * pages); [|unfold count in *; lia].
    change Route.LIMIT with 100.
    destruct total as [t|]; [|lia].
    unfold reachedAt in Htotal. change Route.LIMIT with 100 in Htotal. lia.
  - intros t -> Hmore. unfold returned. rewrite length_take.
    unfold reachedAt in *. change Route.LIMIT with 100 in *. fold count. lia.
Qed.

(** ** Normalised keys *)

Ltac each_unit c := destruct c as [[|] [|] [|] [|] [|] [|] [|] [|]]; vm_compute; try reflexivity.

Lemma folded_single c :
  map lowerUnit (map ascii_of_N (stripCombining (nfdUnit c))) = [foldedUnit c].
Proof. each_unit c. Qed.

Lemma folded_idem c : foldedUnit (foldedUnit c) = foldedUnit c.
Proof. each_unit c. Qed.

Lemma folded_space c : Chars.isSpace (foldedUnit c) = Chars.isSpace c.
Proof. each_unit c. Qed.

Lemma folded_lower c : foldedUnit (lowerUnit c) = foldedUnit c.
Proof. each_unit c. Qed.


Lemma lower_space c : Chars.isSpace (lowerUnit c) = Chars.isSpace c.
Proof. each_unit c. Qed.

Lemma lower_idem c : lowerUnit (lowerUnit c) = lowerUnit c.
Proof. each_unit c. Qed.

Lemma blank_unit c : Chars.isSpace c = true -> (Chars.code c =? 32)%N = true -> c = " "%char.
Proof. each_unit c; discriminate. Qed.

Lemma lowered_folded l :
  map lowerUnit (map ascii_of_N (stripCombining (normalizeNFD l))) = map foldedUnit l.
Proof.
  induction l as [|c l IH]; [reflexivity|].
  unfold normalizeNFD, stripCombining in *. simpl.
  rewrite List.filter_app, !List.map_app, IH.
  exact (f_equal (fun x => x ++ map foldedUnit l) (folded_single c)).
Qed.

Lemma units_of_units l : units (ofUnits l) = l.
Proof. apply list_ascii_of_string_of_list_ascii. Qed.

Lemma normalize_units s :
  normalizeLocationPart s =
  ofUnits (trimUnits (collapseSpaces false (map foldedUnit (units s)))).
Proof. unfold normalizeLocationPart. cbv zeta. rewrite lowered_folded. reflexivity. Qed.

(** [trim] as a pass from the front and a pass from the back. *)
Lemma dropSpaces_snoc l c :
  dropSpaces (l ++ [c]) =
  match dropSpaces l with
  | [] => if Chars.isSpace c then [] else [c]
  | y => y ++ [c]
  end.
Proof.
  induction l as [|d l IH]; simpl.
  - destruct (Chars.isSpace c); reflexivity.
  - destruct (Chars.isSpace d); [exact IH|reflexivity].
Qed.

Lemma rev_dropSpaces_rev l : rev (dropSpaces (rev l)) = dropTrailingSpaces l.
Proof.
  induction l as [|c l IH]; [reflexivity|].
  simpl. rewrite dropSpaces_snoc, <- IH.
  destruct (dropSpaces (rev l)) as [|y ys] eqn:E.
  - simpl. destruct (Chars.isSpace c); reflexivity.
  - rewrite rev_app_distr. simpl.
    destruct (rev ys ++ [y]) eqn:E'; [destruct (rev ys); discriminate|reflexivity].
Qed.

Lemma trimUnits_passes l : trimUnits l = dropTrailingSpaces (dropSpaces l).
Proof. unfold trimUnits. apply rev_dropSpaces_rev. Qed.

Lemma dropSpaces_head l :
  match dropSpaces l with c :: _ => Chars.isSpace c = false | [] => True end.
Proof.
  induction l as [|c l IH]; simpl; [exact I|].
  destruct (Chars.isSpace c) eqn:E; [exact IH|exact E].
Qed.

Lemma dropTrailing_head l :
  match dropTrailingSpaces l with
  | c :: _ => exists r, l = c :: r
  | [] => True
  end.
Proof.
  destruct l as [|c l]; simpl; [exact I|].
  destruct (dropTrailingSpaces l); [destruct (Chars.isSpace c)|]; eauto.
Qed.

Lemma dropTrailing_idem l : dropTrailingSpaces (dropTrailingSpaces l) = dropTrailingSpaces l.
Proof.
  induction l as [|c l IH]; [reflexivity|].
  simpl. destruct (dropTrailingSpaces l) as [|d r] eqn:E.
  - destruct (Chars.isSpace c) eqn:Ec; simpl; [reflexivity|]. rewrite Ec. reflexivity.
  - change (dropTrailingSpaces (c :: d :: r))
      with (match dropTrailingSpaces (d :: r) with
            | [] => if Chars.isSpace c then [] else [c]
            | r' => c :: r'
            end).
    rewrite IH. reflexivity.
Qed.

Lemma dropSpaces_fixed l :
  match l with c :: _ => Chars.isSpace c = false | [] => True end ->
  dropSpaces l = l.
Proof. destruct l as [|c l]; simpl; [reflexivity|]. intros ->. reflexivity. Qed.

Lemma trimUnits_idem l : trimUnits (trimUnits l) = trimUnits l.
Proof.
  rewrite !trimUnits_passes.
  rewrite (dropSpaces_fixed (dropTrailingSpaces (dropSpaces l))).
  - apply dropTrailing_idem.
  - pose proof (dropSpaces_head l) as Hh.
    pose proof (dropTrailing_head (dropSpaces l)) as Ht.
    destruct (dropTrailingSpaces (dropSpaces l)) as [|c r]; [exact I|].
    destruct Ht as [r0 Hr]. rewrite Hr in Hh. exact Hh.
Qed.

Lemma In_dropSpaces c l : In c (dropSpaces l) -> In c l.
Proof.
  induction l as [|d l IH]; simpl; [tauto|].
  destruct (Chars.isSpace d); simpl; tauto.
Qed.

Lemma In_dropTrailing c l : In c (dropTrailingSpaces l) -> In c l.
Proof.
  induction l as [|d l IH]; simpl; [tauto|].
  destruct (dropTrailingSpaces l) as [|e r].
  - destruct (Chars.isSpace d); simpl; tauto.
  - intros [->|H]; [left; reflexivity|right; apply IH; exact H].
Qed.

Lemma In_trimUnits c l : In c (trimUnits l) -> In c l.
Proof. rewrite trimUnits_passes. intros H. apply In_dropSpaces, In_dropTrailing, H. Qed.

Lemma In_collapseSpaces c l : forall inRun,
  In c (collapseSpaces inRun l) -> c = " "%char \/ In c l.
Proof.
  induction l as [|d l IH]; intros inRun; simpl; [tauto|].
  destruct (Chars.isSpace d), inRun; simpl; intros H;
    repeat match goal with
           | H : _ \/ _ |- _ => destruct H as [H|H]
           | H : In _ (collapseSpaces _ _) |- _ => apply IH in H
           end; auto.
Qed.

Lemma collapse_tidy l :
  tidy (collapseSpaces false l) = true /\
  tidy (collapseSpaces true l) = true /\
  match collapseSpaces true l with c :: _ => Chars.isSpace c = false | [] => True end.
Proof.
  induction l as [|c l (IH1 & IH2 & IH3)]; simpl; [auto|].
  destruct (Chars.isSpace c) eqn:E; simpl.
  - rewrite IH2. repeat split; try assumption.
    destruct (collapseSpaces true l) as [|d r]; [reflexivity|].
    rewrite IH3. reflexivity.
  - rewrite E, IH1. auto.
Qed.

Lemma collapse_fixed l : tidy l = true -> collapseSpaces false l = l.
Proof.
  induction l as [|c l IH]; [reflexivity|].
  simpl. intros H. apply andb_prop in H as [Hc Ht]. specialize (IH Ht).
  destruct (Chars.isSpace c) eqn:E.
  - apply andb_prop in Hc as [H32 Hnext].
    rewrite (blank_unit c E H32). f_equal.
    destruct l as [|d r]; [reflexivity|].
    simpl in *. apply negb_true_iff in Hnext. rewrite Hnext in *. exact IH.
  - f_equal. exact IH.
Qed.

Lemma tidy_dropSpaces l : tidy l = true -> tidy (dropSpaces l) = true.
Proof.
  induction l as [|c l IH]; [reflexivity|].
  intros H. simpl. destruct (Chars.isSpace c) eqn:E; [|exact H].
  apply IH. simpl in H. apply andb_prop in H. tauto.
Qed.

Lemma tidy_dropTrailing l : tidy l = true -> tidy (dropTrailingSpaces l) = true.
Proof.
  induction l as [|c l IH]; [reflexivity|].
  intros H. simpl in H. apply andb_prop in H as [Hc Ht]. specialize (IH Ht).
  simpl. pose proof (dropTrailing_head l) as Hh.
  destruct (dropTrailingSpaces l) as [|d r].
  - destruct (Chars.isSpace c) eqn:E; [reflexivity|]. simpl. rewrite E. reflexivity.
  - destruct Hh as [r0 ->].
    change (tidy (c :: d :: r))
      with ((if Chars.isSpace c
             then (Chars.code c =? 32)%N && negb (Chars.isSpace d)
             else true) && tidy (d :: r)).
    rewrite IH, andb_true_r. exact Hc.
Qed.

Lemma tidy_trimUnits l : tidy l = true -> tidy (trimUnits l) = true.
Proof. rewrite trimUnits_passes. intros H. apply tidy_dropTrailing, tidy_dropSpaces, H. Qed.

Lemma map_fixed {A} (f : A -> A) l : (forall x, In x l -> f x = x) -> map f l = l.
Proof.
  induction l as [|x l IH]; intros H; [reflexivity|].
  simpl. rewrite (H x (or_introl eq_refl)), IH; [reflexivity|].
  intros y Hy. apply H. right. exact Hy.
Qed.

(** The units of a normalised key: folded, tidy and trimmed. *)
Lemma normalized_units_folded s c :
  In c (units (normalizeLocationPart s)) ->
  c = " "%char \/ exists d, In d (units s) /\ c = foldedUnit d.
Proof.
  rewrite normalize_units, units_of_units. intros H.
  apply In_trimUnits, In_collapseSpaces in H as [H|H]; [left; exact H|right].
  apply in_map_iff in H as (d & Hd & Hin). eauto.
Qed.

(** X4: [normalizeLocationPart] is idempotent: a normalised key is its own
    normalisation. *)
Theorem X4_normalizeLocationPart_idempotent :
  forall value : string,
    normalizeLocationPart (normalizeLocationPart value) = normalizeLocationPart value.
Proof.
  intros s. rewrite (normalize_units (normalizeLocationPart s)).
  set (key := normalizeLocationPart s).
  assert (Hfold : map foldedUnit (units key) = units key).
  { apply map_fixed. intros c Hc.
    apply normalized_units_folded in Hc as [->|(d & _ & ->)]; [reflexivity|apply folded_idem]. }
  rewrite Hfold. unfold key. rewrite normalize_units, units_of_units.
  rewrite collapse_fixed by (apply tidy_trimUnits, collapse_tidy).
  rewrite trimUnits_idem. reflexivity.
Qed.

Section SpacePreserving.

Variable f : ascii -> ascii.
Hypothesis f_space : forall c, Chars.isSpace (f c) = Chars.isSpace c.

Lemma map_dropSpaces l : map f (dropSpaces l) = dropSpaces (map f l).
Proof.
  induction l as [|c l IH]; [reflexivity|].
  simpl. rewrite f_space. destruct (Chars.isSpace c); [exact IH|reflexivity].
Qed.

Lemma map_dropTrailing l : map f (dropTrailingSpaces l) = dropTrailingSpaces (map f l).
Proof.
  induction l as [|c l IH]; [reflexivity|].
  simpl. rewrite <- IH, f_space.
  destruct (dropTrailingSpaces l); simpl; [destruct (Chars.isSpace c)|]; reflexivity.
Qed.

Lemma map_trimUnits l : map f (trimUnits l) = trimUnits (map f l).
Proof. rewrite !trimUnits_passes, map_dropTrailing, map_dropSpaces. reflexivity. Qed.

End SpacePreserving.

Lemma dropSpaces_collapse l : forall inRun,
  dropSpaces (collapseSpaces inRun l) = collapseSpaces false (dropSpaces l).
Proof.
  induction l as [|c l IH]; intros inRun; [reflexivity|].
  simpl. destruct (Chars.isSpace c) eqn:E.
  - destruct inRun; simpl; apply IH.
  - simpl. rewrite E. reflexivity.
Qed.

Lemma dropTrailing_blank l :
  dropTrailingSpaces l = [] -> forall inRun, dropTrailingSpaces (collapseSpaces inRun l) = [].
Proof.
  induction l as [|c l IH]; [reflexivity|].
  simpl. intros H inRun.
  destruct (dropTrailingSpaces l) eqn:E; [|discriminate].
  destruct (Chars.isSpace c) eqn:Ec; [|discriminate].
  destruct inRun; [apply IH; reflexivity|].
  simpl. rewrite (IH eq_refl true). reflexivity.
Qed.

Lemma dropTrailing_cons c l :
  dropTrailingSpaces (c :: l) =
  match dropTrailingSpaces l with
  | [] => if Chars.isSpace c then [] else [c]
  | r' => c :: r'
  end.
Proof. reflexivity. Qed.

Lemma dropTrailing_collapse l : forall inRun,
  dropTrailingSpaces (collapseSpaces inRun (dropTrailingSpaces l)) =
  dropTrailingSpaces (collapseSpaces inRun l).
Proof.
  induction l as [|c l IH]; intros inRun; [reflexivity|].
  rewrite dropTrailing_cons.
  destruct (dropTrailingSpaces l) as [|d r] eqn:E.
  - destruct (Chars.isSpace c) eqn:Ec.
    + symmetry. apply dropTrailing_blank. rewrite dropTrailing_cons, E, Ec. reflexivity.
    + simpl. rewrite Ec. rewrite !dropTrailing_cons.
      rewrite (dropTrailing_blank l E false). simpl. rewrite Ec. reflexivity.
  - simpl collapseSpaces at 2.
    change (collapseSpaces inRun (c :: d :: r))
      with (if Chars.isSpace c
            then (if inRun then collapseSpaces true (d :: r)
                  else " "%char :: collapseSpaces true (d :: r))
            else c :: collapseSpaces false (d :: r)).
    destruct (Chars.isSpace c); [destruct inRun|];
      rewrite ?dropTrailing_cons, ?IH; reflexivity.
Qed.

Lemma trim_collapse_trim l :
  trimUnits (collapseSpaces false (trimUnits l)) = trimUnits (collapseSpaces false l).
Proof.
  rewrite !trimUnits_passes, !dropSpaces_collapse.
  rewrite (dropSpaces_fixed (dropTrailingSpaces (dropSpaces l))).
  - apply dropTrailing_collapse.
  - pose proof (dropSpaces_head l) as Hh.
    pose proof (dropTrailing_head (dropSpaces l)) as Ht.
    destruct (dropTrailingSpaces (dropSpaces l)) as [|c r]; [exact I|].
    destruct Ht as [r0 Hr]. rewrite Hr in Hh. exact Hh.
Qed.

Lemma normalize_lower s : normalizeLocationPart (toLowerCase s) = normalizeLocationPart s.
Proof.
  rewrite !normalize_units. unfold toLowerCase. rewrite units_of_units, List.map_map.
  rewrite (List.map_ext _ _ folded_lower). reflexivity.
Qed.

Lemma normalize_trim s : normalizeLocationPart (trim s) = normalizeLocationPart s.
Proof.
  rewrite !normalize_units. unfold trim. rewrite units_of_units.
  rewrite (map_trimUnits foldedUnit folded_space). f_equal. apply trim_collapse_trim.
Qed.

(** X5: [normalizeLocationPart] ignores the letter case of its argument and
    the white space around it: the lower-cased and the trimmed string have
    the key of the string itself. *)
Theorem X5_normalizeLocationPart_ignores_case_and_margins :
  forall value : string,
    normalizeLocationPart (toLowerCase value) = normalizeLocationPart value /\
    normalizeLocationPart (trim value) = normalizeLocationPart value.
Proof. intros s. split; [apply normalize_lower|apply normalize_trim]. Qed.

(** ** The route and its cache *)

(** 250 rows behind a service that reports a total of 150: two pages are
    read and the last 50 rows are not returned.  With a reported total of
    201 the third page is read and every row is returned. *)
Lemma X3_fetchAllPages_trusts_total_count_witness :
  Route.fetchAllPages 2 (pagedUpstream (repeat (geoRow "Porto" None None) 250) (Some 150))
    "georef-portugal-distrito" 0 [] =
  ([0; 100], Returned (repeat (geoRow "Porto" None None) 200)) /\
  Route.fetchAllPages 3 (pagedUpstream (repeat (geoRow "Porto" None None) 250) (Some 201))
    "georef-portugal-distrito" 0 [] =
  ([0; 100; 200], Returned (repeat (geoRow "Porto" None None) 250)).
Proof.
  split.
  - refine (proj1 (X3_fetchAllPages_trusts_total_count
                     (repeat (geoRow "Porto" None None) 250) (Some 150)
                     "georef-portugal-distrito" 2 _)).
    vm_compute. discriminate.
  - refine (proj1 (X3_fetchAllPages_trusts_total_count
                     (repeat (geoRow "Porto" None None) 250) (Some 201)
                     "georef-portugal-distrito" 3 _)).
    vm_compute. discriminate.
Defined.

(** X6: a dataset that [GET] has just fetched is served from the cache for
    the next twelve hours: every call before [now + CACHE_MS] answers with
    the same dataset and leaves the cache as it is, whatever the public
    service would answer. *)
Theorem X6_GET_serves_cache_within_ttl :
  forall (localeCompare : string -> string -> Z) (fuel : nat) (upstream : Route.Upstream)
         (now : Z) (cached cached' : option Route.CacheEntry) (body : PortugalAdminDataset),
    Route.freshEntry now cached = None ->
    Route.GET localeCompare fuel upstream now cached =
      (cached', Returned (Route.JsonDataset body)) ->
    forall (fuel' : nat) (upstream' : Route.Upstream) (now' : Z),
      now' - now < Route.CACHE_MS ->
      Route.GET localeCompare fuel' upstream' now' cached' =
        (cached', Returned (Route.JsonDataset body)).
Proof.
  intros lc fuel upstream now cached cached' body Hstale Hget fuel' upstream' now' Hnow.
  unfold Route.GET in Hget. rewrite Hstale in Hget.
  destruct (Route.promiseAll3 _ _ _) as [[[d m] p]|message|]; try discriminate.
  injection Hget as <- <-.
  unfold Route.GET, Route.freshEntry. cbn [Route.cache_at Route.cache_data].
  apply Z.ltb_lt in Hnow. rewrite Hnow. reflexivity.
Qed.

(** A fetch at time 1000 into the empty cache, then a call an hour later
    while the public service is down. *)
Lemma X6_GET_serves_cache_within_ttl_witness :
  exists cached' body,
    Route.GET codeUnitCompare 1 (pagedUpstream [geoRow "Porto" None None] None) 1000 None =
      (cached', Returned (Route.JsonDataset body)) /\
    Route.GET codeUnitCompare 1 downUpstream 3601000 cached' =
      (cached', Returned (Route.JsonDataset body)).
Proof.
  eexists _, _. split; [vm_compute; reflexivity|].
  apply (X6_GET_serves_cache_within_ttl codeUnitCompare 1
           (pagedUpstream [geoRow "Porto" None None] None) 1000 None _ _ eq_refl
           eq_refl 1%nat downUpstream 3601000).
  reflexivity.
Defined.

(** ** Location candidates *)

Lemma splitRuns_free : forall l inRun cur piece c,
  (forall d, In d cur -> Chars.isDelimiter d = false) ->
  In piece (splitRuns Chars.isDelimiter inRun cur l) ->
  In c piece -> Chars.isDelimiter c = false.
Proof.
  induction l as [|u l IH]; intros inRun cur piece c Hcur; simpl.
  - intros [<-|[]] Hc. apply Hcur, in_rev, Hc.
  - destruct (Chars.isDelimiter u) eqn:E.
    + destruct inRun.
      * apply IH. intros d [].
      * intros [<-|Hin] Hc; [apply Hcur, in_rev, Hc|].
        revert Hin Hc. apply IH. intros d [].
    + apply IH. intros d [<-|Hd]; [exact E|apply Hcur, Hd].
Qed.

Lemma candidates_shape text :
  List.Forall (fun part => nonEmpty part = true /\ trim part = part /\ delimiterFree part)
              (extractLocationCandidates text).
Proof.
  unfold extractLocationCandidates. cbv zeta.
  destruct (negb (nonEmpty (trim (default "" text)))); [constructor|].
  apply List.Forall_forall. intros part Hin.
  apply List.filter_In in Hin as [Hin Hne].
  apply List.in_map_iff in Hin as (piece & <- & Hpiece).
  split; [exact Hne|split].
  - unfold trim. rewrite units_of_units, trimUnits_idem. reflexivity.
  - unfold delimiterFree. rewrite units_of_units.
    apply List.Forall_forall. intros c Hc. apply In_trimUnits in Hc.
    eapply splitRuns_free; [|exact Hpiece|exact Hc]. intros d [].
Qed.

(** X7: every candidate of [extractLocationCandidates] is a non-empty
    string without white space at its ends and without any of the
    delimiters [, - | / ; ( )]. *)
Theorem X7_candidates_are_trimmed_delimiter_free_tokens :
  forall locationText : option string,
    List.Forall (fun part => nonEmpty part = true /\ trim part = part /\ delimiterFree part)
                (extractLocationCandidates locationText).
Proof. exact candidates_shape. Qed.







Lemma trim_idem s : trim (trim s) = trim s.
Proof. unfold trim. rewrite units_of_units, trimUnits_idem. reflexivity. Qed.

Lemma splitRuns_single : forall l cur,
  List.Forall (fun c => Chars.isDelimiter c = false) l ->
  splitRuns Chars.isDelimiter false cur l = [rev cur ++ l].
Proof.
  induction l as [|c l IH]; intros cur Hl; simpl.
  - rewrite app_nil_r. reflexivity.
  - inversion Hl as [|? ? Hc Hl']; subst. rewrite Hc, IH by assumption.
    simpl. rewrite <- app_assoc. reflexivity.
Qed.

Lemma trim_free s : delimiterFree s -> delimiterFree (trim s).
Proof.
  unfold delimiterFree, trim. rewrite units_of_units, !List.Forall_forall.
  intros H c Hc. apply H, In_trimUnits, Hc.
Qed.

(** X9: a text without any of the delimiters [, - | / ; ( )] has one
    candidate, the trimmed text, or none when it is blank. *)
Theorem X9_undelimited_text_is_its_only_candidate :
  forall text : string,
    delimiterFree text ->
    extractLocationCandidates (Some text) =
    if nonEmpty (trim text) then [trim text] else [].
Proof.
  intros text Hfree. unfold extractLocationCandidates.
  cbn [default from_option id]. cbv zeta.
  destruct (nonEmpty (trim text)) eqn:E; [|reflexivity].
  cbn [negb]. rewrite splitRuns_single by (apply trim_free, Hfree).
  cbn [rev app map]. fold (trim (trim text)). rewrite trim_idem.
  cbn [List.filter]. rewrite E. reflexivity.
Qed.

Lemma X9_undelimited_text_is_its_only_candidate_witness :
  extractLocationCandidates (Some "  Rua das Flores 12 ") = ["Rua das Flores 12"].
Proof.
  rewrite (X9_undelimited_text_is_its_only_candidate "  Rua das Flores 12 ").
  - vm_compute. reflexivity.
  - unfold delimiterFree. vm_compute. repeat constructor.
Defined.

(** ** The index builder *)

Lemma trimmedNonEmpty_trim x s : trimmedNonEmpty x = Some s -> exists y, x = Some y /\ s = trim y.
Proof.
  destruct x as [y|]; simpl; [|discriminate].
  destruct (nonEmpty (trim y)); [|discriminate].
  intros [= <-]. eauto.
Qed.

(** X10: every entry of the index that [buildPortugalAdminIndex] builds is
    stored under the normalised name of its own level: a district under
    the key of its name, a municipality record under the key of its
    municipality, a parish record under the key of its parish. *)
Theorem X10_index_entries_sit_under_their_own_key :
  forall dataset : PortugalAdminDataset,
    let index := buildPortugalAdminIndex dataset in
    map_Forall (fun key name => key = normalizeLocationPart name) (districtByKey index) /\
    map_Forall (fun key record => key = normalizeLocationPart (mun_municipality record))
               (municipalityByKey index) /\
    map_Forall (fun key record => key = normalizeLocationPart (rec_parish record))
               (parishByKey index).
Proof.
  intros dataset. unfold buildPortugalAdminIndex. cbv zeta.
  cbn [districtByKey municipalityByKey parishByKey]. split; [|split].
  - apply (fold_left_invariant (map_Forall _)); [apply map_Forall_empty|].
    intros acc item Hacc. unfold indexDistrict.
    destruct (trimmedNonEmpty _); [|exact Hacc].
    apply map_Forall_insert_2; [reflexivity|exact Hacc].
  - apply (fold_left_invariant (map_Forall _)); [apply map_Forall_empty|].
    intros acc item Hacc. unfold indexMunicipality.
    destruct (trimmedNonEmpty (Some _)); [|exact Hacc].
    destruct (trimmedNonEmpty _); [|exact Hacc].
    apply map_Forall_insert_2; [reflexivity|exact Hacc].
  - apply (fold_left_invariant (map_Forall _)); [apply map_Forall_empty|].
    intros acc item Hacc. unfold indexParish.
    destruct (trimmedNonEmpty (Some _)); [|exact Hacc].
    destruct (trimmedNonEmpty (opt_municipality _)); [|exact Hacc].
    destruct (trimmedNonEmpty _); [|exact Hacc].
    apply map_Forall_insert_2; [reflexivity|exact Hacc].
Qed.

Section FoldInsert.

Context {A V : Type}.
Variable step : gmap string V -> A -> gmap string V.
Variable keyOf : A -> option string.
Hypothesis step_sets : forall acc x k, keyOf x = Some k -> is_Some (step acc x !! k).
Hypothesis step_keeps : forall acc x k, is_Some (acc !! k) -> is_Some (step acc x !! k).

Lemma fold_keeps l : forall acc k,
  is_Some (acc !! k) -> is_Some (fold_left step l acc !! k).
Proof.
  induction l as [|x l IH]; intros acc k H; [exact H|].
  simpl. apply IH, step_keeps, H.
Qed.

Lemma fold_sets l : forall acc x k,
  In x l -> keyOf x = Some k -> is_Some (fold_left step l acc !! k).
Proof.
  induction l as [|y l IH]; intros acc x k Hin Hk; [destruct Hin|].
  simpl. destruct Hin as [->|Hin].
  - apply fold_keeps, step_sets, Hk.
  - eapply IH; eassumption.
Qed.

End FoldInsert.

Lemma insert_is_Some {V} (m : gmap string V) k k' v :
  is_Some (m !! k) -> is_Some (<[k' := v]> m !! k).
Proof.
  intros H. destruct (decide (k' = k)) as [->|Hne].
  - rewrite lookup_insert_eq. eauto.
  - rewrite lookup_insert_ne by exact Hne. exact H.
Qed.

Lemma district_indexed items item :
  In item items -> named (Some (opt_label item)) ->
  is_Some (fold_left indexDistrict items ∅ !! normalizeLocationPart (opt_label item)).
Proof.
  intros Hin Hlabel.
  apply (fold_sets indexDistrict
           (fun x => whenNamed (Some (opt_label x))
                       (Some (normalizeLocationPart (opt_label x)))))
    with (x := item); [| |exact Hin|].
  - intros acc x k. unfold indexDistrict, whenNamed.
    destruct (trimmedNonEmpty (Some (opt_label x))) as [s|] eqn:E; [|discriminate].
    intros [= <-]. destruct (trimmedNonEmpty_trim _ _ E) as (y & [= <-] & ->).
    rewrite normalize_trim, lookup_insert_eq. eauto.
  - intros acc x k H. unfold indexDistrict.
    destruct (trimmedNonEmpty _); [apply insert_is_Some|]; exact H.
  - unfold whenNamed. destruct Hlabel as [s ->]. reflexivity.
Qed.

Lemma municipality_indexed items item :
  In item items -> named (Some (opt_label item)) -> named (opt_district item) ->
  is_Some (fold_left indexMunicipality items ∅ !! normalizeLocationPart (opt_label item)).
Proof.
  intros Hin Hlabel Hdistrict.
  apply (fold_sets indexMunicipality
           (fun x => whenNamed (Some (opt_label x))
                       (whenNamed (opt_district x)
                          (Some (normalizeLocationPart (opt_label x))))))
    with (x := item); [| |exact Hin|].
  - intros acc x k. unfold indexMunicipality, whenNamed.
    destruct (trimmedNonEmpty (Some (opt_label x))) as [s|] eqn:E; [|discriminate].
    destruct (trimmedNonEmpty (opt_district x)); [|discriminate].
    intros [= <-]. destruct (trimmedNonEmpty_trim _ _ E) as (y & [= <-] & ->).
    rewrite normalize_trim, lookup_insert_eq. eauto.
  - intros acc x k H. unfold indexMunicipality.
    destruct (trimmedNonEmpty (Some _)); [|exact H].
    destruct (trimmedNonEmpty _); [apply insert_is_Some|]; exact H.
  - unfold whenNamed. destruct Hlabel as [s ->], Hdistrict as [d ->]. reflexivity.
Qed.

Lemma parish_indexed items item :
  In item items -> named (Some (opt_label item)) ->
  named (opt_municipality item) -> named (opt_district item) ->
  is_Some (fold_left indexParish items ∅ !! normalizeLocationPart (opt_label item)).
Proof.
  intros Hin Hlabel Hmunicipality Hdistrict.
  apply (fold_sets indexParish
           (fun x => whenNamed (Some (opt_label x))
                       (whenNamed (opt_municipality x)
                          (whenNamed (opt_district x)
                             (Some (normalizeLocationPart (opt_label x)))))))
    with (x := item); [| |exact Hin|].
  - intros acc x k. unfold indexParish, whenNamed.
    destruct (trimmedNonEmpty (Some (opt_label x))) as [s|] eqn:E; [|discriminate].
    destruct (trimmedNonEmpty (opt_municipality x)); [|discriminate].
    destruct (trimmedNonEmpty (opt_district x)); [|discriminate].
    intros [= <-]. destruct (trimmedNonEmpty_trim _ _ E) as (y & [= <-] & ->).
    rewrite normalize_trim, lookup_insert_eq. eauto.
  - intros acc x k H. unfold indexParish.
    destruct (trimmedNonEmpty (Some _)); [|exact H].
    destruct (trimmedNonEmpty (opt_municipality _)); [|exact H].
    destruct (trimmedNonEmpty _); [apply insert_is_Some|]; exact H.
  - unfold whenNamed.
    destruct Hlabel as [s ->], Hmunicipality as [m ->], Hdistrict as [d ->]. reflexivity.
Qed.

(** X11: every area of the dataset that has the names
    [buildPortugalAdminIndex] asks for is in the index, under the
    normalised form of its label: a district with a non-blank label, a
    municipality with a non-blank label and district, a parish with a
    non-blank label, municipality and district. *)
Theorem X11_named_areas_are_indexed :
  forall (dataset : PortugalAdminDataset) (item : AdminAreaOption),
    let index := buildPortugalAdminIndex dataset in
    let key := normalizeLocationPart (opt_label item) in
    (In item (districts dataset) -> named (Some (opt_label item)) ->
     is_Some (districtByKey index !! key)) /\
    (In item (municipalities dataset) -> named (Some (opt_label item)) ->
     named (opt_district item) ->
     is_Some (municipalityByKey index !! key)) /\
    (In item (parishes dataset) -> named (Some (opt_label item)) ->
     named (opt_municipality item) -> named (opt_district item) ->
     is_Some (parishByKey index !! key)).
Proof.
  intros dataset item. unfold buildPortugalAdminIndex. cbv zeta.
  cbn [districtByKey municipalityByKey parishByKey].
  split; [apply district_indexed|split; [apply municipality_indexed|apply parish_indexed]].
Qed.

(** The parish of the sample dataset, whose label carries stray white
    space, is found under its normalised label. *)
Lemma X11_named_areas_are_indexed_witness :
  is_Some (parishByKey (buildPortugalAdminIndex sample_dataset) !! "alvalade").
Proof.
  apply (proj2 (proj2 (X11_named_areas_are_indexed sample_dataset
           (area Parish " Alvalade " (Some "Lisboa") (Some "Lisboa") (Some "Alvalade"))))).
  - left. reflexivity.
  - vm_compute. eauto.
  - vm_compute. eauto.
  - vm_compute. eauto.
Defined.

(** ** The resolver: the parish pass *)

Lemma firstHit_skip {V} (get : string -> option V) accept before rest :
  List.Forall (fun part => get (normalizeLocationPart part) = None) before ->
  firstHit get accept (before ++ rest) = firstHit get accept rest.
Proof.
  induction 1 as [|part before Hpart _ IH]; [reflexivity|].
  simpl. rewrite Hpart. exact IH.
Qed.

(** X12: with an index whose records have non-empty names, the first
    candidate that is the key of a parish decides all three levels: the
    result is the district, municipality and parish of that record, and
    neither the municipality map nor the district map changes it. *)
Theorem X12_first_parish_candidate_decides :
  forall (locationText : option string) (index : PortugalAdminIndex)
         (before after : list string) (part : string) (hit : AdminNameRecord),
    wellFormedIndex index ->
    extractLocationCandidates locationText = before ++ part :: after ->
    List.Forall (fun p => parishByKey index !! normalizeLocationPart p = None) before ->
    parishByKey index !! normalizeLocationPart part = Some hit ->
    resolveAdminHierarchy locationText index = hierarchyOfParish hit.
Proof.
  intros text index before after part hit (_ & _ & Hp) Hcands Hbefore Hhit.
  destruct (Hp _ _ Hhit) as (_ & Nm & Nd).
  unfold resolveAdminHierarchy. cbv zeta. rewrite Hcands.
  rewrite (firstHit_skip (fun key => parishByKey index !! key) _ before (part :: after) Hbefore).
  cbn [firstHit]. rewrite Hhit.
  cbn [district municipality parish truthy]. rewrite Nm, Nd.
  cbn [negb orb district truthy]. rewrite Nd. reflexivity.
Qed.

(** Santa Maria is the key of a district, of a municipality of the Azores
    and of a parish of Tavira: the parish decides. *)
Lemma X12_first_parish_candidate_decides_witness :
  resolveAdminHierarchy (Some "Santa Maria, Tavira") santa_maria_index =
  {| district := Some "Faro"; municipality := Some "Tavira"; parish := Some "Santa Maria" |}.
Proof.
  apply (X12_first_parish_candidate_decides (Some "Santa Maria, Tavira") santa_maria_index
           [] ["Tavira"] "Santa Maria"
           {| rec_district := "Faro"; rec_municipality := "Tavira";
              rec_parish := "Santa Maria" |}).
  - apply build_wellFormed.
  - vm_compute. reflexivity.
  - constructor.
  - vm_compute. reflexivity.
Defined.

(** ** The areas of the route's dataset *)

Section Upserts.

Variable entry : Route.GeoRow -> Route.Entry.

Lemma firstNames_step rows map row :
  firstNames entry rows map ->
  firstNames entry (rows ++ [row]) (Route.upsertEntry map (entry row)).
Proof.
  intros H key. specialize (H key) as Hk. rewrite rowsAt_snoc.
  destruct (entry row) as [[k item']|] eqn:E; simpl Route.upsertEntry.
  - destruct (String.eqb k key) eqn:Ek.
    + apply String.eqb_eq in Ek. subst k. unfold Route.upsertAreaOption.
      destruct (rowsAt entry key rows) as [|first rest] eqn:Er.
      * rewrite Hk. simpl. rewrite get_set, String.eqb_refl. exists item', item'. auto.
      * destruct Hk as (item & item0 & Hget & Hfirst & Hnames). rewrite Hget.
        simpl. rewrite get_set, String.eqb_refl.
        eexists _, item0. split; [reflexivity|]. split; [exact Hfirst|exact Hnames].
    + rewrite app_nil_r.
      assert (Hsame : JsMap.get key (Route.upsertAreaOption map k item') = JsMap.get key map).
      { unfold Route.upsertAreaOption.
        destruct (JsMap.get k map); rewrite get_set, Ek; reflexivity. }
      rewrite Hsame. exact Hk.
  - rewrite app_nil_r. exact Hk.
Qed.

Lemma upsertRows_firstNames rows : firstNames entry rows (Route.upsertRows entry rows).
Proof.
  unfold Route.upsertRows.
  assert (G : forall more done map,
             firstNames entry done map ->
             firstNames entry (done ++ more)
               (fold_left (fun m row => Route.upsertEntry m (entry row)) more map)).
  { induction more as [|row more IH]; intros done map H; simpl.
    - rewrite app_nil_r. exact H.
    - replace (done ++ row :: more) with ((done ++ [row]) ++ more)
        by (rewrite <- app_assoc; reflexivity).
      apply IH, firstNames_step, H. }
  apply (G rows [] JsMap.empty). intros key. reflexivity.
Qed.

Lemma set_underIds k v map : underIds map -> opt_id v = k -> underIds (JsMap.set k v map).
Proof.
  intros [Hn Hf] Hv. split; [apply set_keys_NoDup, Hn|].
  clear Hn. induction Hf as [|[k0 v0] m H0 Hm IH]; simpl.
  - repeat constructor. exact Hv.
  - destruct (String.eqb k0 k); constructor; auto.
Qed.

Lemma get_underIds k map v : underIds map -> JsMap.get k map = Some v -> opt_id v = k.
Proof.
  intros [_ Hf]. induction Hf as [|[k0 v0] m H0 _ IH]; simpl; [discriminate|].
  destruct (String.eqb k0 k) eqn:E; [|exact IH].
  apply String.eqb_eq in E. intros [= <-]. simpl in H0. congruence.
Qed.

Lemma sumSamples_set k v map :
  sumSamples (JsMap.values (JsMap.set k v map)) =
  sumSamples (JsMap.values map) + opt_sample_count v -
  match JsMap.get k map with Some old => opt_sample_count old | None => 0 end.
Proof.
  induction map as [|[k0 v0] m IH]; simpl.
  - lia.
  - destruct (String.eqb k0 k); simpl; [lia|]. rewrite IH. lia.
Qed.

Hypothesis entry_id : entryUnderId entry.
Hypothesis entry_row : entryFromRow entry.

Lemma upsertEntry_accounts map row :
  underIds map ->
  underIds (Route.upsertEntry map (entry row)) /\
  sumSamples (JsMap.values (Route.upsertEntry map (entry row))) =
  sumSamples (JsMap.values map) + Z.of_nat (length (kept entry [row])).
Proof.
  intros Hu. unfold kept. cbn [List.filter].
  destruct (entry row) as [[k item]|] eqn:E; cbn [Route.upsertEntry length].
  - destruct (entry_row _ _ _ E) as (_ & _ & Hone).
    pose proof (entry_id _ _ _ E) as Hid.
    unfold Route.upsertAreaOption.
    destruct (JsMap.get k map) as [existing|] eqn:Eg.
    + split.
      * apply set_underIds; [exact Hu|]. simpl. eapply get_underIds; eassumption.
      * rewrite sumSamples_set, Eg. simpl. lia.
    + split; [apply set_underIds; assumption|].
      rewrite sumSamples_set, Eg. lia.
  - split; [exact Hu|]. simpl. lia.
Qed.

Lemma upsertRows_accounts rows :
  underIds (Route.upsertRows entry rows) /\
  sumSamples (JsMap.values (Route.upsertRows entry rows)) = Z.of_nat (length (kept entry rows)).
Proof.
  unfold Route.upsertRows.
  assert (G : forall more map,
             underIds map ->
             underIds (fold_left (fun m row => Route.upsertEntry m (entry row)) more map) /\
             sumSamples (JsMap.values
               (fold_left (fun m row => Route.upsertEntry m (entry row)) more map)) =
             sumSamples (JsMap.values map) + Z.of_nat (length (kept entry more))).
  { induction more as [|row more IH]; intros map Hu.
    - simpl. split; [exact Hu|lia].
    - cbn [fold_left].
      destruct (upsertEntry_accounts map row Hu) as [Hu' Hs'].
      destruct (IH _ Hu') as [Hu'' Hs''].
      split; [exact Hu''|]. rewrite Hs'', Hs'.
      change (row :: more) with ([row] ++ more).
      unfold kept. rewrite List.filter_app, length_app. lia. }
  destruct (G rows JsMap.empty) as [Hu Hs]; [split; constructor|].
  split; [exact Hu|]. rewrite Hs. reflexivity.
Qed.

Lemma underIds_values m : underIds m -> List.NoDup (map opt_id (JsMap.values m)).
Proof.
  intros [Hn Hf]. unfold JsMap.values, JsMap.keys in *.
  rewrite List.map_map.
  replace (map (fun e => opt_id (snd e)) m) with (map fst m); [exact Hn|].
  clear Hn. induction Hf as [|e r He _ IH]; simpl; [reflexivity|]. rewrite He, IH. reflexivity.
Qed.

End Upserts.

Lemma districtEntry_underId : entryUnderId Route.districtEntry.
Proof.
  intros row key item. unfold Route.districtEntry.
  destruct (negb _); [discriminate|]. intros [= <- <-]. reflexivity.
Qed.

Lemma municipalityEntry_underId : entryUnderId Route.municipalityEntry.
Proof.
  intros row key item. unfold Route.municipalityEntry.
  destruct (_ || _); [discriminate|]. intros [= <- <-]. reflexivity.
Qed.

Lemma parishEntry_underId : entryUnderId Route.parishEntry.
Proof.
  intros row key item. unfold Route.parishEntry.
  destruct (_ || _); [discriminate|]. intros [= <- <-]. reflexivity.
Qed.

Lemma sumSamples_Permutation l l' : Permutation l l' -> sumSamples l = sumSamples l'.
Proof. induction 1; simpl; lia. Qed.

(** X13: the area stored under a key has the id, label, level, country and
    parent names of the first row that was upserted under this key; the
    later rows change the coordinates and the sample count only. *)
Theorem X13_first_row_names_the_area :
  forall (entry : Route.GeoRow -> Route.Entry) (rows rest : list Route.GeoRow)
         (key : string) (first : Route.GeoRow) (item0 : AdminAreaOption),
    rowsAt entry key rows = first :: rest ->
    entry first = Some (key, item0) ->
    exists item,
      JsMap.get key (Route.upsertRows entry rows) = Some item /\
      names item = names item0.
Proof.
  intros entry rows rest key first item0 Hrows Hfirst.
  pose proof (upsertRows_firstNames entry rows key) as H.
  rewrite Hrows in H. destruct H as (item & item0' & Hget & Hfirst' & Hnames).
  exists item. split; [exact Hget|]. congruence.
Qed.

(** PORTO arrives before Porto: the district is labelled PORTO. *)
Lemma X13_first_row_names_the_area_witness :
  exists item,
    JsMap.get "district:porto" (Route.upsertRows Route.districtEntry district_rows) =
      Some item /\
    opt_label item = "PORTO".
Proof.
  destruct (X13_first_row_names_the_area Route.districtEntry district_rows
              [geoRow " Porto" None None] "district:porto" (geoRow "PORTO" None None)
              _ eq_refl eq_refl) as (item & Hget & Hnames).
  exists item. split; [exact Hget|].
  injection Hnames as _ Hlabel _ _ _ _ _. exact Hlabel.
Defined.

(** X14: in the dataset that [GET] builds, the ids of each list are
    pairwise distinct and the sample counts of each list add up to the
    number of rows that the loop did not skip: every row with the
    required names is counted in exactly one area. *)
Theorem X14_dataset_accounts_for_every_row :
  forall (localeCompare : string -> string -> Z)
         (districtRows municipalitiesRows parishesRows : list Route.GeoRow),
    let dataset :=
      Route.buildDataset localeCompare districtRows municipalitiesRows parishesRows in
    (List.NoDup (map opt_id (districts dataset)) /\
     sumSamples (districts dataset) =
       Z.of_nat (length (kept Route.districtEntry districtRows))) /\
    (List.NoDup (map opt_id (municipalities dataset)) /\
     sumSamples (municipalities dataset) =
       Z.of_nat (length (kept Route.municipalityEntry municipalitiesRows))) /\
    (List.NoDup (map opt_id (parishes dataset)) /\
     sumSamples (parishes dataset) =
       Z.of_nat (length (kept Route.parishEntry parishesRows))).
Proof.
  intros lc dRows mRows pRows. unfold Route.buildDataset. cbv zeta.
  cbn [districts municipalities parishes].
  assert (G : forall entry rows,
             entryUnderId entry -> entryFromRow entry ->
             List.NoDup (map opt_id (arraySort (Route.sorter lc)
                                       (JsMap.values (Route.upsertRows entry rows)))) /\
             sumSamples (arraySort (Route.sorter lc)
                           (JsMap.values (Route.upsertRows entry rows))) =
             Z.of_nat (length (kept entry rows))).
  { intros entry rows Hid Hrow.
    destruct (upsertRows_accounts entry Hid Hrow rows) as [Hu Hs].
    pose proof (arraySort_Permutation (Route.sorter lc)
                  (JsMap.values (Route.upsertRows entry rows))) as Hperm.
    split.
    - eapply Permutation_NoDup; [|apply underIds_values, Hu].
      apply Permutation_map. symmetry. exact Hperm.
    - rewrite (sumSamples_Permutation _ _ Hperm). exact Hs. }
  split; [|split].
  - apply G; [apply districtEntry_underId|apply districtEntry_ok].
  - apply G; [apply municipalityEntry_underId|apply municipalityEntry_ok].
  - apply G; [apply parishEntry_underId|apply parishEntry_ok].
Qed.

Section LabelOrder.

Variable localeCompare : string -> string -> Z.
Hypothesis collate_antisym : forall a b, 0 < localeCompare a b -> localeCompare b a <= 0.
Hypothesis collate_trans :
  forall a b c, localeCompare a b <= 0 -> localeCompare b c <= 0 -> localeCompare a c <= 0.

Lemma sorter_sorted items :
  StronglySorted (labelOrder localeCompare) (arraySort (Route.sorter localeCompare) items).
Proof.
  apply arraySort_sorted; unfold labelOrder, Route.sorter.
  - intros x y H. apply collate_antisym, H.
  - intros x y H. exact H.
  - intros x y z. apply collate_trans.
Qed.

End LabelOrder.

(** X15: under a collation that is a total preorder, each list of the
    dataset that [GET] builds is sorted by label: no area stands before
    one whose label collates before its own. *)
Theorem X15_dataset_sorted_by_label :
  forall (localeCompare : string -> string -> Z),
    (forall a b, 0 < localeCompare a b -> localeCompare b a <= 0) ->
    (forall a b c, localeCompare a b <= 0 -> localeCompare b c <= 0 ->
                   localeCompare a c <= 0) ->
    forall districtRows municipalitiesRows parishesRows : list Route.GeoRow,
      let dataset :=
        Route.buildDataset localeCompare districtRows municipalitiesRows parishesRows in
      StronglySorted (labelOrder localeCompare) (districts dataset) /\
      StronglySorted (labelOrder localeCompare) (municipalities dataset) /\
      StronglySorted (labelOrder localeCompare) (parishes dataset).
Proof.
  intros lc Hanti Htrans dRows mRows pRows. unfold Route.buildDataset. cbv zeta.
  cbn [districts municipalities parishes].
  repeat split; apply sorter_sorted; assumption.
Qed.

(** Porto and Braga under code-unit order: Braga comes first. *)
Lemma X15_dataset_sorted_by_label_witness :
  map opt_label (districts (Route.buildDataset codeUnitCompare district_rows [] [])) =
    ["Braga"; "PORTO"] /\
  StronglySorted (labelOrder codeUnitCompare)
    (districts (Route.buildDataset codeUnitCompare district_rows [] [])).
Proof.
  split; [vm_compute; reflexivity|].
  apply (X15_dataset_sorted_by_label codeUnitCompare codeUnitCompare_antisym
           codeUnitCompare_trans district_rows [] []).
Defined.

(** ** From the public dataset to the client's index *)

Lemma trimmedName_named x :
  nonEmpty (Route.trimmedName x) = true -> named (Some (Route.trimmedName x)).
Proof.
  intros H. unfold named, trimmedNonEmpty, Route.trimmedName in *.
  rewrite trim_idem, H. eauto.
Qed.

Lemma districtEntry_Some row key item :
  Route.districtEntry row = Some (key, item) ->
  key = "district:" +:+ toLowerCase (Route.trimmedName (Route.dis_name row)) /\
  opt_label item = Route.trimmedName (Route.dis_name row) /\
  nonEmpty (Route.trimmedName (Route.dis_name row)) = true.
Proof.
  unfold Route.districtEntry.
  destruct (nonEmpty (Route.trimmedName (Route.dis_name row))); [|discriminate].
  intros [= <- <-]. auto.
Qed.

(** X16: every district that the public dataset names reaches the client:
    when a district row has a non-blank [dis_name], the index built from
    the dataset of [GET] has an entry under the normalised [dis_name]. *)
Theorem X16_upstream_districts_reach_the_index :
  forall (localeCompare : string -> string -> Z)
         (districtRows municipalitiesRows parishesRows : list Route.GeoRow)
         (row : Route.GeoRow),
    In row districtRows ->
    nonEmpty (Route.trimmedName (Route.dis_name row)) = true ->
    is_Some (districtByKey
               (buildPortugalAdminIndex
                  (Route.buildDataset localeCompare districtRows municipalitiesRows
                     parishesRows))
             !! normalizeLocationPart (default "" (Route.dis_name row))).
Proof.
  intros lc dRows mRows pRows row Hin Hne.
  set (name := Route.trimmedName (Route.dis_name row)) in *.
  set (key := "district:" +:+ toLowerCase name).
  assert (Hentry : exists item, Route.districtEntry row = Some (key, item)).
  { unfold Route.districtEntry. fold name. rewrite Hne. eexists. reflexivity. }
  destruct Hentry as [itemRow HentryRow].
  assert (Hat : In row (rowsAt Route.districtEntry key dRows)).
  { unfold rowsAt. apply List.filter_In. split; [exact Hin|].
    rewrite HentryRow. apply String.eqb_refl. }
  pose proof (upsertRows_firstNames Route.districtEntry dRows key) as Hfirst.
  destruct (rowsAt Route.districtEntry key dRows) as [|first rest]; [destruct Hat|].
  destruct Hfirst as (item & item0 & Hget & Hentry0 & Hnames).
  apply districtEntry_Some in Hentry0 as (Hkey & Hlabel0 & Hne0).
  assert (Hlabel : opt_label item = Route.trimmedName (Route.dis_name first)).
  { injection Hnames as _ Hl _ _ _ _ _. congruence. }
  assert (Hlower : toLowerCase (Route.trimmedName (Route.dis_name first)) = toLowerCase name).
  { unfold key in Hkey. cbn [String.append] in Hkey. injection Hkey as Hk. symmetry. exact Hk. }
  assert (Hnorm : normalizeLocationPart (opt_label item) =
                  normalizeLocationPart (default "" (Route.dis_name row))).
  { rewrite Hlabel, <- normalize_lower, Hlower, normalize_lower.
    unfold name, Route.trimmedName. apply normalize_trim. }
  rewrite <- Hnorm. unfold buildPortugalAdminIndex, Route.buildDataset.
  cbn [districtByKey districts].
  apply district_indexed.
  - apply (Permutation_in _ (Permutation_sym (arraySort_Permutation _ _))).
    eapply get_In_values, Hget.
  - rewrite Hlabel. apply trimmedName_named, Hne0.
Qed.

(** The row of " Porto" is merged into the area labelled PORTO; the index
    has the district under ["porto"]. *)
Lemma X16_upstream_districts_reach_the_index_witness :
  is_Some (districtByKey
             (buildPortugalAdminIndex (Route.buildDataset codeUnitCompare district_rows [] []))
           !! "porto").
Proof.
  apply (X16_upstream_districts_reach_the_index codeUnitCompare district_rows [] []
           (geoRow " Porto" None None)).
  - right. left. reflexivity.
  - reflexivity.
Defined.

Section FoldUntouched.

Context {A V : Type}.
Variable step : gmap string V -> A -> gmap string V.
Variable touches : A -> string.
Hypothesis step_other : forall acc x k, touches x <> k -> step acc x !! k = acc !! k.

Lemma fold_untouched l : forall acc k,
  List.Forall (fun x => touches x <> k) l -> fold_left step l acc !! k = acc !! k.
Proof.
  induction l as [|x l IH]; intros acc k H; [reflexivity|].
  inversion H as [|? ? Hx Hl]; subst. simpl. rewrite IH by exact Hl.
  apply step_other, Hx.
Qed.

End FoldUntouched.

Lemma indexMunicipality_other acc item k :
  normalizeLocationPart (opt_label item) <> k -> indexMunicipality acc item !! k = acc !! k.
Proof.
  intros Hk. unfold indexMunicipality.
  destruct (trimmedNonEmpty (Some (opt_label item))) as [s|] eqn:E; [|reflexivity].
  destruct (trimmedNonEmpty (opt_district item)); [|reflexivity].
  destruct (trimmedNonEmpty_trim _ _ E) as (y & [= <-] & ->).
  apply lookup_insert_ne. rewrite normalize_trim. exact Hk.
Qed.

Lemma indexParish_other acc item k :
  normalizeLocationPart (opt_label item) <> k -> indexParish acc item !! k = acc !! k.
Proof.
  intros Hk. unfold indexParish.
  destruct (trimmedNonEmpty (Some (opt_label item))) as [s|] eqn:E; [|reflexivity].
  destruct (trimmedNonEmpty (opt_municipality item)); [|reflexivity].
  destruct (trimmedNonEmpty (opt_district item)); [|reflexivity].
  destruct (trimmedNonEmpty_trim _ _ E) as (y & [= <-] & ->).
  apply lookup_insert_ne. rewrite normalize_trim. exact Hk.
Qed.

(** X17: areas whose labels have the same normalised form share one entry
    of the index, and the last of them in the dataset takes it: a
    municipality (a parish) after which no area of its list has a label
    with the same key is the one found under that key, with its own
    parent names. *)
Theorem X17_last_area_of_a_key_is_indexed :
  forall (dataset : PortugalAdminDataset) (before after : list AdminAreaOption)
         (item : AdminAreaOption) (name districtName : string),
    trimmedNonEmpty (Some (opt_label item)) = Some name ->
    trimmedNonEmpty (opt_district item) = Some districtName ->
    List.Forall (fun later => normalizeLocationPart (opt_label later) <>
                              normalizeLocationPart (opt_label item)) after ->
    let index := buildPortugalAdminIndex dataset in
    let key := normalizeLocationPart (opt_label item) in
    (municipalities dataset = before ++ item :: after ->
     municipalityByKey index !! key =
       Some {| mun_municipality := name; mun_district := districtName |}) /\
    (parishes dataset = before ++ item :: after ->
     forall municipalityName,
       trimmedNonEmpty (opt_municipality item) = Some municipalityName ->
       parishByKey index !! key =
         Some {| rec_district := districtName; rec_municipality := municipalityName;
                 rec_parish := name |}).
Proof.
  intros dataset before after item name districtName Hname Hdistrict Hafter.
  cbv zeta. unfold buildPortugalAdminIndex. cbn [municipalityByKey parishByKey].
  destruct (trimmedNonEmpty_trim _ _ Hname) as (y & [= <-] & Hy).
  assert (Hkey : normalizeLocationPart name = normalizeLocationPart (opt_label item))
    by (rewrite Hy; apply normalize_trim).
  split.
  - intros ->. rewrite fold_left_app. cbn [fold_left].
    rewrite (fold_untouched indexMunicipality (fun x => normalizeLocationPart (opt_label x))
               indexMunicipality_other) by exact Hafter.
    unfold indexMunicipality at 1. rewrite Hname, Hdistrict, Hkey.
    apply lookup_insert_eq.
  - intros -> municipalityName Hmunicipality. rewrite fold_left_app. cbn [fold_left].
    rewrite (fold_untouched indexParish (fun x => normalizeLocationPart (opt_label x))
               indexParish_other) by exact Hafter.
    unfold indexParish at 1. rewrite Hname, Hmunicipality, Hdistrict, Hkey.
    apply lookup_insert_eq.
Qed.

(** Lagoa of Faro and Lagoa of the Azores: the key is taken by the second. *)
Lemma X17_last_area_of_a_key_is_indexed_witness :
  municipalityByKey (buildPortugalAdminIndex lagoa_dataset) !! "lagoa" =
    Some {| mun_municipality := "Lagoa"; mun_district := "Acores" |}.
Proof.
  apply (proj1 (X17_last_area_of_a_key_is_indexed lagoa_dataset
           [area Municipality "Lagoa" (Some "Faro") (Some "Lagoa") None] []
           (area Municipality "Lagoa" (Some "Acores") (Some "Lagoa") None)
           "Lagoa" "Acores" eq_refl eq_refl (List.Forall_nil _))).
  reflexivity.
Defined.

(** ** The client's index cache *)

(** X18: the client builds the index once: after [getPortugalAdminIndex]
    has returned an index, every later call returns this index and leaves
    both caches alone, whatever the public service or the route would
    answer by then. *)
Theorem X18_index_is_built_once :
  forall (localeCompare : string -> string -> Z) (fuel : nat) (upstream : Route.Upstream)
         (now : Z) (cached cached' : option Route.CacheEntry)
         (memo memo' : option PortugalAdminIndex) (index : PortugalAdminIndex),
    getPortugalAdminIndex localeCompare fuel upstream now cached memo =
      ((cached', memo'), Returned index) ->
    forall (fuel' : nat) (upstream' : Route.Upstream) (now' : Z)
           (later : option Route.CacheEntry),
      getPortugalAdminIndex localeCompare fuel' upstream' now' later memo' =
        ((later, memo'), Returned index).
Proof.
  intros lc fuel upstream now cached cached' memo memo' index Hfirst fuel' upstream' now' later.
  unfold getPortugalAdminIndex in Hfirst.
  destruct memo as [known|].
  - injection Hfirst as _ <- <-. reflexivity.
  - destruct (Route.GET lc fuel upstream now cached) as [c answer].
    destruct answer as [response|message|]; try discriminate.
    destruct (listPortugalAdminDataset response) as [dataset|message|]; try discriminate.
    injection Hfirst as _ <- <-. reflexivity.
Qed.

(** The index is built while the public service answers, and returned a
    day later while it is down and the route's cache is empty. *)
Lemma X18_index_is_built_once_witness :
  exists state index,
    getPortugalAdminIndex codeUnitCompare 1
      (pagedUpstream [geoRow "Porto" None None] None) 1000 None None =
      (state, Returned index) /\
    getPortugalAdminIndex codeUnitCompare 1 downUpstream 86401000 None (snd state) =
      ((None, snd state), Returned index).
Proof.
  eexists (_, _), _. split; [vm_compute; reflexivity|].
  apply (X18_index_is_built_once codeUnitCompare 1
           (pagedUpstream [geoRow "Porto" None None] None) 1000 None _ None _ _ eq_refl).
Defined.

(** ** The drill-downs: the query *)

Lemma scanPages_ext store keep keep' pageSize :
  (forall row, keep row = keep' row) ->
  forall fuel offset out,
    scanPages fuel store keep pageSize offset out =
    scanPages fuel store keep' pageSize offset out.
Proof.
  intros Hext. induction fuel as [|fuel IH]; intros offset out; [reflexivity|].
  simpl. rewrite (List.filter_ext _ _ Hext), IH. reflexivity.
Qed.

Lemma upper_lower_ascii c :
  (Chars.code c <? 128)%N = true -> upperUnit (lowerUnit c) = upperUnit c.
Proof. each_unit c; intros H; first [reflexivity | discriminate H]. Qed.

Lemma toUpperCase_lower_ascii s :
  asciiOnly s -> toUpperCase (toLowerCase s) = toUpperCase s.
Proof.
  unfold asciiOnly, toUpperCase, toLowerCase. intros Hs.
  rewrite units_of_units, List.map_map. do 2 f_equal.
  apply List.map_ext_in. intros c Hc. apply upper_lower_ascii.
  exact (proj1 (List.Forall_forall _ _) Hs c Hc).
Qed.

Lemma trim_asciiOnly s : asciiOnly s -> asciiOnly (trim s).
Proof.
  unfold asciiOnly, trim. rewrite units_of_units, !List.Forall_forall.
  intros H c Hc. apply H, In_trimUnits, Hc.
Qed.

Lemma trim_lower s : trim (toLowerCase s) = toLowerCase (trim s).
Proof.
  unfold trim, toLowerCase. rewrite !units_of_units.
  rewrite (map_trimUnits lowerUnit lower_space). reflexivity.
Qed.

Lemma nonEmpty_units s : nonEmpty s = match units s with [] => false | _ => true end.
Proof. destruct s; reflexivity. Qed.

Lemma nonEmpty_lower s : nonEmpty (toLowerCase s) = nonEmpty s.
Proof.
  rewrite !nonEmpty_units. unfold toLowerCase. rewrite units_of_units.
  destruct (units s); reflexivity.
Qed.

(** X19: the region drill-down ignores the letter case of the label asked
    for, and the typology drill-down the white space around it: the
    lower-cased label (the trimmed label) gives the same result.  The
    typology drill-down ignores the letter case of a label of ASCII
    characters.  (Beyond them it need not: the Kelvin sign U+212A, outside
    the modelled range, lower-cases to k and is its own capital.) *)
Theorem X19_drilldowns_ignore_case_of_the_label :
  forall (fuel : nat) (store : ListingStore) (adminIndex : PortugalAdminIndex)
         (pageSize : Z) (level : DashboardRegionLevel) (label : string),
    (asciiOnly label ->
     dashboardListingsByTypology fuel store pageSize (toLowerCase label) =
       dashboardListingsByTypology fuel store pageSize label) /\
    dashboardListingsByTypology fuel store pageSize (trim label) =
      dashboardListingsByTypology fuel store pageSize label /\
    dashboardListingsByRegion fuel store adminIndex pageSize level (toLowerCase label) =
      dashboardListingsByRegion fuel store adminIndex pageSize level label.
Proof.
  intros fuel store adminIndex pageSize level label.
  unfold dashboardListingsByTypology, dashboardListingsByRegion.
  split; [intros Hascii|split]; apply scanPages_ext; intros row.
  - unfold matchesTypology. cbv zeta.
    rewrite trim_lower, toUpperCase_lower_ascii by (apply trim_asciiOnly, Hascii).
    reflexivity.
  - unfold matchesTypology. cbv zeta. rewrite trim_idem. reflexivity.
  - unfold matchesRegion. cbv zeta. rewrite nonEmpty_lower.
    destruct (nonEmpty label); [rewrite normalize_lower|]; reflexivity.
Qed.

(** Asked for ["t1"] or for [" t1 "], the typology drill-down returns what
    it returns for ["T1"]. *)
Lemma X19_drilldowns_ignore_case_of_the_label_witness :
  asciiOnly "T1" /\
  dashboardListingsByTypology 1 (stableStore typed_rows typed_rows) 1000 "t1" =
    dashboardListingsByTypology 1 (stableStore typed_rows typed_rows) 1000 "T1" /\
  dashboardListingsByTypology 1 (stableStore typed_rows typed_rows) 1000 "t1" =
    dashboardListingsByTypology 1 (stableStore typed_rows typed_rows) 1000 " t1 ".
Proof.
  assert (Hascii : asciiOnly "T1") by (repeat constructor).
  split; [exact Hascii|]. split.
  - exact (proj1 (X19_drilldowns_ignore_case_of_the_label
                    1 (stableStore typed_rows typed_rows) porto_index 1000
                    LevelDistrict "T1") Hascii).
  - vm_compute. reflexivity.
Defined.

(** ** The geometry route: quoting *)

Lemma replaceAll_app pattern replacement l l' :
  GeometryRoute.replaceAll pattern replacement (l ++ l') =
  GeometryRoute.replaceAll pattern replacement l ++
  GeometryRoute.replaceAll pattern replacement l'.
Proof. unfold GeometryRoute.replaceAll. rewrite List.map_app, concat_app. reflexivity. Qed.

Lemma escaped_literal : forall value rest,
  readLiteral
    (GeometryRoute.replaceAll GeometryRoute.quote [GeometryRoute.backslash; GeometryRoute.quote]
       (GeometryRoute.replaceAll GeometryRoute.backslash
          [GeometryRoute.backslash; GeometryRoute.backslash] value)
     ++ GeometryRoute.quote :: rest) =
  Some (value, rest).
Proof.
  induction value as [|c value IH]; intros rest; [reflexivity|].
  change (c :: value) with ([c] ++ value).
  rewrite !replaceAll_app.
  destruct (Ascii.eqb c GeometryRoute.backslash) eqn:Eb.
  - apply Ascii.eqb_eq in Eb. subst c.
    change (GeometryRoute.replaceAll GeometryRoute.backslash
              [GeometryRoute.backslash; GeometryRoute.backslash] [GeometryRoute.backslash])
      with [GeometryRoute.backslash; GeometryRoute.backslash].
    change (GeometryRoute.replaceAll GeometryRoute.quote
              [GeometryRoute.backslash; GeometryRoute.quote]
              [GeometryRoute.backslash; GeometryRoute.backslash])
      with [GeometryRoute.backslash; GeometryRoute.backslash].
    cbn [app readLiteral].
    change (Ascii.eqb GeometryRoute.backslash GeometryRoute.quote) with false.
    change (Ascii.eqb GeometryRoute.backslash GeometryRoute.backslash) with true.
    cbv iota. rewrite IH. reflexivity.
  - assert (Hone : GeometryRoute.replaceAll GeometryRoute.backslash
                     [GeometryRoute.backslash; GeometryRoute.backslash] [c] = [c]).
    { unfold GeometryRoute.replaceAll. simpl. rewrite Eb. reflexivity. }
    rewrite Hone.
    destruct (Ascii.eqb c GeometryRoute.quote) eqn:Eq.
    + apply Ascii.eqb_eq in Eq. subst c.
      change (GeometryRoute.replaceAll GeometryRoute.quote
                [GeometryRoute.backslash; GeometryRoute.quote] [GeometryRoute.quote])
        with [GeometryRoute.backslash; GeometryRoute.quote].
      cbn [app readLiteral].
      change (Ascii.eqb GeometryRoute.backslash GeometryRoute.quote) with false.
      change (Ascii.eqb GeometryRoute.backslash GeometryRoute.backslash) with true.
      cbv iota. rewrite IH. reflexivity.
    + assert (Htwo : GeometryRoute.replaceAll GeometryRoute.quote
                       [GeometryRoute.backslash; GeometryRoute.quote] [c] = [c]).
      { unfold GeometryRoute.replaceAll. simpl. rewrite Eq. reflexivity. }
      rewrite Htwo. cbn [app readLiteral]. rewrite Eq, Eb, IH. reflexivity.
Qed.

(** X20: the condition that [buildWhereEquals] builds is the field, [=],
    and a quoted literal that reads back as the value, whatever the value
    holds: its quotes and backslashes do not end the literal early, and the
    literal ends exactly at the closing quote. *)
Theorem X20_buildWhereEquals_quotes_the_value :
  forall (field value : string) (rest : list ascii),
    exists literal,
      units (GeometryRoute.buildWhereEquals field value) ++ rest =
        units field ++ ["="%char; GeometryRoute.quote] ++ literal /\
      readLiteral literal = Some (units value, rest).
Proof.
  intros field value rest.
  exists (GeometryRoute.escaped value ++ GeometryRoute.quote :: rest). split.
  - unfold GeometryRoute.buildWhereEquals. rewrite units_of_units.
    rewrite <- !app_assoc. reflexivity.
  - apply escaped_literal.
Qed.

(** ** Admin selections *)

Lemma upper_upper c : concat (map upperUnit (upperUnit c)) = upperUnit c.
Proof. each_unit c. Qed.

Lemma toUpperCase_idem s : toUpperCase (toUpperCase s) = toUpperCase s.
Proof.
  unfold toUpperCase. rewrite units_of_units. f_equal.
  induction (units s) as [|c l IH]; [reflexivity|].
  simpl. rewrite List.map_app, concat_app, IH, upper_upper. reflexivity.
Qed.

Lemma upperUnit_nonEmpty c : upperUnit c <> [].
Proof. each_unit c; discriminate. Qed.

Lemma nonEmpty_upper s : nonEmpty (toUpperCase s) = nonEmpty s.
Proof.
  rewrite !nonEmpty_units. unfold toUpperCase. rewrite units_of_units.
  destruct (units s) as [|c l]; [reflexivity|].
  simpl. pose proof (upperUnit_nonEmpty c). destruct (upperUnit c); [contradiction|reflexivity].
Qed.

Lemma nonEmpty_orElse x : nonEmpty (orElse x "PT") = true.
Proof. unfold orElse. destruct (nonEmpty x) eqn:E; [exact E|reflexivity]. Qed.

Lemma stored_country x :
  toUpperCase (orElse (toUpperCase (orElse x "PT")) "PT") = toUpperCase (orElse x "PT").
Proof.
  unfold orElse at 1. rewrite nonEmpty_upper, nonEmpty_orElse. apply toUpperCase_idem.
Qed.

Lemma orEmpty_whenTruthy x : orEmpty (whenTruthy x) = orEmpty x.
Proof. destruct x as [[|c s]|]; reflexivity. Qed.

Lemma whenTruthy_idem x : whenTruthy (whenTruthy x) = whenTruthy x.
Proof. destruct x as [[|c s]|]; reflexivity. Qed.

Lemma selectionKey_stored item : selectionKey (storedSelection item) = selectionKey item.
Proof.
  unfold selectionKey, storedSelection.
  cbn [sel_country sel_district sel_municipality sel_parish].
  rewrite stored_country, !orEmpty_whenTruthy. reflexivity.
Qed.

Lemma storedSelection_idem item : storedSelection (storedSelection item) = storedSelection item.
Proof.
  unfold storedSelection. cbn [sel_country sel_district sel_municipality sel_parish].
  rewrite stored_country, !whenTruthy_idem. reflexivity.
Qed.

Lemma set_entries {V} (P : string * V -> Prop) k v (m : JsMap.t V) :
  List.Forall P m -> P (k, v) -> List.Forall P (JsMap.set k v m).
Proof.
  intros Hm Hv. induction Hm as [|[k0 v0] m H0 Hm IH]; simpl.
  - repeat constructor. exact Hv.
  - destruct (String.eqb k0 k); constructor; auto.
Qed.

Lemma set_fresh {V} k (v : V) m : ~ In k (JsMap.keys m) -> JsMap.set k v m = m ++ [(k, v)].
Proof.
  induction m as [|[k0 v0] m IH]; simpl; intros Hk; [reflexivity|].
  destruct (String.eqb_spec k0 k) as [->|Hne]; [tauto|].
  rewrite IH by tauto. reflexivity.
Qed.

Lemma dedupe_step_stored byKey item :
  storedUnderKeys byKey ->
  storedUnderKeys (JsMap.set (selectionKey item) (storedSelection item) byKey).
Proof.
  intros [Hn Hf]. split; [apply set_keys_NoDup, Hn|].
  apply set_entries; [exact Hf|]. simpl.
  split; [apply selectionKey_stored|apply storedSelection_idem].
Qed.

Lemma dedupe_stored selections :
  storedUnderKeys
    (fold_left (fun byKey item => JsMap.set (selectionKey item) (storedSelection item) byKey)
       selections JsMap.empty).
Proof.
  apply (fold_left_invariant storedUnderKeys).
  - split; constructor.
  - intros acc item Hacc. apply dedupe_step_stored, Hacc.
Qed.

Lemma refold_stored : forall m acc,
  List.NoDup (JsMap.keys (acc ++ m)) ->
  List.Forall (fun e => selectionKey (snd e) = fst e /\ storedSelection (snd e) = snd e) m ->
  fold_left (fun byKey item => JsMap.set (selectionKey item) (storedSelection item) byKey)
    (JsMap.values m) acc = acc ++ m.
Proof.
  induction m as [|[k v] m IH]; intros acc Hn Hf; simpl.
  - rewrite app_nil_r. reflexivity.
  - inversion Hf as [|? ? [Hk Hv] Hm]; subst. simpl in Hk, Hv.
    rewrite Hk, Hv. rewrite set_fresh.
    + rewrite IH; [rewrite <- app_assoc; reflexivity| |exact Hm].
      rewrite <- app_assoc. exact Hn.
    + unfold JsMap.keys in *. rewrite List.map_app in Hn. simpl in Hn.
      apply List.NoDup_remove_2 in Hn. intros Hin. apply Hn.
      apply List.in_or_app. left. exact Hin.
Qed.

Lemma dedupe_idem selections :
  dedupeAdminSelections (dedupeAdminSelections selections) = dedupeAdminSelections selections.
Proof.
  unfold dedupeAdminSelections at 1. cbv zeta.
  unfold dedupeAdminSelections at 1. cbv zeta.
  destruct (dedupe_stored selections) as [Hn Hf].
  rewrite (refold_stored _ JsMap.empty); [reflexivity|exact Hn|exact Hf].
Qed.

(** X21: [dedupeAdminSelections] is idempotent: a deduplicated list is
    returned as it is. *)
Theorem X21_dedupeAdminSelections_idempotent :
  forall selections : list AdminSelection,
    dedupeAdminSelections (dedupeAdminSelections selections) =
    dedupeAdminSelections selections.
Proof. exact dedupe_idem. Qed.

Lemma lastWins_step done byKey item :
  lastWins done byKey ->
  lastWins (done ++ [item]) (JsMap.set (selectionKey item) (storedSelection item) byKey).
Proof.
  intros H key. specialize (H key). rewrite get_set.
  destruct (String.eqb_spec (selectionKey item) key) as [<-|Hne].
  - split; [|apply selectionKey_stored].
    exists done, item, []. split; [reflexivity|]. split; [reflexivity|constructor].
  - destruct (JsMap.get key byKey) as [kept|].
    + destruct H as [(before & x & after & -> & -> & Hafter) Hkey]. split; [|exact Hkey].
      exists before, x, (after ++ [item]).
      split; [rewrite <- app_assoc; reflexivity|]. split; [reflexivity|].
      apply List.Forall_app. split; [exact Hafter|].
      repeat constructor. rewrite selectionKey_stored in Hkey. congruence.
    + apply List.Forall_app. split; [exact H|]. repeat constructor. exact Hne.
Qed.

Lemma dedupe_lastWins selections :
  lastWins selections
    (fold_left (fun byKey item => JsMap.set (selectionKey item) (storedSelection item) byKey)
       selections JsMap.empty).
Proof.
  assert (G : forall more done byKey,
             lastWins done byKey ->
             lastWins (done ++ more)
               (fold_left (fun byKey item =>
                             JsMap.set (selectionKey item) (storedSelection item) byKey)
                  more byKey)).
  { induction more as [|item more IH]; intros done byKey H; simpl.
    - rewrite app_nil_r. exact H.
    - replace (done ++ item :: more) with ((done ++ [item]) ++ more)
        by (rewrite <- app_assoc; reflexivity).
      apply IH, lastWins_step, H. }
  apply (G selections [] JsMap.empty). intros key. constructor.
Qed.

Lemma NoDup_get {V} (m : JsMap.t V) k v :
  List.NoDup (JsMap.keys m) -> In (k, v) m -> JsMap.get k m = Some v.
Proof.
  induction m as [|[k0 v0] m IH]; simpl; intros Hn Hin; [destruct Hin|].
  inversion Hn as [|? ? Hk0 Hm]; subst.
  destruct Hin as [[= -> ->]|Hin]; [rewrite String.eqb_refl; reflexivity|].
  destruct (String.eqb_spec k0 k) as [->|Hne]; [|apply IH; assumption].
  exfalso. apply Hk0. apply List.in_map_iff. exists (k, v). auto.
Qed.

Lemma dedupe_lastOfItsKey selections :
  List.Forall (lastOfItsKey selections) (dedupeAdminSelections selections).
Proof.
  unfold dedupeAdminSelections. cbv zeta.
  pose proof (dedupe_stored selections) as [Hn _].
  pose proof (dedupe_lastWins selections) as Hlast.
  set (byKey := fold_left _ selections JsMap.empty) in *.
  apply List.Forall_forall. intros kept Hin.
  apply List.in_map_iff in Hin as ([k v] & <- & Hin). simpl.
  pose proof (NoDup_get byKey k v Hn Hin) as Hget.
  specialize (Hlast k). rewrite Hget in Hlast. apply Hlast.
Qed.

(** X22: [dedupeAdminSelections] keeps one selection per key: the keys of
    the result are pairwise distinct, every selection of the argument has
    its key in the result, and every selection of the result is the stored
    form of the last selection of the argument that has its key. *)
Theorem X22_dedupe_keeps_the_last_selection_of_each_key :
  forall selections : list AdminSelection,
    let out := dedupeAdminSelections selections in
    List.NoDup (map selectionKey out) /\
    List.Forall (fun item => exists kept, In kept out /\ selectionKey kept = selectionKey item)
                selections /\
    List.Forall (lastOfItsKey selections) out.
Proof.
  intros selections. cbv zeta. unfold dedupeAdminSelections. cbv zeta.
  pose proof (dedupe_stored selections) as [Hn Hf].
  pose proof (dedupe_lastWins selections) as Hlast.
  set (byKey := fold_left _ selections JsMap.empty) in *.
  split; [|split].
  - unfold JsMap.values. rewrite List.map_map.
    replace (map (fun e => selectionKey (snd e)) byKey) with (JsMap.keys byKey); [exact Hn|].
    unfold JsMap.keys. clear Hn Hlast.
    induction Hf as [|e m [He _] _ IH]; simpl; [reflexivity|]. rewrite He, IH. reflexivity.
  - apply List.Forall_forall. intros item Hin.
    specialize (Hlast (selectionKey item)).
    destruct (JsMap.get (selectionKey item) byKey) as [kept|] eqn:Eg.
    + exists kept. split; [eapply get_In_values, Eg|apply Hlast].
    + exfalso. apply (proj1 (List.Forall_forall _ _) Hlast item Hin). reflexivity.
  - apply dedupe_lastOfItsKey.
Qed.

Lemma upper_of_space c : Chars.isSpace c = true -> upperUnit c = [c].
Proof. each_unit c; discriminate. Qed.

Lemma upper_of_unit c :
  Chars.isSpace c = false -> forallb (fun u => negb (Chars.isSpace u)) (upperUnit c) = true.
Proof. each_unit c; discriminate. Qed.

Lemma dropSpaces_upper l :
  dropSpaces (concat (map upperUnit l)) = concat (map upperUnit (dropSpaces l)).
Proof.
  induction l as [|c l IH]; [reflexivity|].
  simpl. destruct (Chars.isSpace c) eqn:E.
  - rewrite (upper_of_space c E). simpl. rewrite E. exact IH.
  - pose proof (upper_of_unit c E) as Hu. pose proof (upperUnit_nonEmpty c) as Hn.
    simpl. destruct (upperUnit c) as [|a x]; [contradiction|].
    simpl in *. apply andb_prop in Hu as [Ha _]. apply negb_true_iff in Ha.
    rewrite Ha. reflexivity.
Qed.

Lemma dropTrailing_units x r :
  forallb (fun u => negb (Chars.isSpace u)) x = true ->
  dropTrailingSpaces (x ++ r) = x ++ dropTrailingSpaces r.
Proof.
  induction x as [|a x IH]; intros H; [reflexivity|].
  simpl in H. apply andb_prop in H as [Ha Hx]. apply negb_true_iff in Ha.
  rewrite <- !app_comm_cons, dropTrailing_cons, IH by exact Hx.
  destruct (x ++ dropTrailingSpaces r) eqn:E; [|reflexivity].
  rewrite Ha. reflexivity.
Qed.

Lemma dropTrailing_upper l :
  dropTrailingSpaces (concat (map upperUnit l)) = concat (map upperUnit (dropTrailingSpaces l)).
Proof.
  induction l as [|c l IH]; [reflexivity|].
  cbn [map concat]. rewrite dropTrailing_cons.
  destruct (Chars.isSpace c) eqn:E.
  - rewrite (upper_of_space c E). cbn [app]. rewrite dropTrailing_cons, IH, E.
    destruct (dropTrailingSpaces l) as [|d r]; [reflexivity|].
    cbn [map concat]. rewrite (upper_of_space c E).
    pose proof (upperUnit_nonEmpty d). destruct (upperUnit d); [contradiction|reflexivity].
  - rewrite dropTrailing_units, IH by (apply upper_of_unit, E).
    destruct (dropTrailingSpaces l); cbn [map concat]; rewrite ?app_nil_r; reflexivity.
Qed.

Lemma trim_upper s : trim (toUpperCase s) = toUpperCase (trim s).
Proof.
  unfold trim, toUpperCase. rewrite !units_of_units, !trimUnits_passes.
  rewrite dropSpaces_upper, dropTrailing_upper. reflexivity.
Qed.

Lemma tidyName_trimmed s :
  tidyName (if nonEmpty (trim s) then Some (trim s) else None).
Proof.
  destruct (nonEmpty (trim s)) eqn:E; [|exact I].
  split; [exact E|apply trim_idem].
Qed.

Lemma selectionOfItem_normal item selection :
  selectionOfItem item = Some selection ->
  normalSelection selection /\ storedSelection selection = selection.
Proof.
  unfold selectionOfItem. destruct (isFalsy item || negb (isObject item)); [discriminate|].
  cbv zeta.
  set (country := match stringProperty item "country" with
                  | Some s => toUpperCase (trim s)
                  | None => "PT"
                  end).
  set (district := match stringProperty item "district" with
                   | Some s => trim s | None => EmptyString end).
  set (municipality := match stringProperty item "municipality" with
                       | Some s => trim s | None => EmptyString end).
  set (parish := match stringProperty item "parish" with
                 | Some s => trim s
                 | None => match stringProperty item "freguesia" with
                           | Some s => trim s | None => EmptyString end
                 end).
  assert (Hcountry : toUpperCase country = country /\ trim country = country).
  { unfold country. destruct (stringProperty item "country") as [s|].
    - split; [apply toUpperCase_idem|]. rewrite trim_upper, trim_idem. reflexivity.
    - split; reflexivity. }
  assert (Hname : forall x, (exists s, x = trim s) \/ x = EmptyString ->
                    tidyName (if nonEmpty x then Some x else None)).
  { intros x [[s ->]| ->]; [apply tidyName_trimmed|exact I]. }
  assert (Hd : tidyName (if nonEmpty district then Some district else None)).
  { apply Hname. unfold district. destruct (stringProperty item "district"); eauto. }
  assert (Hm : tidyName (if nonEmpty municipality then Some municipality else None)).
  { apply Hname. unfold municipality. destruct (stringProperty item "municipality"); eauto. }
  assert (Hp : tidyName (if nonEmpty parish then Some parish else None)).
  { apply Hname. unfold parish.
    destruct (stringProperty item "parish"); [eauto|].
    destruct (stringProperty item "freguesia"); eauto. }
  destruct Hcountry as [Hupper Htrim].
  destruct (negb (nonEmpty district) && negb (nonEmpty municipality) &&
            negb (nonEmpty parish) && negb (String.eqb country "PT")) eqn:Eskip;
    [discriminate|].
  intros [= <-]. split.
  - unfold normalSelection. cbn [sel_country sel_district sel_municipality sel_parish].
    split; [apply nonEmpty_orElse|].
    split; [unfold orElse; destruct (nonEmpty country); [exact Hupper|reflexivity]|].
    split; [unfold orElse; destruct (nonEmpty country); [exact Htrim|reflexivity]|].
    split; [exact Hd|]. split; [exact Hm|]. split; [exact Hp|].
    intros Nd Nm Np.
    destruct (nonEmpty district); [discriminate|].
    destruct (nonEmpty municipality); [discriminate|].
    destruct (nonEmpty parish); [discriminate|].
    simpl in Eskip. apply negb_false_iff, String.eqb_eq in Eskip.
    rewrite Eskip. reflexivity.
  - unfold storedSelection. cbn [sel_country sel_district sel_municipality sel_parish].
    f_equal.
    + unfold orElse at 1. rewrite nonEmpty_orElse.
      unfold orElse. destruct (nonEmpty country); [exact Hupper|reflexivity].
    + destruct (nonEmpty district) eqn:E; [simpl; rewrite E|]; reflexivity.
    + destruct (nonEmpty municipality) eqn:E; [simpl; rewrite E|]; reflexivity.
    + destruct (nonEmpty parish) eqn:E; [simpl; rewrite E|]; reflexivity.
Qed.

Lemma pushed_from_items items :
  List.Forall (fun selection => exists item, selectionOfItem item = Some selection)
    (pushedSelections items).
Proof.
  unfold pushedSelections.
  apply (fold_left_invariant
           (List.Forall (fun selection => exists item, selectionOfItem item = Some selection))).
  - constructor.
  - intros acc item Hacc. destruct (selectionOfItem item) as [selection|] eqn:E; [|exact Hacc].
    apply List.Forall_app. split; [exact Hacc|]. repeat constructor. eauto.
Qed.

Lemma normalized_normal value :
  List.Forall normalSelection (normalizeAdminSelections value).
Proof.
  destruct value; try constructor.
  unfold normalizeAdminSelections. fold (pushedSelections items).
  apply List.Forall_forall. intros kept Hin.
  pose proof (dedupe_lastOfItsKey (pushedSelections items)) as Hlast.
  apply (proj1 (List.Forall_forall _ _) Hlast) in Hin
    as (before & selection & after & Hsplit & -> & _).
  pose proof (pushed_from_items items) as Hfrom.
  assert (Hsel : In selection (pushedSelections items))
    by (rewrite Hsplit; apply List.in_or_app; right; left; reflexivity).
  apply (proj1 (List.Forall_forall _ _) Hfrom) in Hsel as [item Hitem].
  apply selectionOfItem_normal in Hitem as [Hnormal Hstored].
  rewrite Hstored. exact Hnormal.
Qed.

(** X23: every selection that [normalizeAdminSelections] returns has an
    upper-case, trimmed, non-empty country and names that are trimmed and
    non-empty where they are set, and it names a district, municipality or
    parish unless its country is PT. *)
Theorem X23_normalized_selections_are_normal :
  forall value : JsValue,
    List.Forall normalSelection (normalizeAdminSelections value).
Proof. exact normalized_normal. Qed.

Lemma encoded_country s : stringProperty (encodeSelection s) "country" = Some (sel_country s).
Proof. destruct s as [c [d|] [m|] [p|]]; reflexivity. Qed.

Lemma encoded_district s : stringProperty (encodeSelection s) "district" = sel_district s.
Proof. destruct s as [c [d|] [m|] [p|]]; reflexivity. Qed.

Lemma encoded_municipality s :
  stringProperty (encodeSelection s) "municipality" = sel_municipality s.
Proof. destruct s as [c [d|] [m|] [p|]]; reflexivity. Qed.

Lemma encoded_parish s : stringProperty (encodeSelection s) "parish" = sel_parish s.
Proof. destruct s as [c [d|] [m|] [p|]]; reflexivity. Qed.

Lemma encoded_freguesia s : stringProperty (encodeSelection s) "freguesia" = None.
Proof. destruct s as [c [d|] [m|] [p|]]; reflexivity. Qed.

Lemma tidyName_read name :
  tidyName name ->
  (let x := match name with Some s => trim s | None => EmptyString end in
   if nonEmpty x then Some x else None) = name.
Proof.
  destruct name as [n|]; [|reflexivity].
  intros [Hne Htrim]. cbv zeta. rewrite Htrim, Hne. reflexivity.
Qed.

Lemma selectionOfItem_encoded s :
  normalSelection s -> selectionOfItem (encodeSelection s) = Some s.
Proof.
  intros (Hne & Hupper & Htrim & Hd & Hm & Hp & Hsome).
  unfold selectionOfItem.
  change (isFalsy (encodeSelection s) || negb (isObject (encodeSelection s))) with false.
  cbv iota zeta.
  rewrite encoded_country, encoded_district, encoded_municipality, encoded_parish.
  rewrite Htrim, Hupper.
  pose proof (tidyName_read _ Hd) as Rd.
  pose proof (tidyName_read _ Hm) as Rm.
  assert (Rp : (let x := match sel_parish s with
                         | Some p => trim p
                         | None => match stringProperty (encodeSelection s) "freguesia" with
                                   | Some p => trim p
                                   | None => EmptyString
                                   end
                         end in
                if nonEmpty x then Some x else None) = sel_parish s).
  { rewrite encoded_freguesia. apply tidyName_read, Hp. }
  cbv zeta in Rd, Rm, Rp.
  set (district := match sel_district s with Some x => trim x | None => EmptyString end) in *.
  set (municipality :=
         match sel_municipality s with Some x => trim x | None => EmptyString end) in *.
  set (parish := match sel_parish s with
                 | Some p => trim p
                 | None => match stringProperty (encodeSelection s) "freguesia" with
                           | Some p => trim p
                           | None => EmptyString
                           end
                 end) in *.
  assert (Hkeep : negb (nonEmpty district) && negb (nonEmpty municipality) &&
                  negb (nonEmpty parish) && negb (String.eqb (sel_country s) "PT") = false).
  { destruct (nonEmpty district); [reflexivity|].
    destruct (nonEmpty municipality); [reflexivity|].
    destruct (nonEmpty parish); [reflexivity|].
    rewrite (Hsome (eq_sym Rd) (eq_sym Rm) (eq_sym Rp)). reflexivity. }
  rewrite Hkeep, Rd, Rm, Rp.
  unfold orElse. rewrite Hne. destruct s; reflexivity.
Qed.

Lemma pushed_encoded selections :
  List.Forall normalSelection selections ->
  pushedSelections (map encodeSelection selections) = selections.
Proof.
  unfold pushedSelections.
  assert (G : forall more out,
             List.Forall normalSelection more ->
             fold_left (fun out item =>
                          match selectionOfItem item with
                          | Some selection => out ++ [selection]
                          | None => out
                          end) (map encodeSelection more) out = out ++ more).
  { induction more as [|s more IH]; intros out H; simpl.
    - rewrite app_nil_r. reflexivity.
    - inversion H as [|? ? Hs Hmore]; subst.
      rewrite (selectionOfItem_encoded s Hs), IH by exact Hmore.
      rewrite <- app_assoc. reflexivity. }
  intros H. apply (G selections [] H).
Qed.

(** X24: normalised selections survive a round trip through their JSON
    form: [normalizeAdminSelections] of the encoded result of
    [normalizeAdminSelections] is that result. *)
Theorem X24_normalized_selections_round_trip :
  forall value : JsValue,
    normalizeAdminSelections
      (JsArray (map encodeSelection (normalizeAdminSelections value))) =
    normalizeAdminSelections value.
Proof.
  intros value.
  unfold normalizeAdminSelections at 1.
  fold (pushedSelections (map encodeSelection (normalizeAdminSelections value))).
  rewrite pushed_encoded by apply normalized_normal.
  destruct value; try reflexivity.
  unfold normalizeAdminSelections. apply dedupe_idem.
Qed.

(** ** Parishes and sources *)

Lemma existsb_eqb x set : existsb (String.eqb x) set = true <-> In x set.
Proof.
  rewrite List.existsb_exists. split.
  - intros (y & Hy & E). apply String.eqb_eq in E. subst y. exact Hy.
  - intros H. exists x. split; [exact H|apply String.eqb_refl].
Qed.

Lemma In_setAdd x y set : In x (setAdd y set) <-> x = y \/ In x set.
Proof.
  unfold setAdd. destruct (existsb (String.eqb y) set) eqn:E.
  - apply existsb_eqb in E. split; [auto|]. intros [->|H]; assumption.
  - rewrite List.in_app_iff. simpl. split.
    + intros [H|[H|[]]]; auto.
    + intros [->|H]; auto.
Qed.

Lemma NoDup_setAdd y set : List.NoDup set -> List.NoDup (setAdd y set).
Proof.
  intros H. unfold setAdd. destruct (existsb (String.eqb y) set) eqn:E; [exact H|].
  assert (Hy : ~ In y set) by (rewrite <- existsb_eqb, E; discriminate).
  apply List.NoDup_app; [exact H|repeat constructor; intros []|].
  intros x Hx [<-|[]]. exact (Hy Hx).
Qed.

Section SetOfSome.

Context {A : Type}.
Variable pick : A -> option string.

Lemma set_of_some items :
  let unique :=
    fold_left (fun unique item =>
                 match pick item with
                 | Some x => setAdd x unique
                 | None => unique
                 end) items [] in
  List.NoDup unique /\
  forall x, In x unique <-> exists item, In item items /\ pick item = Some x.
Proof.
  cbv zeta.
  assert (G : forall more done unique,
             (List.NoDup unique /\
              forall x, In x unique <-> exists item, In item done /\ pick item = Some x) ->
             let unique' :=
               fold_left (fun unique item =>
                            match pick item with
                            | Some x => setAdd x unique
                            | None => unique
                            end) more unique in
             List.NoDup unique' /\
             forall x, In x unique' <-> exists item, In item (done ++ more) /\ pick item = Some x).
  { induction more as [|item more IH]; intros done unique [Hn Hin]; cbv zeta.
    - simpl. rewrite app_nil_r. auto.
    - replace (done ++ item :: more) with ((done ++ [item]) ++ more)
        by (rewrite <- app_assoc; reflexivity).
      cbn [fold_left]. apply IH.
      destruct (pick item) as [y|] eqn:E.
      + split; [apply NoDup_setAdd, Hn|].
        intros x. rewrite In_setAdd, Hin. split.
        * intros [->|(it & Hit & Hp)].
          -- exists item. split; [apply List.in_or_app; right; left; reflexivity|exact E].
          -- exists it. split; [apply List.in_or_app; left; exact Hit|exact Hp].
        * intros (it & Hit & Hp). apply List.in_app_or in Hit as [Hit|[<-|[]]].
          -- right. eauto.
          -- left. congruence.
      + split; [exact Hn|]. intros x. rewrite Hin. split.
        * intros (it & Hit & Hp). exists it. split; [apply List.in_or_app; left; exact Hit|exact Hp].
        * intros (it & Hit & Hp). apply List.in_app_or in Hit as [Hit|[<-|[]]]; [eauto|congruence]. }
  apply (G items [] []). split; [constructor|].
  intros x. split; [intros []|intros (it & [] & _)].
Qed.

End SetOfSome.

Lemma beforeComma_free l c : In c (beforeComma l) -> (Chars.code c =? 44)%N = false.
Proof.
  induction l as [|d l IH]; simpl; [tauto|].
  destruct (Chars.code d =? 44)%N eqn:E; [intros []|].
  intros [<-|H]; [exact E|apply IH, H].
Qed.

Lemma parishOfRow_shape row parish :
  parishOfRow row = Some parish ->
  nonEmpty parish = true /\ trim parish = parish /\ commaFree parish.
Proof.
  unfold parishOfRow. cbv zeta.
  destruct (negb (nonEmpty (trim (orEmpty (row_location_text row))))); [discriminate|].
  destruct (nonEmpty (ofUnits _)) eqn:E; [|discriminate].
  intros [= <-]. split; [exact E|]. split.
  - unfold trim. rewrite units_of_units, trimUnits_idem. reflexivity.
  - unfold commaFree. rewrite units_of_units. apply List.Forall_forall.
    intros c Hc. eapply beforeComma_free, In_trimUnits, Hc.
Qed.

(** X25: when its query succeeds, [listPortugalParishes] returns each
    parish once; every one is a non-empty, trimmed string without a comma,
    and the parishes returned are those of the rows: the text before the
    first comma of a non-blank [location_text], trimmed. *)
Theorem X25_parishes_are_listed_once :
  forall (localeCompare : string -> string -> Z) (answer : QueryResult),
    q_error answer = None ->
    exists out,
      listPortugalParishes localeCompare answer = Returned out /\
      List.NoDup out /\
      List.Forall (fun parish => nonEmpty parish = true /\ trim parish = parish /\
                                 commaFree parish) out /\
      forall parish,
        In parish out <->
        exists row, In row (default [] (q_data answer)) /\ parishOfRow row = Some parish.
Proof.
  intros lc answer Herr. unfold listPortugalParishes. rewrite Herr. cbv zeta.
  destruct (set_of_some parishOfRow (default [] (q_data answer))) as [Hn Hin].
  cbv zeta in Hn, Hin.
  set (unique := fold_left _ (default [] (q_data answer)) []) in *.
  pose proof (arraySort_Permutation lc unique) as Hperm.
  eexists. split; [reflexivity|]. split; [|split].
  - eapply Permutation_NoDup; [symmetry; exact Hperm|exact Hn].
  - apply List.Forall_forall. intros parish Hp.
    apply (Permutation_in _ Hperm), Hin in Hp as (row & _ & Hrow).
    eapply parishOfRow_shape, Hrow.
  - intros parish. rewrite <- Hin. split; apply Permutation_in; [|symmetry]; exact Hperm.
Qed.

(** The three sample listings: Matosinhos, Porto and a street. *)
Lemma X25_parishes_are_listed_once_witness :
  listPortugalParishes codeUnitCompare
    {| q_data := Some (sample_rows ++ sample_rows); q_error := None |} =
  Returned ["Matosinhos"; "Porto"; "Rua das Flores 12"].
Proof.
  destruct (X25_parishes_are_listed_once codeUnitCompare
              {| q_data := Some (sample_rows ++ sample_rows); q_error := None |} eq_refl)
    as (out & Hout & _).
  rewrite Hout. revert Hout. vm_compute. intros [= <-]. reflexivity.
Defined.

(** X26: the source names that [getRawListingsForSources] queries for are
    pairwise distinct, non-empty, trimmed and in lower case, and they are
    the non-empty trimmed lower-case forms of the names it is given. *)
Theorem X26_queried_sources_are_normalised_once :
  forall sources : list string,
    let out := normalizedSources sources in
    List.NoDup out /\
    List.Forall (fun s => nonEmpty s = true /\ trim s = s /\ toLowerCase s = s) out /\
    forall s,
      In s out <->
      nonEmpty s = true /\ exists x, In x sources /\ s = toLowerCase (trim x).
Proof.
  intros sources. cbv zeta. unfold normalizedSources.
  destruct (set_of_some (fun x : string => Some x)
              (List.filter nonEmpty (map (fun x => toLowerCase (trim x)) sources)))
    as [Hn Hin].
  cbv zeta in Hn, Hin.
  set (out := fold_left _ _ []) in *.
  assert (Hout : forall s, In s out <->
                   nonEmpty s = true /\ exists x, In x sources /\ s = toLowerCase (trim x)).
  { intros s. rewrite Hin. split.
    - intros (y & Hy & [= ->]). apply List.filter_In in Hy as [Hy Hne].
      apply List.in_map_iff in Hy as (x & <- & Hx). eauto.
    - intros (Hne & x & Hx & ->). eexists. split; [|reflexivity].
      apply List.filter_In. split; [|exact Hne].
      apply List.in_map_iff. eauto. }
  split; [exact Hn|]. split; [|exact Hout].
  apply List.Forall_forall. intros s Hs. apply Hout in Hs as (Hne & x & _ & ->).
  split; [exact Hne|]. split.
  - rewrite <- trim_lower, trim_idem. reflexivity.
  - unfold toLowerCase at 1. unfold toLowerCase at 1. rewrite units_of_units, List.map_map.
    rewrite (List.map_ext _ _ lower_idem). reflexivity.
Qed.

(** ** The drill-down by source *)

Lemma filter_all {A} (l : list A) : List.filter (fun _ => true) l = l.
Proof. induction l as [|x l IH]; simpl; [|rewrite IH]; reflexivity. Qed.

(** X27: over a stable listing set, and given fuel for the pages,
    [getDashboardListingsBySource] returns the rows of the source asked
    for, each once and in the order of the query, and no other row. *)
Theorem X27_by_source_returns_the_rows_of_the_source :
  forall (byId byLastSeen : list ListingRow) (source : string) (fuel : nat),
    Z.of_nat (length (List.filter (ofSource source) byLastSeen)) / 1000 < Z.of_nat fuel ->
    let expected := map normalizeDashboardRow (List.filter (ofSource source) byLastSeen) in
    getDashboardListingsBySource fuel (stableSourceStore byId byLastSeen) source =
      Returned expected /\
    List.Forall (fun row => d_source row = source) expected.
Proof.
  intros byId bySeen source fuel Hfuel. cbv zeta. split.
  - unfold getDashboardListingsBySource, stableSourceStore.
    rewrite scan_stable_from_start by (lia || assumption).
    rewrite filter_all. reflexivity.
  - apply List.Forall_forall. intros row Hrow.
    apply List.in_map_iff in Hrow as (r & <- & Hr).
    apply List.filter_In in Hr as [_ Hr]. apply String.eqb_eq in Hr. exact Hr.
Qed.

Lemma X27_by_source_returns_the_rows_of_the_source_witness :
  getDashboardListingsBySource 1 (stableSourceStore sample_rows sample_rows) "src" =
  Returned (map normalizeDashboardRow sample_rows).
Proof.
  apply (X27_by_source_returns_the_rows_of_the_source sample_rows sample_rows "src" 1).
  vm_compute. reflexivity.
Defined.

(** ** The geometry request *)

Lemma truthy_orEmpty x : truthy x = true -> nonEmpty (orEmpty x) = true.
Proof. destruct x as [s|]; [intros H; exact H|discriminate]. Qed.

(** X28: a geometry request of the client is never unfiltered: the where
    clause that the route builds for it ends with the condition on the
    name of the level asked for, whichever of the names above that level
    are missing. *)
Theorem X28_geometry_request_names_its_level :
  forall (selection : AdminSelection) (level : AdminLevel)
         (district municipality parish : string),
    geometryRequest selection = Some (level, district, municipality, parish) ->
    last (GeometryRoute.whereParts level district municipality parish) =
    Some (ownCondition level district municipality parish).
Proof.
  intros selection level d m p. unfold geometryRequest, selectionLevel.
  destruct (truthy (sel_parish selection)) eqn:Ep.
  - intros [= <- <- <- <-]. apply truthy_orEmpty in Ep.
    unfold GeometryRoute.whereParts, ownCondition. rewrite Ep.
    rewrite app_assoc. apply last_snoc.
  - destruct (truthy (sel_municipality selection)) eqn:Em.
    + intros [= <- <- <- <-]. apply truthy_orEmpty in Em.
      unfold GeometryRoute.whereParts, ownCondition. rewrite Em. apply last_snoc.
    + destruct (truthy (sel_district selection)) eqn:Ed; [|discriminate].
      intros [= <- <- <- <-]. apply truthy_orEmpty in Ed.
      unfold GeometryRoute.whereParts, ownCondition. rewrite Ed. reflexivity.
Qed.

(** A parish selected without its district and municipality: the request
    is filtered by the parish name alone. *)
Lemma X28_geometry_request_names_its_level_witness :
  last (GeometryRoute.whereParts Parish EmptyString EmptyString "Alvalade") =
  Some (GeometryRoute.buildWhereEquals "fre_name" "Alvalade").
Proof.
  apply (X28_geometry_request_names_its_level
           {| sel_country := "PT"; sel_district := None; sel_municipality := None;
              sel_parish := Some "Alvalade" |}).
  reflexivity.
Defined.

(** ** The split by listing type *)

Lemma countRows_snoc p rows row :
  countRows p (rows ++ [row]) = countRows p rows + (if p row then 1 else 0).
Proof.
  unfold countRows. rewrite List.filter_app, length_app. simpl.
  destruct (p row); simpl; lia.
Qed.

Lemma countRows_none (key : ListingRow -> string) k q rows :
  List.Forall (fun row => key row <> k) rows ->
  countRows (fun row => String.eqb (key row) k && q row) rows = 0.
Proof.
  unfold countRows. induction 1 as [|row rows Hrow _ IH]; [reflexivity|].
  simpl. apply String.eqb_neq in Hrow. rewrite Hrow. exact IH.
Qed.

Lemma classify_rent row : classify row = if rentRow row then Rent else Buy.
Proof. unfold classify, rentRow. destruct (row_listing_type row); reflexivity. Qed.

Lemma get_In_entries {V} k (m : JsMap.t V) v : JsMap.get k m = Some v -> In (k, v) m.
Proof.
  induction m as [|[k0 v0] m IH]; simpl; [discriminate|].
  destruct (String.eqb_spec k0 k) as [->|Hne]; [intros [= <-]; auto|auto].
Qed.

Lemma set_entries_other {V} (Q Q' : string * V -> Prop) k v (m : JsMap.t V) :
  List.NoDup (JsMap.keys m) ->
  List.Forall Q m ->
  (forall e, Q e -> fst e <> k -> Q' e) ->
  Q' (k, v) ->
  List.Forall Q' (JsMap.set k v m).
Proof.
  intros Hn Hm Hother Hv. induction Hm as [|[k0 v0] m H0 Hm IH]; simpl.
  - repeat constructor. exact Hv.
  - inversion Hn as [|? ? Hk0 Hn']; subst.
    destruct (String.eqb_spec k0 k) as [->|Hne].
    + constructor; [exact Hv|].
      apply List.Forall_forall. intros e He. apply Hother.
      * apply (proj1 (List.Forall_forall _ _) Hm), He.
      * intros E. apply Hk0. apply List.in_map_iff. exists e. auto.
    + constructor; [apply Hother; assumption|apply IH, Hn'].
Qed.

Lemma splitMap_step key rows row m :
  splitMap key rows m ->
  splitMap key (rows ++ [row]) (bump (classify row) (key row) m).
Proof.
  intros (Hn & Hf & Habsent).
  assert (Hkeyed : keyed m).
  { eapply List.Forall_impl; [|exact Hf]. intros e [He _]. exact He. }
  split; [apply set_keys_NoDup, Hn|]. split.
  - unfold bump.
    apply (set_entries_other
             (fun e => group_key (snd e) = fst e /\ splitsRows key rows (snd e))); [exact Hn|exact Hf| |].
    + intros [k b] [Hk [Hr Hb]] Hne. simpl in *. split; [exact Hk|].
      assert (E : String.eqb (key row) (group_key b) = false)
        by (apply String.eqb_neq; congruence).
      unfold splitsRows. rewrite !countRows_snoc, E. simpl. split; lia.
    + cbn [fst snd]. split; [apply currentBucket_key, Hkeyed|].
      unfold splitsRows. cbn [group_key increment rent_count buy_count].
      rewrite (currentBucket_key _ _ Hkeyed), !countRows_snoc, String.eqb_refl, classify_rent.
      unfold currentBucket.
      destruct (JsMap.get (key row) m) as [b|] eqn:Eg; cbn [default from_option id].
      * apply get_In_entries in Eg.
        destruct (proj1 (List.Forall_forall _ _) Hf _ Eg) as [Hk [Hr Hb]].
        cbn [fst snd] in Hk, Hr, Hb. rewrite Hk in Hr, Hb. rewrite Hr, Hb.
        destruct (rentRow row); simpl; split; lia.
      * cbn [rent_count buy_count].
        rewrite !countRows_none by (apply Habsent, Eg).
        destruct (rentRow row); simpl; split; lia.
  - intros p Hp. unfold bump in Hp. rewrite get_set in Hp.
    destruct (String.eqb_spec (key row) p) as [E|E]; [discriminate|].
    apply List.Forall_app. split; [apply Habsent, Hp|]. repeat constructor. exact E.
Qed.

Lemma splitState_step adminIndex rows row st :
  splitState adminIndex rows st ->
  splitState adminIndex (rows ++ [row]) (processRow adminIndex st row).
Proof.
  intros (Hr & Hb & Hd & Hm & Hp & Hy). unfold splitState, processRow.
  cbn [totalRent totalBuy districtMap municipalityMap parishMap typologyMap].
  rewrite !countRows_snoc, classify_rent.
  split; [destruct (rentRow row); simpl; lia|].
  split; [destruct (rentRow row); simpl; lia|].
  rewrite <- classify_rent.
  split; [apply (splitMap_step (regionKey adminIndex LevelDistrict)), Hd|].
  split; [apply (splitMap_step (regionKey adminIndex LevelMunicipality)), Hm|].
  split; [apply (splitMap_step (regionKey adminIndex LevelParish)), Hp|].
  apply (splitMap_step rowTypology), Hy.
Qed.

Lemma fold_splitState adminIndex more : forall done st,
  splitState adminIndex done st ->
  splitState adminIndex (done ++ more) (fold_left (processRow adminIndex) more st).
Proof.
  induction more as [|row more IH]; intros done st H; simpl.
  - rewrite app_nil_r. exact H.
  - replace (done ++ row :: more) with ((done ++ [row]) ++ more)
      by (rewrite <- app_assoc; reflexivity).
    apply IH, splitState_step, H.
Qed.

Lemma empty_splitState adminIndex : splitState adminIndex [] emptyAggState.
Proof.
  assert (H : forall key, splitMap key [] JsMap.empty).
  { intros key. split; [constructor|]. split; constructor. }
  unfold splitState. repeat split; try apply H; constructor.
Qed.

Lemma sorted_splits (cmp : BreakdownRow -> BreakdownRow -> Z) key rows m :
  splitMap key rows m ->
  List.Forall (splitsRows key rows) (arraySort cmp (JsMap.values m)).
Proof.
  intros (_ & Hf & _). apply List.Forall_forall. intros b Hb.
  apply (Permutation_in _ (arraySort_Permutation cmp _)) in Hb.
  apply List.in_map_iff in Hb as (e & <- & He).
  apply (proj1 (List.Forall_forall _ _) Hf), He.
Qed.

(** X29: the aggregation counts a row as rent when its [listing_type] is
    ["rent"] and as buy otherwise, a missing or any other type included:
    over a stable listing set this holds for [total_rent] and [total_buy]
    and for the [rent_count] and [buy_count] of every region and typology
    bucket. *)
Theorem X29_buy_counts_every_row_that_is_not_rent :
  forall (localeCompare : string -> string -> Z) (rows rows' : list ListingRow)
         (adminIndex : PortugalAdminIndex) (pageSize : Z) (fuel : nat),
    0 < pageSize ->
    Z.of_nat (length rows) / pageSize < Z.of_nat fuel ->
    exists m,
      snd (importDashboardMetrics localeCompare fuel (stableStore rows rows')
             adminIndex pageSize) = Returned m /\
      total_rent m = countRows rentRow rows /\
      total_buy m = countRows (fun row => negb (rentRow row)) rows /\
      List.Forall (splitsRows rowTypology rows) (typologies m) /\
      forall level,
        List.Forall (splitsRows (regionKey adminIndex level) rows) (regionsAt level m).
Proof.
  intros lc rows rows' adminIndex pageSize fuel HP Hfuel.
  unfold importDashboardMetrics.
  rewrite aggregate_stable_from_start by assumption.
  pose proof (fold_splitState adminIndex rows [] emptyAggState (empty_splitState adminIndex))
    as (Hr & Hb & Hd & Hm & Hp & Hy).
  simpl app in *.
  eexists. split; [reflexivity|].
  cbn [metricsOfState total_rent total_buy typologies].
  split; [exact Hr|]. split; [exact Hb|].
  split; [apply sorted_splits, Hy|].
  intros []; cbn [regionsAt metricsOfState regions_district regions_municipality regions_parish];
    apply sorted_splits; assumption.
Qed.

(** Of four listings of type rent, buy, sale and of no type, one is
    counted as rent and three as buy. *)
Lemma X29_buy_counts_every_row_that_is_not_rent_witness :
  exists m,
    snd (importDashboardMetrics codeUnitCompare 1 (stableStore typed_rows typed_rows)
           porto_index 5000) = Returned m /\
    total_rent m = 1 /\ total_buy m = 3.
Proof.
  destruct (X29_buy_counts_every_row_that_is_not_rent codeUnitCompare typed_rows typed_rows
              porto_index 5000 1 ltac:(lia) ltac:(vm_compute; reflexivity))
    as (m & Hm & Hr & Hb & _).
  exists m. split; [exact Hm|]. split; [exact Hr|exact Hb].
Defined.
